(** * HOLOW-MCP: the request pipeline of the MCP server, embedded in Rocq

    The development follows the Go sources:
    - [internal/server/server.go]: JSON-RPC dispatch, idempotency, template
      substitution, SQL steps, retry queue;
    - [internal/database/db.go]: the idempotency ledger and the ATTACH whitelist;
    - [internal/circuit/breaker.go]: the per-tool circuit breaker;
    - [schemas/lifecycle-execution.sql]: the tables behind the ledger and the
      retry queue;
    - [internal/chromium/browser.go]: the escaping of a selector for a script;
    - the package [observability]: the latency buffer and its percentiles;
    - [internal/database/validate.go]: the health report of the six databases.

    Go strings are byte sequences: they are lists of [ascii] here, and the
    places where the Go code ranges over runes decode UTF-8 as Go does.
    Go's [int] and [int64] are integers of [Z]. Where the code multiplies
    (the timeout of a breaker in nanoseconds, the doubled backoff of a
    retry) the result is brought back into 64 bits with [wrap64], as the
    machine does; the counters of this program move by one per call and stay
    far from the 64-bit limits. *)

From Stdlib Require Import ZArith Ascii String List Lia Bool DecimalString.
From Stdlib Require Import Sorted.
From Stdlib Require HexadecimalString.
From stdpp Require Import base list strings gmap.

(** ** Go strings and the [strings] / [unicode/utf8] helpers the server uses *)

Module GoStr.

Abbreviation bytes := (list ascii).

(** A literal of the source text as a byte sequence. *)
Definition B (s : string) : bytes := Stdlib.Strings.String.list_ascii_of_string s.

Definition byteZ (c : ascii) : Z := Z.of_N (N_of_ascii c).
Definition zbyte (z : Z) : ascii := ascii_of_N (Z.to_N z).

(** The backslash and the double quote. *)
Definition backslash : ascii := zbyte 92.
Definition dquote : ascii := zbyte 34.

(** [strings.HasPrefix s p]. *)
Fixpoint hasPrefix (s p : bytes) {struct p} : bool :=
  match p, s with
  | [], _ => true
  | _ :: _, [] => false
  | c :: p', d :: s' => bool_decide (c = d) && hasPrefix s' p'
  end.

(** [strings.Index s sub]: the byte offset of the first occurrence;
    Go's [-1] is [None]. *)
Fixpoint index (s sub : bytes) : option nat :=
  if hasPrefix s sub then Some 0%nat
  else match s with
       | [] => None
       | _ :: s' => S <$> index s' sub
       end.

(** [strings.Contains]. *)
Definition contains (s sub : bytes) : bool :=
  match index s sub with Some _ => true | None => false end.

(** [strings.ReplaceAll s old new] for a non-empty [old], which is the only
    way the server calls it (the patterns are one NUL byte, one quote, and
    a placeholder that starts with two braces): non-overlapping occurrences
    are replaced from left to right. [skip] counts the bytes of the
    occurrence being consumed. *)
Fixpoint replaceFrom (skip : nat) (s old new : bytes) : bytes :=
  match s with
  | [] => []
  | c :: s' =>
      match skip with
      | S k => replaceFrom k s' old new
      | O => if hasPrefix s old
             then new ++ replaceFrom (length old - 1) s' old new
             else c :: replaceFrom 0 s' old new
      end
  end.

Definition replaceAll (s old new : bytes) : bytes :=
  match old with
  | [] => s
  | _ :: _ => replaceFrom 0 s old new
  end.

(** Go slices [s[:n]] and [s[n:]] and [s[a:b]]. *)
Definition sliceTo (s : bytes) (n : nat) : bytes := take n s.
Definition sliceFrom (s : bytes) (n : nat) : bytes := drop n s.
Definition slice (s : bytes) (a b : nat) : bytes := take (b - a) (drop a s).

(** *** UTF-8, as [unicode/utf8] decodes and encodes it *)

Definition RuneError : Z := 65533.

(** The table [first] of [unicode/utf8]: for a leading byte, the length of
    the sequence and the accepted range of the second byte. *)
Definition firstByte (b : Z) : option (nat * Z * Z) :=
  if (b <? 194)%Z then None
  else if (b <=? 223)%Z then Some (2%nat, 128, 191)%Z
  else if (b =? 224)%Z then Some (3%nat, 160, 191)%Z
  else if (b <=? 236)%Z then Some (3%nat, 128, 191)%Z
  else if (b =? 237)%Z then Some (3%nat, 128, 159)%Z
  else if (b <=? 239)%Z then Some (3%nat, 128, 191)%Z
  else if (b =? 240)%Z then Some (4%nat, 144, 191)%Z
  else if (b <=? 243)%Z then Some (4%nat, 128, 191)%Z
  else if (b =? 244)%Z then Some (4%nat, 128, 143)%Z
  else None.

Definition isCont (b : Z) : bool := (128 <=? b)%Z && (b <=? 191)%Z.

(** [utf8.DecodeRuneInString]: the rune at the head of [s] and its width.
    An invalid or truncated sequence yields [(RuneError, 1)]. The masks and
    shifts of the Go code are written as remainders and products:
    [b & 0x3F] is [b mod 64] and [x << 6] is [x * 64]. *)
Definition decodeRune (s : bytes) : Z * nat :=
  match s with
  | [] => (RuneError, 0%nat)
  | c0 :: t =>
      let s0 := byteZ c0 in
      if (s0 <? 128)%Z then (s0, 1%nat)
      else match firstByte s0 with
           | None => (RuneError, 1%nat)
           | Some (sz, lo, hi) =>
               if (length s <? sz)%nat then (RuneError, 1%nat)
               else match t with
               | [] => (RuneError, 1%nat)
               | c1 :: t1 =>
                   let s1 := byteZ c1 in
                   if (s1 <? lo)%Z || (hi <? s1)%Z then (RuneError, 1%nat)
                   else if (sz <=? 2)%nat
                   then ((s0 mod 32) * 64 + s1 mod 64, 2%nat)%Z
                   else match t1 with
                        | [] => (RuneError, 1%nat)
                        | c2 :: t2 =>
                            let s2 := byteZ c2 in
                            if negb (isCont s2) then (RuneError, 1%nat)
                            else if (sz <=? 3)%nat
                            then ((s0 mod 16) * 4096 + (s1 mod 64) * 64 + s2 mod 64,
                                  3%nat)%Z
                            else match t2 with
                                 | [] => (RuneError, 1%nat)
                                 | c3 :: _ =>
                                     let s3 := byteZ c3 in
                                     if negb (isCont s3) then (RuneError, 1%nat)
                                     else ((s0 mod 8) * 262144 + (s1 mod 64) * 4096
                                           + (s2 mod 64) * 64 + s3 mod 64,
                                           4%nat)%Z
                                 end
                        end
               end
           end
  end.

(** [utf8.AppendRune], which [strings.Builder.WriteRune] calls. *)
Definition encodeRune (r : Z) : bytes :=
  if (0 <=? r)%Z && (r <=? 127)%Z then [zbyte r]
  else if (0 <=? r)%Z && (r <=? 2047)%Z
  then [zbyte (192 + r / 64); zbyte (128 + r mod 64)]
  else if ((0 <=? r)%Z && (r <? 55296)%Z) || ((57343 <? r)%Z && (r <=? 65535)%Z)
  then [zbyte (224 + r / 4096); zbyte (128 + (r / 64) mod 64); zbyte (128 + r mod 64)]
  else if (65535 <? r)%Z && (r <=? 1114111)%Z
  then [zbyte (240 + r / 262144); zbyte (128 + (r / 4096) mod 64);
        zbyte (128 + (r / 64) mod 64); zbyte (128 + r mod 64)]
  else [zbyte 239; zbyte 191; zbyte 189].

(** [for i, r := range s]: the byte offset and the rune of every step of
    the loop. [skip] counts the remaining bytes of the rune just read. *)
Fixpoint rangeFrom (skip i : nat) (s : bytes) : list (nat * Z) :=
  match s with
  | [] => []
  | _ :: s' =>
      match skip with
      | S k => rangeFrom k (S i) s'
      | O => (i, fst (decodeRune s)) :: rangeFrom (snd (decodeRune s) - 1) (S i) s'
      end
  end.

Definition rangeRunes (s : bytes) : list (nat * Z) := rangeFrom 0 0 s.
Definition runes (s : bytes) : list Z := snd <$> rangeRunes s.

Definition isASCII (s : bytes) : bool := forallb (fun c => (byteZ c <? 128)%Z) s.

Definition lowerByte (c : ascii) : ascii :=
  if (65 <=? byteZ c)%Z && (byteZ c <=? 90)%Z then zbyte (byteZ c + 32) else c.
Definition upperByte (c : ascii) : ascii :=
  if (97 <=? byteZ c)%Z && (byteZ c <=? 122)%Z then zbyte (byteZ c - 32) else c.

(** [strings.Map mapping s]: negative results are dropped. *)
Definition mapRunes (mapping : Z -> Z) (s : bytes) : bytes :=
  concat ((fun r => if (mapping r <? 0)%Z then [] else encodeRune (mapping r)) <$> runes s).

(** [unicode.ToLower] and [unicode.ToUpper]: the ASCII letters are moved by
    32, the runes from 128 up go through the Unicode tables (the argument). *)
Definition lowerRune (unicodeToLower : Z -> Z) (r : Z) : Z :=
  if (r <? 128)%Z
  then (if (65 <=? r)%Z && (r <=? 90)%Z then r + 32 else r)%Z
  else unicodeToLower r.
Definition upperRune (unicodeToUpper : Z -> Z) (r : Z) : Z :=
  if (r <? 128)%Z
  then (if (97 <=? r)%Z && (r <=? 122)%Z then r - 32 else r)%Z
  else unicodeToUpper r.

(** [strings.ToLower] and [strings.ToUpper]: bytewise on an ASCII string,
    rune by rune with [strings.Map] otherwise. *)
Definition toLower (unicodeToLower : Z -> Z) (s : bytes) : bytes :=
  if isASCII s then lowerByte <$> s else mapRunes (lowerRune unicodeToLower) s.
Definition toUpper (unicodeToUpper : Z -> Z) (s : bytes) : bytes :=
  if isASCII s then upperByte <$> s else mapRunes (upperRune unicodeToUpper) s.

(** [fmt.Sprintf] with the verb [%d]. *)
Definition formatInt (n : Z) : bytes := B (NilZero.string_of_int (Z.to_int n)).

Definition hexDigit (n : Z) : ascii :=
  if (n <? 10)%Z then zbyte (48 + n) else zbyte (87 + n).

(** [fmt.Sprintf] with the format [\u%04x], for a rune below 32. *)
Definition unicodeEscape (r : Z) : bytes :=
  B "\u" ++ [hexDigit ((r / 4096) mod 16); hexDigit ((r / 256) mod 16);
             hexDigit ((r / 16) mod 16); hexDigit (r mod 16)].

End GoStr.

Export GoStr.

(** ** Go's 64-bit integers *)

Module GoInt.

(** [int64], and [int] on the 64-bit platforms the server is built for:
    two's complement, so a result that leaves the range from [-2^63] to
    [2^63 - 1] comes back into it modulo [2^64]. *)
Definition wrap64 (z : Z) : Z := ((z + 2 ^ 63) mod 2 ^ 64 - 2 ^ 63)%Z.

End GoInt.

Export GoInt.

(** ** Values of Go's [interface{}] and the JSON-RPC envelope *)

#[local] Set Warnings "-register-all,-abstract-large-number".

(** What an [interface{}] holds in this program: the values [encoding/json]
    produces ([nil], [bool], [float64], [string], slices and maps), the
    integers and byte slices a database driver returns. A [float64] is carried
    by the text [fmt]'s [%v] prints for it; a map is carried by its entries in
    the order a [range] loop visits them. *)
Inductive GoValue : Type :=
| VNil
| VBool (b : bool)
| VString (s : bytes)
| VFloat64 (text : bytes)
| VInt (n : Z)
| VInt64 (n : Z)
| VBytes (b : bytes)
| VSlice (l : list GoValue)
| VMap (m : list (bytes * GoValue)).

Abbreviation Args := (list (bytes * GoValue)).

(** [type RPCError struct]. [Data] is an [interface{}]: [VNil] is the nil
    interface. *)
Record RPCError : Type := mkRPCError {
  Code : Z;
  Message : bytes;
  Data : GoValue
}.

(** [type JSONRPCRequest struct]. *)
Record JSONRPCRequest : Type := mkRequest {
  reqJSONRPC : bytes;
  reqID : GoValue;
  reqMethod : bytes;
  reqParams : bytes
}.

(** [type JSONRPCResponse struct]. [Result] is an [interface{}] and [Error] a
    pointer; the nil pointer is [None]. *)
Record JSONRPCResponse : Type := mkResponse {
  respJSONRPC : bytes;
  respID : GoValue;
  respResult : GoValue;
  respError : option RPCError
}.

(** ** Rows of the tables the pipeline reads and writes *)

(** [processed_log] of lifecycle-execution: [hash TEXT PRIMARY KEY]. *)
Record ProcessedRow : Type := mkProcessed {
  pl_hash : bytes;
  pl_request_id : bytes;
  pl_tool_name : bytes;
  pl_status : bytes;
  pl_result_hash : bytes;
  pl_processing_time_ms : Z
}.

(** [retry_queue] of lifecycle-execution: [id INTEGER PRIMARY KEY
    AUTOINCREMENT], [attempt_number DEFAULT 1], [backoff_seconds DEFAULT 2],
    [status DEFAULT 'pending'] (pending, processing, exhausted). *)
Record RetryRow : Type := mkRetry {
  rq_id : Z;
  rq_request_id : bytes;
  rq_tool_name : bytes;
  rq_params_json : bytes;
  rq_attempt_number : Z;
  rq_max_attempts : Z;
  rq_next_retry_at : Z;
  rq_backoff_seconds : Z;
  rq_status : bytes;
  rq_last_error : option bytes
}.

(** [dead_letter_queue] of output. *)
Record DeadLetterRow : Type := mkDeadLetter {
  dl_request_id : bytes;
  dl_tool_name : bytes;
  dl_params_json : bytes;
  dl_error_message : bytes;
  dl_attempts : Z;
  dl_first_attempt_at : Z;
  dl_last_attempt_at : Z
}.

(** [allowed_attach_paths] of lifecycle-core: [worker_name TEXT PRIMARY KEY]. *)
Record AttachRow : Type := mkAttach {
  ap_worker_name : bytes;
  ap_db_path : bytes;
  ap_db_type : bytes;
  ap_allowed : Z
}.

(** [tool_results] of output. *)
Record ToolResultRow : Type := mkToolResult {
  tr_hash : bytes;
  tr_request_id : bytes;
  tr_tool_name : bytes;
  tr_result_json : bytes
}.

(** [telemetry_security_events] of lifecycle-core. *)
Record SecurityEvent : Type := mkSecurityEvent {
  se_event_type : bytes;
  se_severity : bytes;
  se_details : bytes
}.

(** [type ToolStep struct] and [type Tool struct] of the catalogue. *)
Record ToolStep : Type := mkStep {
  Order : Z;
  StepName : bytes;
  StepType : bytes;
  SQLTemplate : bytes
}.

Record Tool : Type := mkTool {
  Name : bytes;
  Description : bytes;
  InputSchema : bytes;
  TimeoutSecs : Z;
  RetryPolicy : bytes;
  MaxRetries : Z;
  Steps : list ToolStep
}.

(** ** What the server takes from outside its own code

    The Unicode tables (for the runes from 128 up), [encoding/json],
    [crypto/sha256], [fmt]'s [%v], the SQLite engine behind the tool shard,
    the two built-in tool hosts, the reload of the catalogue and the pump of
    pending CDP commands. [World] is the state they act on (the tool
    database, the browser, the file system); the tables above are kept apart
    from it. *)
Class Runtime : Type := {
  unicodeToLower : Z -> Z;
  unicodeToUpper : Z -> Z;
  unicodeIsSpace : Z -> bool;
  jsonMarshal : GoValue -> option bytes;
  jsonUnmarshal : bytes -> option GoValue;
  unmarshalRequest : bytes -> bytes + JSONRPCRequest;
  unmarshalCallParams : bytes -> bytes + (bytes * Args);
  unmarshalArgs : bytes -> Args;
  formatValue : GoValue -> bytes;
  sha256hex : bytes -> bytes;
  World : Type;
  sqlQuery : bytes -> World -> (bytes + (list bytes * list (list GoValue))) * World;
  sqlExec : bytes -> World -> (bytes + (Z * Z)) * World;
  browserExecute : bytes -> Args -> World -> (bytes + GoValue) * World;
  brainloopExecute : bytes -> Args -> list ProcessedRow -> World -> (bytes + GoValue) * World;
  builtinToolDefinitions : list GoValue;
  reloadTools : World -> option (gmap bytes Tool) * World;
  cdpProcess : World -> World
}.

(** ** Template substitution ([server.go], lines 505-688) *)

Module Template.

(** The rune test of the last loop of [sanitizeSQLValue]. *)
Definition keepRune (r : Z) : bool :=
  (r =? 10)%Z || (r =? 9)%Z || (r =? 13)%Z
  || ((32 <=? r)%Z && (r <? 127)%Z) || (128 <=? r)%Z.

Definition filterControl (value : bytes) : bytes :=
  concat ((fun r => if keepRune r then encodeRune r else []) <$> runes value).

(** [sanitizeSQLValue]: NUL bytes removed, single quotes doubled, then the
    rune loop that keeps newline, tab, carriage return, printable ASCII and
    everything from 128 up. *)
Definition sanitizeSQLValue (value : bytes) : bytes :=
  let value := replaceAll value [zbyte 0] [] in
  let value := replaceAll value (B "'") (B "''") in
  filterControl value.

(** One turn of the [switch] of [escapeJSONValue]. *)
Definition escapeJSONRune (r : Z) : bytes :=
  if (r =? 92)%Z then [backslash; backslash]
  else if (r =? 34)%Z then [backslash; dquote]
  else if (r =? 10)%Z then B "\n"
  else if (r =? 13)%Z then B "\r"
  else if (r =? 9)%Z then B "\t"
  else if (r =? 0)%Z then []
  else if (r <? 32)%Z then unicodeEscape r
  else encodeRune r.

(** [escapeJSONValue]. *)
Definition escapeJSONValue (value : bytes) : bytes :=
  concat (escapeJSONRune <$> runes value).

Definition isLetter (r : Z) : bool :=
  ((97 <=? r)%Z && (r <=? 122)%Z) || ((65 <=? r)%Z && (r <=? 90)%Z) || (r =? 95)%Z.
Definition isLetterOrDigit (r : Z) : bool :=
  ((97 <=? r)%Z && (r <=? 122)%Z) || ((65 <=? r)%Z && (r <=? 90)%Z)
  || ((48 <=? r)%Z && (r <=? 57)%Z) || (r =? 95)%Z.

(** [validateParamKey]: the loop returns [false] at the first rune that
    fails its test, which is [forallb] over the steps of the loop. *)
Definition validateParamKey (key : bytes) : bool :=
  if (length key =? 0)%nat || (64 <? length key)%nat then false
  else forallb (fun ir => if (fst ir =? 0)%nat then isLetter (snd ir)
                          else isLetterOrDigit (snd ir))
               (rangeRunes key).

Definition jsIndicators : list bytes :=
  [B "expression"; B "document."; B "window."; B "json.stringify";
   B ".queryselector"; B ".click()"; B ".focus()"; B ".value";
   B "innertext"; B "innerhtml"].

Definition maxValueLen : nat := 65536.

(** [if len(strValue) > maxValueLen { strValue = strValue[:maxValueLen] }]. *)
Definition capValue (strValue : bytes) : bytes :=
  if (maxValueLen <? length strValue)%nat then sliceTo strValue maxValueLen
  else strValue.

Definition placeholderOf (key : bytes) : bytes := B "{{" ++ key ++ B "}}".

(** The loop that ends [substituteParams]: cut from the first pair of
    opening braces to the first pair of closing braces after it, until one
    of the two is missing. Every turn shortens the text, so its length
    bounds the number of turns. *)
Fixpoint erasePlaceholders (fuel : nat) (result : bytes) : bytes :=
  match fuel with
  | O => result
  | S fuel' =>
      match index result (B "{{") with
      | None => result
      | Some start =>
          match index (sliceFrom result start) (B "}}") with
          | None => result
          | Some e =>
              erasePlaceholders fuel'
                (sliceTo result start ++ sliceFrom result (start + e + 2))
          end
      end
  end.

Section WithRuntime.
Context `{rt : Runtime}.

(** [isInJavaScriptContext]: the window of at most 200 bytes before the
    first occurrence of the placeholder, lower-cased, searched for the
    indicators. *)
Definition isInJavaScriptContext (template placeholder : bytes) : bool :=
  match index template placeholder with
  | None => false
  | Some idx =>
      let lookback := if (idx <? 200)%nat then idx else 200%nat in
      let context := toLower unicodeToLower (slice template (idx - lookback) idx) in
      existsb (fun indicator => contains context indicator) jsIndicators
  end.

(** The type switch of [substituteParams]; [None] is the [continue] taken
    when [json.Marshal] fails. *)
Definition coerceValue (value : GoValue) : option bytes :=
  match value with
  | VString v => Some v
  | VFloat64 text => Some text
  | VInt n => Some (formatInt n)
  | VInt64 n => Some (formatInt n)
  | VBool v => Some (if v then B "1" else B "0")
  | VNil => Some []
  | v => jsonMarshal v
  end.

(** The context-dependent escaping of one capped value. *)
Definition escapeFor (result placeholder strValue : bytes) : bytes :=
  sanitizeSQLValue
    (if isInJavaScriptContext result placeholder
     then escapeJSONValue strValue else strValue).

(** The body of [for key, value := range args]. *)
Definition substituteArg (result : bytes) (kv : bytes * GoValue) : bytes :=
  if negb (validateParamKey kv.1) then result
  else match coerceValue kv.2 with
       | None => result
       | Some strValue =>
           replaceAll result (placeholderOf kv.1)
             (escapeFor result (placeholderOf kv.1) (capValue strValue))
       end.

(** [substituteParams]. [args] lists the entries of the map in the order
    the [range] loop visits them, an order Go leaves open. *)
Definition substituteParams (template : bytes) (args : Args) : bytes :=
  let result := fold_left substituteArg args template in
  erasePlaceholders (length result) result.

End WithRuntime.

End Template.

(** ** The circuit breaker ([internal/circuit/breaker.go]) *)

Module Circuit.

(** [type State string]: the three named constants, and any other text a
    row of [circuit_breakers] may hold. *)
Inductive State : Type :=
| StateClosed
| StateOpen
| StateHalfOpen
| StateOther (s : bytes).

Definition stateText (s : State) : bytes :=
  match s with
  | StateClosed => B "closed"
  | StateOpen => B "open"
  | StateHalfOpen => B "half_open"
  | StateOther t => t
  end.

(** [type Breaker struct]. Instants ([time.Time]) and durations are counted
    in nanoseconds. *)
Record Breaker : Type := mkBreaker {
  name : bytes;
  state : State;
  failureCount : Z;
  successCount : Z;
  failureThreshold : Z;
  successThreshold : Z;
  timeoutSeconds : Z;
  lastStateChange : Z;
  halfOpenMaxCalls : Z;
  halfOpenCalls : Z
}.

(** [time.Second]. *)
Definition Second : Z := 1000000000.

(** The extreme values of [time.Duration], an [int64]. *)
Definition minDuration : Z := (- 2 ^ 63)%Z.
Definition maxDuration : Z := (2 ^ 63 - 1)%Z.

(** [time.Since(t)] when the clock reads [now]: [Time.Sub] returns the
    difference when it is a [Duration], and the extreme one on its side
    when it is not. *)
Definition since (now t : Z) : Z :=
  Z.max minDuration (Z.min maxDuration (now - t)).

(** [time.Duration(b.timeoutSeconds)*time.Second]: the product of two
    [int64]. *)
Definition timeout (b : Breaker) : Z := wrap64 (timeoutSeconds b * Second).

(** [CanExecute]: the verdict, the error of a refusal, and the breaker as
    the call leaves it. *)
Definition CanExecute (now : Z) (b : Breaker) : bool * option bytes * Breaker :=
  match state b with
  | StateClosed => (true, None, b)
  | StateOpen =>
      if (timeout b <? since now (lastStateChange b))%Z
      then (true, None,
            mkBreaker (name b) StateHalfOpen (failureCount b) 0
              (failureThreshold b) (successThreshold b) (timeoutSeconds b)
              now (halfOpenMaxCalls b) 0)
      else (false, Some (B "circuit breaker " ++ name b ++ B " is open"), b)
  | StateHalfOpen =>
      if (halfOpenMaxCalls b <=? halfOpenCalls b)%Z
      then (false,
            Some (B "circuit breaker " ++ name b ++ B ": half-open max calls reached"),
            b)
      else (true, None,
            mkBreaker (name b) (state b) (failureCount b) (successCount b)
              (failureThreshold b) (successThreshold b) (timeoutSeconds b)
              (lastStateChange b) (halfOpenMaxCalls b) (halfOpenCalls b + 1))
  | StateOther t => (false, Some (B "unknown circuit state: " ++ t), b)
  end.

(** [RecordSuccess]. The [UPDATE circuit_breakers] that follows copies the
    state and the two counts to the table and changes nothing here. *)
Definition RecordSuccess (now : Z) (b : Breaker) : Breaker :=
  match state b with
  | StateClosed =>
      mkBreaker (name b) (state b) 0 (successCount b)
        (failureThreshold b) (successThreshold b) (timeoutSeconds b)
        (lastStateChange b) (halfOpenMaxCalls b) (halfOpenCalls b)
  | StateHalfOpen =>
      if (successThreshold b <=? successCount b + 1)%Z
      then mkBreaker (name b) StateClosed 0 0
             (failureThreshold b) (successThreshold b) (timeoutSeconds b)
             now (halfOpenMaxCalls b) (halfOpenCalls b)
      else mkBreaker (name b) (state b) (failureCount b) (successCount b + 1)
             (failureThreshold b) (successThreshold b) (timeoutSeconds b)
             (lastStateChange b) (halfOpenMaxCalls b) (halfOpenCalls b)
  | _ => b
  end.

(** [RecordFailure]. *)
Definition RecordFailure (now : Z) (b : Breaker) : Breaker :=
  match state b with
  | StateClosed =>
      if (failureThreshold b <=? failureCount b + 1)%Z
      then mkBreaker (name b) StateOpen (failureCount b + 1) (successCount b)
             (failureThreshold b) (successThreshold b) (timeoutSeconds b)
             now (halfOpenMaxCalls b) (halfOpenCalls b)
      else mkBreaker (name b) (state b) (failureCount b + 1) (successCount b)
             (failureThreshold b) (successThreshold b) (timeoutSeconds b)
             (lastStateChange b) (halfOpenMaxCalls b) (halfOpenCalls b)
  | StateHalfOpen =>
      mkBreaker (name b) StateOpen (failureCount b) 0
        (failureThreshold b) (successThreshold b) (timeoutSeconds b)
        now (halfOpenMaxCalls b) (halfOpenCalls b)
  | _ => b
  end.

(** The breaker [Manager.Get] creates for a name it does not know. *)
Definition defaultBreaker (nm : bytes) (now : Z) : Breaker :=
  mkBreaker nm StateClosed 0 0 5 3 60 now 3 0.

(** [type Manager struct]: the map from tool names to breakers. The Go map
    holds pointers; a call on a breaker is written back under its name. *)
Abbreviation Manager := (gmap bytes Breaker).

(** [Manager.Get]. *)
Definition Get (now : Z) (nm : bytes) (m : Manager) : Breaker * Manager :=
  match m !! nm with
  | Some b => (b, m)
  | None => (defaultBreaker nm now, <[nm := defaultBreaker nm now]> m)
  end.

(** What a caller does to a breaker: ask for leave to execute, or report the
    outcome of an execution. *)
Inductive Event : Type :=
| Call (now : Z)
| Success (now : Z)
| Failure (now : Z).

Definition apply (e : Event) (b : Breaker) : Breaker :=
  match e with
  | Call now => (CanExecute now b).2
  | Success now => RecordSuccess now b
  | Failure now => RecordFailure now b
  end.

Definition run (evs : list Event) (b : Breaker) : Breaker :=
  fold_left (fun b e => apply e b) evs b.




(** [Reset]. The [UPDATE circuit_breakers] that follows writes the same
    state and counts to the table. [halfOpenCalls] is not touched. *)
Definition Reset (now : Z) (b : Breaker) : Breaker :=
  mkBreaker (name b) StateClosed 0 0
    (failureThreshold b) (successThreshold b) (timeoutSeconds b)
    now (halfOpenMaxCalls b) (halfOpenCalls b).

End Circuit.

(** ** The ledger and the whitelist ([internal/database/db.go]) *)

Module Database.

(** [CheckProcessed]: [SELECT 1 FROM processed_log WHERE hash = ?]. *)
Definition CheckProcessed (hash : bytes) (t : list ProcessedRow) : bool :=
  existsb (fun r => bool_decide (pl_hash r = hash)) t.

(** [MarkProcessed]: a plain [INSERT INTO processed_log]. [hash] is the
    primary key of the table, so the engine refuses a second row with the
    same hash and leaves the table as it was. *)
Definition MarkProcessed (hash requestID toolName status resultHash : bytes)
    (processingTimeMs : Z) (t : list ProcessedRow) : option bytes * list ProcessedRow :=
  if CheckProcessed hash t
  then (Some (B "UNIQUE constraint failed: processed_log.hash"), t)
  else (None, t ++ [mkProcessed hash requestID toolName status resultHash processingTimeMs]).

(** [ValidateAttachPath]: [SELECT allowed FROM allowed_attach_paths WHERE
    db_path = ?], first row. [None] is the nil error. *)
Definition ValidateAttachPath (path : bytes) (t : list AttachRow) : option bytes :=
  match filter (fun r => ap_db_path r = path) t with
  | [] => Some (B "ATTACH forbidden: path not in whitelist: " ++ path)
  | r :: _ =>
      if (ap_allowed r =? 1)%Z then None
      else Some (B "ATTACH forbidden: path disabled: " ++ path)
  end.

(** [AddAllowedAttachPath]: [INSERT OR REPLACE], keyed by the worker name. *)
Definition AddAllowedAttachPath (workerName dbPath dbType : bytes)
    (t : list AttachRow) : list AttachRow :=
  filter (fun r => ap_worker_name r <> workerName) t
  ++ [mkAttach workerName dbPath dbType 1].

End Database.

(** ** The tool catalogue ([internal/tools/tools.go]) *)

Module Tools.

(** [Manager.Get] on the loaded catalogue. *)
Definition Get (nm : bytes) (tools : gmap bytes Tool) : option Tool := tools !! nm.

(** [Tool.ToMCPSchema]; the raw schema is carried as a byte slice. *)
Definition ToMCPSchema (t : Tool) : GoValue :=
  VMap [(B "name", VString (Name t));
        (B "description", VString (Description t));
        (B "inputSchema", VBytes (InputSchema t))].

(** [Manager.GetAllToolDefinitions]. *)
Definition GetAllToolDefinitions (tools : gmap bytes Tool) : list Tool :=
  (map_to_list tools).*2.

End Tools.

(** ** The server ([internal/server/server.go]) *)

Module Server.

Section WithRuntime.
Context `{rt : Runtime}.

(** The state the handlers act on: the tables of the four shards they
    touch, the loaded catalogue, the breakers, the outside world, the
    lines written to standard output (each as the value handed to
    [json.Marshal]) and the two counters. [retry_seq] is the
    AUTOINCREMENT sequence of [retry_queue]. *)
Record State : Type := mkState {
  processed_log : list ProcessedRow;
  retry_queue : list RetryRow;
  retry_seq : Z;
  dead_letter_queue : list DeadLetterRow;
  allowed_attach_paths : list AttachRow;
  tool_results : list ToolResultRow;
  security_events : list SecurityEvent;
  tools : gmap bytes Tool;
  circuits : Circuit.Manager;
  world : World;
  stdout : list GoValue;
  requestsProcessed : Z;
  requestsFailed : Z
}.

Definition set_processed_log (v : list ProcessedRow) (s : State) : State :=
  mkState v (retry_queue s) (retry_seq s) (dead_letter_queue s)
    (allowed_attach_paths s) (tool_results s) (security_events s) (tools s)
    (circuits s) (world s) (stdout s) (requestsProcessed s) (requestsFailed s).
Definition set_retry_queue (v : list RetryRow) (s : State) : State :=
  mkState (processed_log s) v (retry_seq s) (dead_letter_queue s)
    (allowed_attach_paths s) (tool_results s) (security_events s) (tools s)
    (circuits s) (world s) (stdout s) (requestsProcessed s) (requestsFailed s).
Definition set_retry_seq (v : Z) (s : State) : State :=
  mkState (processed_log s) (retry_queue s) v (dead_letter_queue s)
    (allowed_attach_paths s) (tool_results s) (security_events s) (tools s)
    (circuits s) (world s) (stdout s) (requestsProcessed s) (requestsFailed s).
Definition set_dead_letter_queue (v : list DeadLetterRow) (s : State) : State :=
  mkState (processed_log s) (retry_queue s) (retry_seq s) v
    (allowed_attach_paths s) (tool_results s) (security_events s) (tools s)
    (circuits s) (world s) (stdout s) (requestsProcessed s) (requestsFailed s).
Definition set_allowed_attach_paths (v : list AttachRow) (s : State) : State :=
  mkState (processed_log s) (retry_queue s) (retry_seq s) (dead_letter_queue s)
    v (tool_results s) (security_events s) (tools s)
    (circuits s) (world s) (stdout s) (requestsProcessed s) (requestsFailed s).
Definition set_tool_results (v : list ToolResultRow) (s : State) : State :=
  mkState (processed_log s) (retry_queue s) (retry_seq s) (dead_letter_queue s)
    (allowed_attach_paths s) v (security_events s) (tools s)
    (circuits s) (world s) (stdout s) (requestsProcessed s) (requestsFailed s).
Definition set_security_events (v : list SecurityEvent) (s : State) : State :=
  mkState (processed_log s) (retry_queue s) (retry_seq s) (dead_letter_queue s)
    (allowed_attach_paths s) (tool_results s) v (tools s)
    (circuits s) (world s) (stdout s) (requestsProcessed s) (requestsFailed s).
Definition set_tools (v : gmap bytes Tool) (s : State) : State :=
  mkState (processed_log s) (retry_queue s) (retry_seq s) (dead_letter_queue s)
    (allowed_attach_paths s) (tool_results s) (security_events s) v
    (circuits s) (world s) (stdout s) (requestsProcessed s) (requestsFailed s).
Definition set_circuits (v : Circuit.Manager) (s : State) : State :=
  mkState (processed_log s) (retry_queue s) (retry_seq s) (dead_letter_queue s)
    (allowed_attach_paths s) (tool_results s) (security_events s) (tools s)
    v (world s) (stdout s) (requestsProcessed s) (requestsFailed s).
Definition set_world (v : World) (s : State) : State :=
  mkState (processed_log s) (retry_queue s) (retry_seq s) (dead_letter_queue s)
    (allowed_attach_paths s) (tool_results s) (security_events s) (tools s)
    (circuits s) v (stdout s) (requestsProcessed s) (requestsFailed s).
Definition set_stdout (v : list GoValue) (s : State) : State :=
  mkState (processed_log s) (retry_queue s) (retry_seq s) (dead_letter_queue s)
    (allowed_attach_paths s) (tool_results s) (security_events s) (tools s)
    (circuits s) (world s) v (requestsProcessed s) (requestsFailed s).
Definition set_requestsProcessed (v : Z) (s : State) : State :=
  mkState (processed_log s) (retry_queue s) (retry_seq s) (dead_letter_queue s)
    (allowed_attach_paths s) (tool_results s) (security_events s) (tools s)
    (circuits s) (world s) (stdout s) v (requestsFailed s).
Definition set_requestsFailed (v : Z) (s : State) : State :=
  mkState (processed_log s) (retry_queue s) (retry_seq s) (dead_letter_queue s)
    (allowed_attach_paths s) (tool_results s) (security_events s) (tools s)
    (circuits s) (world s) (stdout s) (requestsProcessed s) v.

(** *** Writing a response *)

(** The members [json.Marshal] writes for an [RPCError]: [data] has the
    tag [omitempty] and is left out when the interface is nil. *)
Definition errorMembers (e : RPCError) : list (bytes * GoValue) :=
  [(B "code", VInt (Code e)); (B "message", VString (Message e))]
  ++ match Data e with
     | VNil => []
     | d => [(B "data", d)]
     end.

(** The members [json.Marshal] writes for a [JSONRPCResponse], in the
    order of the fields: [jsonrpc] and [id] carry no [omitempty]; [result]
    and [error] do. *)
Definition responseMembers (resp : JSONRPCResponse) : list (bytes * GoValue) :=
  [(B "jsonrpc", VString (respJSONRPC resp)); (B "id", respID resp)]
  ++ match respResult resp with
     | VNil => []
     | r => [(B "result", r)]
     end
  ++ match respError resp with
     | None => []
     | Some e => [(B "error", VMap (errorMembers e))]
     end.

(** [send]: nothing is written when [json.Marshal] fails. *)
Definition send (resp : JSONRPCResponse) (s : State) : State :=
  match jsonMarshal (VMap (responseMembers resp)) with
  | None => s
  | Some _ => set_stdout (stdout s ++ [VMap (responseMembers resp)]) s
  end.

(** [sendResult]. *)
Definition sendResult (id result : GoValue) (s : State) : State :=
  send (mkResponse (B "2.0") id result None) s.

(** [sendError]. *)
Definition sendError (id : GoValue) (code : Z) (message : bytes) (data : GoValue)
    (s : State) : State :=
  send (mkResponse (B "2.0") id VNil (Some (mkRPCError code message data))) s.

(** *** Executing a tool *)

Definition isSpaceRune (r : Z) : bool :=
  if (r <? 128)%Z
  then ((9 <=? r)%Z && (r <=? 13)%Z) || (r =? 32)%Z
  else unicodeIsSpace r.

Fixpoint trimLeft (n : nat) (s : bytes) : bytes :=
  match n with
  | O => s
  | S n' =>
      match s with
      | [] => []
      | _ :: _ =>
          if isSpaceRune (decodeRune s).1
          then trimLeft n' (drop (decodeRune s).2 s)
          else s
      end
  end.

Fixpoint trimRight (s : bytes) : bytes :=
  match s with
  | [] => []
  | c :: s' => if forallb isSpaceRune (runes s) then [] else c :: trimRight s'
  end.

(** [strings.TrimSpace]. *)
Definition trimSpace (s : bytes) : bytes := trimRight (trimLeft (length s) s).

(** [row[col] = val] on a map kept as its list of entries. *)
Fixpoint mapSet (k : bytes) (v : GoValue) (m : list (bytes * GoValue))
    : list (bytes * GoValue) :=
  match m with
  | [] => [(k, v)]
  | (k', v') :: m' =>
      if bool_decide (k' = k) then (k, v) :: m' else (k', v') :: mapSet k v m'
  end.

Definition mapGet (k : bytes) (m : list (bytes * GoValue)) : GoValue :=
  match filter (fun kv => kv.1 = k) m with
  | [] => VNil
  | kv :: _ => kv.2
  end.

(** One scanned row as a map from column to value; byte slices become
    strings. *)
Definition scanRow (columns : list bytes) (values : list GoValue)
    : list (bytes * GoValue) :=
  fold_left (fun row cv =>
               mapSet cv.1 (match cv.2 with VBytes b => VString b | v => v end) row)
            (zip columns values) [].

(** [executeSQL]. The text goes to the engine of the tool shard as it is:
    [Query] when it starts with SELECT, [Exec] otherwise. With no row
    [results] is still the nil slice of its declaration, which
    [json.Marshal] writes as [null], the one use the callers make of it:
    it is [VNil] here. *)
Definition executeSQL (sql : bytes) (w : World) : (bytes + GoValue) * World :=
  if hasPrefix (toUpper unicodeToUpper (trimSpace sql)) (B "SELECT")
  then match sqlQuery sql w with
       | (inl err, w') => (inl err, w')
       | (inr (columns, rows), w') =>
           let results := scanRow columns <$> rows in
           match results, columns with
           | [row], [col] =>
               let val := mapGet col row in
               match val with
               | VString (c :: str) =>
                   if bool_decide (c = "{"%char) || bool_decide (c = "["%char)
                   then match jsonUnmarshal (c :: str) with
                        | Some parsed => (inr parsed, w')
                        | None => (inr val, w')
                        end
                   else (inr val, w')
               | _ => (inr val, w')
               end
           | [], _ => (inr VNil, w')
           | _, _ => (inr (VSlice (VMap <$> results)), w')
           end
       end
  else match sqlExec sql w with
       | (inl err, w') => (inl err, w')
       | (inr (rowsAffected, lastID), w') =>
           (inr (VMap [(B "rows_affected", VInt64 rowsAffected);
                       (B "last_insert_id", VInt64 lastID)]), w')
       end.

(** One turn of the loop of [executeTool]: [inl] is the error that ends
    the tool. *)
Definition executeStep (args : Args) (step : ToolStep) (w : World)
    : (bytes + GoValue) * World :=
  let sql := Template.substituteParams (SQLTemplate step) args in
  if bool_decide (StepType step = B "validate")
  then match sqlExec sql w with
       | (inl err, w') =>
           (inl (B "validation failed at step " ++ StepName step ++ B ": " ++ err), w')
       | (inr _, w') => (inr (VMap [(B "validated", VBool true)]), w')
       end
  else if bool_decide (StepType step = B "sql")
  then match executeSQL sql w with
       | (inl err, w') =>
           (inl (B "SQL execution failed at step " ++ StepName step ++ B ": " ++ err), w')
       | (inr result, w') => (inr result, w')
       end
  else if bool_decide (StepType step = B "attach")
  then (inr (VMap [(B "attached", VBool true)]), w)
  else if bool_decide (StepType step = B "transform")
  then (inr (VMap [(B "transformed", VBool true)]), w)
  else (inl (B "unknown step type: " ++ StepType step), w).

Fixpoint executeSteps (args : Args) (steps : list ToolStep) (lastResult : GoValue)
    (w : World) : (bytes + GoValue) * World :=
  match steps with
  | [] => (inr lastResult, w)
  | step :: rest =>
      match executeStep args step w with
      | (inl err, w') => (inl err, w')
      | (inr result, w') => executeSteps args rest result w'
      end
  end.

(** [executeTool]. *)
Definition executeTool (tool : Tool) (args : Args) (w : World)
    : (bytes + GoValue) * World :=
  match Steps tool with
  | [] => (inr (VMap [(B "message", VString (B "Tool executed (no steps defined)"));
                      (B "tool", VString (Name tool));
                      (B "args", VMap args)]), w)
  | steps => executeSteps args steps VNil w
  end.

(** [json.Marshal(v)] with the error dropped, as in [x, _ := json.Marshal(v)]. *)
Definition marshalOrEmpty (v : GoValue) : bytes := default [] (jsonMarshal v).

(** The MCP envelope around a serialized result. *)
Definition contentEnvelope (resultJSON : bytes) : GoValue :=
  VMap [(B "content",
         VSlice [VMap [(B "type", VString (B "text"));
                       (B "text", VString resultJSON)]])].

(** [handleToolsCall]. [now] is what the clock reads during the call. *)
Definition handleToolsCall (now : Z) (params requestHash : bytes) (s : State)
    : (RPCError + GoValue) * State :=
  match unmarshalCallParams params with
  | inl err => (inl (mkRPCError (-32602) (B "Invalid params") (VString err)), s)
  | inr (nm, arguments) =>
      if bool_decide (nm = B "browser")
      then match browserExecute nm arguments (world s) with
           | (inl err, w') =>
               (inl (mkRPCError (-32000) (B "Browser tool failed") (VString err)),
                set_world w' s)
           | (inr result, w') =>
               (inr (contentEnvelope (marshalOrEmpty result)), set_world w' s)
           end
      else if bool_decide (nm = B "brainloop")
      then match brainloopExecute nm arguments (processed_log s) (world s) with
           | (inl err, w') =>
               (inl (mkRPCError (-32000) (B "Brainloop tool failed") (VString err)),
                set_world w' s)
           | (inr result, w') =>
               (inr (contentEnvelope (marshalOrEmpty result)), set_world w' s)
           end
      else match Tools.Get nm (tools s) with
           | None => (inl (mkRPCError (-32602) (B "Tool not found") (VString nm)), s)
           | Some tool =>
               let '(breaker, m) := Circuit.Get now nm (circuits s) in
               match Circuit.CanExecute now breaker with
               | (false, err, breaker') =>
                   let s1 := set_circuits (<[nm := breaker']> m) s in
                   let s2 := set_security_events
                               (security_events s1
                                ++ [mkSecurityEvent (B "circuit_open") (B "warning")
                                      (default [] err)]) s1 in
                   (inl (mkRPCError (-32000) (B "Circuit breaker open")
                           (VString (default [] err))), s2)
               | (true, _, breaker') =>
                   match executeTool tool arguments (world s) with
                   | (inl err, w') =>
                       let s1 := set_circuits
                                   (<[nm := Circuit.RecordFailure now breaker']> m)
                                   (set_world w' s) in
                       (inl (mkRPCError (-32000) (B "Tool execution failed")
                               (VString err)), s1)
                   | (inr result, w') =>
                       let s1 := set_circuits
                                   (<[nm := Circuit.RecordSuccess now breaker']> m)
                                   (set_world w' s) in
                       let resultJSON := marshalOrEmpty result in
                       let resultHashStr := sha256hex resultJSON in
                       let s2 :=
                         if existsb (fun r => bool_decide (tr_hash r = resultHashStr))
                              (tool_results s1)
                         then s1
                         else set_tool_results
                                (tool_results s1
                                 ++ [mkToolResult resultHashStr requestHash nm resultJSON])
                                s1 in
                       (inr (contentEnvelope resultJSON), s2)
                   end
               end
           end
  end.

(** *** Dispatch *)

(** The map [skipIdempotence] of [handleRequest]. *)
Definition skipIdempotence (method : bytes) : bool :=
  bool_decide (method = B "initialize")
  || bool_decide (method = B "tools/list")
  || bool_decide (method = B "resources/list")
  || bool_decide (method = B "prompts/list")
  || bool_decide (method = B "ping").

(** [hashRequest]: SHA-256, in hex, of the JSON of the method and the raw
    parameters. *)
Definition hashRequest (method params : bytes) : bytes :=
  sha256hex (marshalOrEmpty (VMap [(B "method", VString method);
                                   (B "params", VString params)])).

(** [handleInitialize]. *)
Definition handleInitialize : GoValue :=
  VMap [(B "protocolVersion", VString (B "2024-11-05"));
        (B "serverInfo", VMap [(B "name", VString (B "holow-mcp"));
                               (B "version", VString (B "1.0.0"))]);
        (B "capabilities",
         VMap [(B "tools", VMap [(B "listChanged", VBool true)]);
               (B "resources", VMap [(B "subscribe", VBool false);
                                     (B "listChanged", VBool false)]);
               (B "prompts", VMap [(B "listChanged", VBool false)])])].

(** [handleToolsList]. *)
Definition handleToolsList (s : State) : GoValue :=
  VMap [(B "tools",
         VSlice (builtinToolDefinitions
                 ++ (Tools.ToMCPSchema <$> Tools.GetAllToolDefinitions (tools s))))].

(** [handleResourcesList] and [handlePromptsList]. *)
Definition handleResourcesList : GoValue := VMap [(B "resources", VSlice [])].
Definition handlePromptsList : GoValue := VMap [(B "prompts", VSlice [])].

(** The [switch req.Method] of [handleRequest]. *)
Definition route (now : Z) (req : JSONRPCRequest) (hash : bytes) (s : State)
    : (RPCError + GoValue) * State :=
  if bool_decide (reqMethod req = B "initialize") then (inr handleInitialize, s)
  else if bool_decide (reqMethod req = B "tools/list") then (inr (handleToolsList s), s)
  else if bool_decide (reqMethod req = B "tools/call")
  then handleToolsCall now (reqParams req) hash s
  else if bool_decide (reqMethod req = B "resources/list")
  then (inr handleResourcesList, s)
  else if bool_decide (reqMethod req = B "prompts/list")
  then (inr handlePromptsList, s)
  else (inl (mkRPCError (-32601) (B "Method not found") VNil), s).

(** The reply to a request the ledger already holds. *)
Definition cachedResult : GoValue :=
  VMap [(B "cached", VBool true);
        (B "message", VString (B "Request already processed"))].

(** Where a handler goroutine stands: the line is read; the handler is
    about to run; the handler has returned and the ledger write and the
    response are due; the goroutine has ended. Only the first and the
    third touch [processed_log]. *)
Inductive Phase : Type :=
| Received (data : bytes)
| Routing (req : JSONRPCRequest) (hash : bytes)
| Committing (req : JSONRPCRequest) (hash : bytes) (outcome : RPCError + GoValue)
| Done.

(** From the top of [handleRequest] to the end of the idempotency check. *)
Definition beginRequest (data : bytes) (s : State) : Phase * State :=
  match unmarshalRequest data with
  | inl err => (Done, sendError VNil (-32700) (B "Parse error") (VString err) s)
  | inr req =>
      let hash := hashRequest (reqMethod req) (reqParams req) in
      if negb (skipIdempotence (reqMethod req))
         && Database.CheckProcessed hash (processed_log s)
      then (Done, sendResult (reqID req) cachedResult s)
      else (Routing req hash, s)
  end.

(** From the outcome of the handler to the end of [handleRequest]:
    counter, ledger row and response. The error of [MarkProcessed] is
    dropped, as in the source. *)
Definition finishRequest (latencyMs : Z) (req : JSONRPCRequest) (hash : bytes)
    (outcome : RPCError + GoValue) (s : State) : State :=
  match outcome with
  | inl rpcErr =>
      let s1 := set_requestsFailed (requestsFailed s + 1) s in
      let s2 := sendError (reqID req) (Code rpcErr) (Message rpcErr) (Data rpcErr) s1 in
      set_processed_log
        (Database.MarkProcessed hash (formatValue (reqID req)) (reqMethod req)
           (B "failed") [] latencyMs (processed_log s2)).2 s2
  | inr result =>
      let s1 := set_requestsProcessed (requestsProcessed s + 1) s in
      let resultHashStr := sha256hex (marshalOrEmpty result) in
      let s2 := set_processed_log
                  (Database.MarkProcessed hash (formatValue (reqID req)) (reqMethod req)
                     (B "success") resultHashStr latencyMs (processed_log s1)).2 s1 in
      sendResult (reqID req) result s2
  end.

(** One atomic move of a handler goroutine. *)
Definition stepHandler (now latencyMs : Z) (ph : Phase) (s : State) : Phase * State :=
  match ph with
  | Received data => beginRequest data s
  | Routing req hash =>
      (Committing req hash (route now req hash s).1, (route now req hash s).2)
  | Committing req hash outcome => (Done, finishRequest latencyMs req hash outcome s)
  | Done => (Done, s)
  end.

(** [handleRequest], run without interruption. [now] is the reading of
    the clock and [latencyMs] the time the handler took. *)
Definition handleRequest (now latencyMs : Z) (data : bytes) (s : State) : State :=
  match beginRequest data s with
  | (Routing req hash, s1) =>
      finishRequest latencyMs req hash (route now req hash s1).1 (route now req hash s1).2
  | (_, s1) => s1
  end.

(** The goroutines of [readLoop] interleaved: a new line starts a
    handler, and any unfinished handler makes its next move. *)
Inductive step : list Phase * State -> list Phase * State -> Prop :=
| step_spawn (data : bytes) (pool : list Phase) (s : State) :
    step (pool, s) (pool ++ [Received data], s)
| step_move (i : nat) (now latencyMs : Z) (ph : Phase) (pool : list Phase) (s : State) :
    pool !! i = Some ph ->
    step (pool, s)
         (<[i := (stepHandler now latencyMs ph s).1]> pool,
          (stepHandler now latencyMs ph s).2).

(** The two moves as functions, to build runs. *)
Definition spawn (data : bytes) (x : list Phase * State) : list Phase * State :=
  (x.1 ++ [Received data], x.2).

Definition moveAt (now latencyMs : Z) (i : nat) (x : list Phase * State)
    : list Phase * State :=
  match x.1 !! i with
  | Some ph =>
      (<[i := (stepHandler now latencyMs ph x.2).1]> x.1,
       (stepHandler now latencyMs ph x.2).2)
  | None => x
  end.

(** *** The retry queue *)

(** [AddRetryJob]: the INSERT names four columns and two literals; the
    table defaults give attempt 1 and status pending. [nowSec] is
    [strftime('%s','now')]. *)
Definition AddRetryJob (nowSec : Z) (requestID toolName : bytes) (params : Args)
    (maxAttempts : Z) (s : State) : State :=
  let id := (retry_seq s + 1)%Z in
  set_retry_seq id
    (set_retry_queue
       (retry_queue s
        ++ [mkRetry id requestID toolName (marshalOrEmpty (VMap params))
              1 maxAttempts (nowSec + 2) 2 (B "pending") None]) s).

(** [UPDATE retry_queue SET ... WHERE id = ?]. *)
Definition updateRetry (id : Z) (f : RetryRow -> RetryRow) (q : list RetryRow)
    : list RetryRow :=
  (fun r => if bool_decide (rq_id r = id) then f r else r) <$> q.

Definition withStatus (st : bytes) (r : RetryRow) : RetryRow :=
  mkRetry (rq_id r) (rq_request_id r) (rq_tool_name r) (rq_params_json r)
    (rq_attempt_number r) (rq_max_attempts r) (rq_next_retry_at r)
    (rq_backoff_seconds r) st (rq_last_error r).

Definition withLastError (e : bytes) (r : RetryRow) : RetryRow :=
  mkRetry (rq_id r) (rq_request_id r) (rq_tool_name r) (rq_params_json r)
    (rq_attempt_number r) (rq_max_attempts r) (rq_next_retry_at r)
    (rq_backoff_seconds r) (rq_status r) (Some e).

(** The re-arming UPDATE of the failure branch. *)
Definition rearm (attempt backoff next : Z) (e : bytes) (r : RetryRow) : RetryRow :=
  mkRetry (rq_id r) (rq_request_id r) (rq_tool_name r) (rq_params_json r)
    attempt (rq_max_attempts r) next backoff (B "pending") (Some e).

(** The rows the SELECT of [ProcessRetryQueue] returns: pending, due, ten
    at most. *)
Definition dueRows (nowSec : Z) (q : list RetryRow) : list RetryRow :=
  take 10 (filter (fun r => rq_status r = B "pending" /\ (rq_next_retry_at r <= nowSec)%Z) q).

(** The body of the loop of [ProcessRetryQueue] for one scanned row.
    [backoff * 2] is a product of [int], which wraps; [attempt+1] is
    computed where [attempt < maxAttempts], so it stays an [int]; the sum
    [strftime('%s','now') + ?] is computed by SQLite, which goes over to
    floating point where Go would wrap, and the sweep does no more with it
    than compare it with the clock. *)
Definition processRetryRow (nowSec : Z) (r : RetryRow) (s : State) : State :=
  let s1 := set_retry_queue
              (updateRetry (rq_id r) (withStatus (B "processing")) (retry_queue s)) s in
  match Tools.Get (rq_tool_name r) (tools s1) with
  | None =>
      set_retry_queue
        (updateRetry (rq_id r)
           (fun x => withLastError (B "Tool not found") (withStatus (B "exhausted") x))
           (retry_queue s1)) s1
  | Some tool =>
      match executeTool tool (unmarshalArgs (rq_params_json r)) (world s1) with
      | (inl err, w') =>
          let s2 := set_world w' s1 in
          if (rq_max_attempts r <=? rq_attempt_number r)%Z
          then
            let s3 := set_dead_letter_queue
                        (dead_letter_queue s2
                         ++ [mkDeadLetter (rq_request_id r) (rq_tool_name r)
                               (rq_params_json r) err (rq_attempt_number r) 0 nowSec])
                        s2 in
            set_retry_queue
              (updateRetry (rq_id r) (withStatus (B "exhausted")) (retry_queue s3)) s3
          else
            let nextBackoff := wrap64 (rq_backoff_seconds r * 2) in
            set_retry_queue
              (updateRetry (rq_id r)
                 (rearm (rq_attempt_number r + 1) nextBackoff (nowSec + nextBackoff) err)
                 (retry_queue s2)) s2
      | (inr _, w') =>
          let s2 := set_world w' s1 in
          set_retry_queue
            (filter (fun x => rq_id x <> rq_id r) (retry_queue s2)) s2
      end
  end.

(** [ProcessRetryQueue]. *)
Definition ProcessRetryQueue (nowSec : Z) (s : State) : State :=
  fold_left (fun st r => processRetryRow nowSec r st)
            (dueRows nowSec (retry_queue s)) s.

(** *** What [Start] sets running *)

(** The goroutines [Start] launches next to [readLoop]: the poll of the
    catalogue ([tools.Start]), the sampler ([metrics.Start]), the
    heartbeat, the poison-pill poll, the CDP pump and the signal watcher. *)
Inductive Loop : Type :=
| ToolsPollLoop
| MetricsLoop
| HeartbeatLoop
| PoisonPillLoop
| CdpProcessLoop
| SignalWatcher.

Definition startedLoops : list Loop :=
  [ToolsPollLoop; MetricsLoop; HeartbeatLoop; PoisonPillLoop; CdpProcessLoop;
   SignalWatcher].

(** One tick of a loop, on the state kept here: a reload swaps the
    catalogue, the pump acts on the world, and the others write rows
    (heartbeat, samples) that [State] does not hold. *)
Definition tick (l : Loop) (s : State) : State :=
  match l with
  | ToolsPollLoop =>
      match reloadTools (world s) with
      | (Some t, w') => set_tools t (set_world w' s)
      | (None, w') => set_world w' s
      end
  | CdpProcessLoop => set_world (cdpProcess (world s)) s
  | _ => s
  end.

(** What reaches a running server: a line on standard input, or the tick
    of one of its loops. *)
Inductive Input : Type :=
| Line (now latencyMs : Z) (data : bytes)
| Tick (l : Loop).

Definition serveOne (s : State) (i : Input) : State :=
  match i with
  | Line now latencyMs data => handleRequest now latencyMs data s
  | Tick l => tick l s
  end.

Definition serve (inputs : list Input) (s : State) : State :=
  fold_left serveOne inputs s.


(** *** What a handler leaves behind *)

(** What [send] adds to standard output for a response: one line, or
    nothing when [json.Marshal] fails. *)
Definition written (resp : JSONRPCResponse) : list GoValue :=
  match jsonMarshal (VMap (responseMembers resp)) with
  | Some _ => [VMap (responseMembers resp)]
  | None => []
  end.

(** Whether [handleRequest] gets as far as its [switch] on the method:
    the line parses, and the method is exempt from the idempotency check or
    the ledger does not hold the fingerprint. *)
Definition routed (data : bytes) (s : State) : bool :=
  match unmarshalRequest data with
  | inl _ => false
  | inr req =>
      skipIdempotence (reqMethod req)
      || negb (Database.CheckProcessed (hashRequest (reqMethod req) (reqParams req))
                 (processed_log s))
  end.

Definition isLine (i : Input) : bool :=
  match i with Line _ _ _ => true | Tick _ => false end.



(** Sweeps of the retry queue at the given readings of the clock, one
    after the other. *)
Definition sweeps (times : list Z) (s : State) : State :=
  fold_left (fun st t => ProcessRetryQueue t st) times s.

(** The readings come late enough for a row that fails at every one of
    them: each is at or after the instant the row is due, which the failure
    before it has moved to that reading plus the doubled backoff. *)
Fixpoint dueAtEach (next backoff : Z) (times : list Z) : Prop :=
  match times with
  | [] => True
  | t :: rest =>
      (next <= t)%Z
      /\ dueAtEach (t + wrap64 (backoff * 2)) (wrap64 (backoff * 2)) rest
  end.

End WithRuntime.

End Server.

(** ** Escaping for a script ([internal/chromium/browser.go], lines 821-887) *)

Module Chromium.

(** [fmt.Sprintf] with the format [%02x] after a backslash and an [x], for
    a rune from 0 to 255. *)
Definition hexEscape (r : Z) : bytes :=
  backslash :: B "x" ++ [hexDigit ((r / 16) mod 16); hexDigit (r mod 16)].

(** One turn of the [switch] of [escapeJSString]. *)
Definition escapeJSRune (r : Z) : bytes :=
  if (r =? 92)%Z then [backslash; backslash]
  else if (r =? 39)%Z then [backslash; "'"%char]
  else if (r =? 34)%Z then [backslash; dquote]
  else if (r =? 10)%Z then backslash :: B "n"
  else if (r =? 13)%Z then backslash :: B "r"
  else if (r =? 9)%Z then backslash :: B "t"
  else if (r =? 60)%Z then backslash :: B "x3c"
  else if (r =? 62)%Z then backslash :: B "x3e"
  else if (r =? 8232)%Z then backslash :: B "u2028"
  else if (r =? 8233)%Z then backslash :: B "u2029"
  else if (r <? 32)%Z || (r =? 127)%Z then hexEscape r
  else encodeRune r.

(** [escapeJSString]. *)
Definition escapeJSString (s : bytes) : bytes :=
  concat (escapeJSRune <$> runes s).

(** The script [Click] hands to [Evaluate] once [validateCSSSelector] has
    let the selector through: the format
    [document.querySelector('%s').click()] filled with the escaped
    selector. *)
Definition clickScript (selector : bytes) : bytes :=
  B "document.querySelector('" ++ escapeJSString selector ++ B "').click()".

End Chromium.

(** ** The latency buffer (package [observability]) *)

Module Observability.

(** The samples are the [float64] values [handleRequest] records:
    [float64(time.Since(start).Milliseconds())], whole numbers of
    milliseconds. They are integers of [Z] here, and the [>] of the sort is
    the order of [Z]. The buffer [c.latencies] is a list, oldest sample
    first. *)

(** [const maxLatencies = 10000]. *)
Definition maxLatencies : nat := 10000.

(** [RecordLatency]: at the limit the older half of the buffer is dropped
    before the sample is appended. *)
Definition RecordLatency (latencyMs : Z) (latencies : list Z) : list Z :=
  (if (maxLatencies <=? length latencies)%nat
   then take (maxLatencies / 2) (drop (maxLatencies / 2) latencies)
   else latencies)
  ++ [latencyMs].

(** The inner loop of the sort of [calculatePercentiles]: [m] comparisons
    of neighbours from the front, the larger one carried along. *)
Fixpoint bubble (m : nat) (sorted : list Z) : list Z :=
  match m, sorted with
  | S m', x :: y :: t =>
      if (y <? x)%Z then y :: bubble m' (x :: t) else x :: bubble m' (y :: t)
  | _, _ => sorted
  end.

(** The outer loop, from pass [i] on, [count] passes. *)
Fixpoint bubblePasses (i count : nat) (sorted : list Z) : list Z :=
  match count with
  | O => sorted
  | S count' => bubblePasses (S i) count' (bubble (length sorted - i - 1) sorted)
  end.

Definition bubbleSort (latencies : list Z) : list Z :=
  bubblePasses 0 (length latencies - 1) latencies.

(** [calculatePercentiles]. *)
Definition calculatePercentiles (latencies : list Z) : Z * Z * Z :=
  match latencies with
  | [] => (0, 0, 0)%Z
  | _ :: _ =>
      let sorted := bubbleSort latencies in
      let n := length sorted in
      (nth (n * 50 / 100) sorted 0%Z,
       nth (n * 95 / 100) sorted 0%Z,
       if (100 <? n)%nat then nth (n * 99 / 100) sorted 0%Z else nth (n - 1) sorted 0%Z)
  end.

End Observability.

(** ** The health report of the databases ([internal/database/validate.go]) *)

Module Validate.

(** [fmt.Sprintf] with the verb [%X]. *)
Definition formatHexUpper (n : Z) : bytes :=
  upperByte <$> B (HexadecimalString.NilZero.string_of_int (Z.to_hex_int n)).

(** [const HolowAppID = 0x484F4C57]. *)
Definition HolowAppID : Z := 1213156439.

(** [type DBHealth struct]. *)
Record DBHealth : Type := mkDBHealth {
  Name : bytes;
  Path : bytes;
  Exists : bool;
  IsHolow : bool;
  AppID : Z;
  IntegrityOK : bool;
  IntegrityMsg : bytes;
  HasWAL : bool;
  HasSHM : bool;
  TableCount : Z;
  SchemaVersion : Z
}.

(** [type ValidationResult struct]. *)
Record ValidationResult : Type := mkValidationResult {
  BasePath : bytes;
  Databases : list DBHealth;
  AllExist : bool;
  AllHealthy : bool;
  HasOrphanWAL : bool;
  Issues : list bytes
}.

(** What an opened database answers to the four queries of
    [checkDatabase]; [None] and [inl] are the errors. *)
Record Answers : Type := mkAnswers {
  applicationId : option Z;
  userVersion : option Z;
  tableCount : option Z;
  integrityCheck : bytes + bytes
}.

(** The machine under [checkDatabase]: [filepath.Join], [os.Stat] (whether
    its error is a not-exist error, whether it has none) and [sql.Open]. *)
Record Host : Type := mkHost {
  filepathJoin : bytes -> bytes -> bytes;
  isNotExist : bytes -> bool;
  statOK : bytes -> bool;
  sqlOpen : bytes -> bytes + Answers
}.

Definition dbNames : list bytes :=
  [B "input"; B "lifecycle-tools"; B "lifecycle-execution"; B "lifecycle-core";
   B "output"; B "metadata"].

(** [checkDatabase]. *)
Definition checkDatabase (host : Host) (basePath name : bytes) : DBHealth :=
  let path := filepathJoin host basePath (B "holow-mcp." ++ name ++ B ".db") in
  if isNotExist host path
  then mkDBHealth name path false false 0 false [] false false 0 0
  else
    let wal := statOK host (path ++ B "-wal") in
    let shm := statOK host (path ++ B "-shm") in
    match sqlOpen host path with
    | inl err =>
        mkDBHealth name path true false 0 false (B "impossible d'ouvrir: " ++ err)
          wal shm 0 0
    | inr db =>
        let appID := default 0%Z (applicationId db) in
        let isHolow :=
          match applicationId db with
          | Some a => (a =? HolowAppID)%Z || (a =? 0)%Z
          | None => false
          end in
        let '(ok, msg) :=
          match integrityCheck db with
          | inl err => (false, B "check failed: " ++ err)
          | inr result =>
              if bool_decide (result = B "ok") then (true, []) else (false, result)
          end in
        mkDBHealth name path true isHolow appID ok msg wal shm
          (default 0%Z (tableCount db)) (default 0%Z (userVersion db))
    end.

(** The issue the second loop of [ValidateDatabases] reports for a
    database, if any. *)
Definition issueOf (db : DBHealth) : list bytes :=
  if negb (Exists db) then [Name db ++ B ": manquante"]
  else if negb (IntegrityOK db)
  then [Name db ++ B ": corrompue (" ++ IntegrityMsg db ++ B ")"]
  else if negb (IsHolow db) && negb (AppID db =? 0)%Z
  then [Name db ++ B ": application_id invalide (0x" ++ formatHexUpper (AppID db) ++ B ")"]
  else [].

(** [ValidateDatabases]. *)
Definition ValidateDatabases (host : Host) (basePath : bytes) : ValidationResult :=
  let result :=
    fold_left
      (fun result name =>
         let health := checkDatabase host basePath name in
         mkValidationResult (BasePath result) (Databases result ++ [health])
           (if negb (Exists health) then false else AllExist result)
           (if Exists health && (negb (IntegrityOK health) || negb (IsHolow health))
            then false else AllHealthy result)
           (if HasWAL health || HasSHM health then true else HasOrphanWAL result)
           (Issues result))
      dbNames (mkValidationResult basePath [] true true false []) in
  mkValidationResult (BasePath result) (Databases result) (AllExist result)
    (AllHealthy result) (HasOrphanWAL result)
    (fold_left (fun issues db => issues ++ issueOf db) (Databases result) (Issues result)).

End Validate.

(** ** A small concrete runtime

    An engine that logs every statement it is given, accepts all of them but
    a call of [raise_error()], a JSON printer, and a decoder that knows the
    request lines used below. It serves to run the definitions on concrete
    requests. *)

Module Reference.

(** A JSON string literal with no character to escape. *)
Definition q (s : string) : bytes := [zbyte 34] ++ B s ++ [zbyte 34].

Fixpoint printJson (v : GoValue) : bytes :=
  match v with
  | VNil => B "null"
  | VBool b => if b then B "true" else B "false"
  | VString s => [zbyte 34] ++ Template.escapeJSONValue s ++ [zbyte 34]
  | VFloat64 t => t
  | VInt n => formatInt n
  | VInt64 n => formatInt n
  | VBytes b => b
  | VSlice l =>
      B "["
      ++ (fix items (l : list GoValue) : bytes :=
            match l with
            | [] => []
            | x :: r =>
                printJson x ++ match r with [] => [] | _ :: _ => B "," ++ items r end
            end) l
      ++ B "]"
  | VMap m =>
      B "{"
      ++ (fix members (m : list (bytes * GoValue)) : bytes :=
            match m with
            | [] => []
            | kx :: r =>
                [zbyte 34] ++ kx.1 ++ [zbyte 34] ++ B ":" ++ printJson kx.2
                ++ match r with [] => [] | _ :: _ => B "," ++ members r end
            end) m
      ++ B "}"
  end.

(** The text of the parameters of a [tools/call] without arguments. *)
Definition callParams (tool : string) : bytes :=
  B "{" ++ q "name" ++ B ":" ++ q tool ++ B "," ++ q "arguments" ++ B ":{}}".

(** A request line with a numeric id. *)
Definition requestLine (id method : string) (params : option bytes) : bytes :=
  B "{" ++ q "jsonrpc" ++ B ":" ++ q "2.0" ++ B "," ++ q "id" ++ B ":" ++ B id
  ++ B "," ++ q "method" ++ B ":" ++ q method
  ++ match params with
     | None => []
     | Some p => B "," ++ q "params" ++ B ":" ++ p
     end
  ++ B "}".

Definition knownTools : list string := ["ping_tool"; "always_fails"; "attach_x"].
Definition knownMethods : list string :=
  ["initialize"; "tools/list"; "resources/list"; "prompts/list"; "ping"; "no/such"].
Definition knownIds : list string := ["1"; "2"; "3"].

(** The requests the decoder knows, each with its line. *)
Definition knownRequests : list (bytes * JSONRPCRequest) :=
  id ← knownIds;
  (((fun m => (requestLine id m None, mkRequest (B "2.0") (VFloat64 (B id)) (B m) []))
      <$> knownMethods)
   ++ ((fun t => (requestLine id "tools/call" (Some (callParams t)),
                  mkRequest (B "2.0") (VFloat64 (B id)) (B "tools/call") (callParams t)))
         <$> knownTools)).

Definition decodeRequest (data : bytes) : bytes + JSONRPCRequest :=
  match filter (fun lr => lr.1 = data) knownRequests with
  | lr :: _ => inr lr.2
  | [] => inl (B "unexpected end of JSON input")
  end.

Definition decodeCallParams (params : bytes) : bytes + (bytes * Args) :=
  match filter (fun t => callParams t = params) knownTools with
  | t :: _ => inr (B t, [])
  | [] => inl (B "unexpected end of JSON input")
  end.

#[export] Instance runtime : Runtime := {|
  unicodeToLower r := r;
  unicodeToUpper r := r;
  unicodeIsSpace _ := false;
  jsonMarshal v := Some (printJson v);
  jsonUnmarshal _ := None;
  unmarshalRequest := decodeRequest;
  unmarshalCallParams := decodeCallParams;
  unmarshalArgs _ := [];
  formatValue := printJson;
  sha256hex text := text;
  World := list bytes;
  sqlQuery sql w :=
    (if contains sql (B "raise_error") then inl (B "no such function: raise_error")
     else inr ([B "v"], [[VInt64 1]]),
     w ++ [sql]);
  sqlExec sql w := (inr (0%Z, 0%Z), w ++ [sql]);
  browserExecute _ _ w := (inl (B "browser not connected"), w);
  brainloopExecute _ _ _ w := (inr (VMap []), w);
  builtinToolDefinitions := [];
  reloadTools w := (None, w);
  cdpProcess w := w
|}.

Definition sqlTool (nm sql : string) : Tool :=
  mkTool (B nm) [] (B "{}") 30 (B "exponential") 3 [mkStep 1 (B "run") (B "sql") (B sql)].

Definition catalogue : gmap bytes Tool :=
  list_to_map [(B "ping_tool", sqlTool "ping_tool" "SELECT 1 AS v");
               (B "always_fails", sqlTool "always_fails" "SELECT raise_error()");
               (B "attach_x", sqlTool "attach_x" "ATTACH DATABASE '/tmp/x.db' AS x")].

(** A server that has just started on empty tables. *)
Definition fresh : Server.State :=
  Server.mkState [] [] 0 [] [] [] [] catalogue ∅ [] [] 0 0.

(** Two handlers of one request racing: both lines are read and both pass
    the ledger check before either handler commits. *)
Definition raceLine : bytes := requestLine "1" "tools/call" (Some (callParams "ping_tool")).

Definition race : list Server.Phase * Server.State :=
  Server.moveAt 0 1 1
    (Server.moveAt 0 1 0
       (Server.moveAt 0 1 1
          (Server.moveAt 0 1 0
             (Server.moveAt 0 1 1
                (Server.moveAt 0 1 0
                   (Server.spawn raceLine (Server.spawn raceLine ([], fresh)))))))).

(** A machine on which every file is there and sound, but no database
    answers [PRAGMA application_id]. *)
Definition silentHost : Validate.Host :=
  Validate.mkHost (fun dir file => dir ++ B "/" ++ file) (fun _ => false) (fun _ => false)
    (fun _ => inr (Validate.mkAnswers None (Some 1%Z) (Some 12%Z) (inr (B "ok")))).

(** A tool of three SQL steps whose second step fails. *)
Definition threeSteps : Tool :=
  mkTool (B "three_steps") [] (B "{}") 30 (B "none") 0
    [mkStep 1 (B "first") (B "sql") (B "SELECT 1 AS v");
     mkStep 2 (B "second") (B "sql") (B "SELECT raise_error()");
     mkStep 3 (B "third") (B "sql") (B "SELECT 2 AS v")].

(** A tool whose only step is of type attach. *)
Definition attachOnly : Tool :=
  mkTool (B "attach_only") [] (B "{}") 30 (B "none") 0
    [mkStep 1 (B "attach") (B "attach") (B "ATTACH DATABASE '/tmp/x.db' AS x")].
End Reference.

(** ** The words of the specification, as predicates *)

Module Spec.

(** A text holds a placeholder when a pair of opening braces is followed,
    somewhere after it, by a pair of closing braces. *)
Definition hasPlaceholder (s : bytes) : Prop :=
  exists a b c, s = a ++ B "{{" ++ b ++ B "}}" ++ c.

(** A text that holds no brace. *)
Definition braceFree (s : bytes) : bool :=
  forallb (fun c => negb (bool_decide (c = "{"%char)) && negb (bool_decide (c = "}"%char)))
          s.

(** The regular expression for argument keys: a letter or underscore, then
    at most 63 letters, digits or underscores. *)
Definition identStart (c : ascii) : bool := Template.isLetter (byteZ c).
Definition identChar (c : ascii) : bool := Template.isLetterOrDigit (byteZ c).
Definition matchesIdentifier (key : bytes) : bool :=
  match key with
  | [] => false
  | c :: rest => identStart c && (length rest <=? 63)%nat && forallb identChar rest
  end.

(** SQL escaping of one ASCII byte: the quote is doubled; NUL, DEL and the
    control characters other than tab, line feed and carriage return are
    dropped. *)
Definition sqlEscapeByte (c : ascii) : bytes :=
  if bool_decide (c = "'"%char) then B "''"
  else if Template.keepRune (byteZ c) then [c] else [].

(** JSON string escaping of one ASCII byte: backslash and double quote get
    a backslash, line feed, carriage return and tab their letter, NUL is
    dropped, the other control characters become [\u00XX]. *)
Definition jsonEscapeByte (c : ascii) : bytes :=
  if bool_decide (c = backslash) then [backslash; backslash]
  else if bool_decide (c = dquote) then [backslash; dquote]
  else if bool_decide (c = zbyte 10) then B "\n"
  else if bool_decide (c = zbyte 13) then B "\r"
  else if bool_decide (c = zbyte 9) then B "\t"
  else if bool_decide (c = zbyte 0) then []
  else if (byteZ c <? 32)%Z then unicodeEscape (byteZ c)
  else [c].

(** The rows of the ledger that carry a fingerprint. *)
Definition rowsFor (h : bytes) (t : list ProcessedRow) : list ProcessedRow :=
  filter (fun r => pl_hash r = h) t.

(** What a handler leaves alone: the ledger, the retry queue with its
    sequence, the dead letters and the whitelist. *)
Definition sameTables `{rt : Runtime} (s s' : Server.State) : Prop :=
  Server.processed_log s' = Server.processed_log s
  /\ Server.retry_queue s' = Server.retry_queue s
  /\ Server.retry_seq s' = Server.retry_seq s
  /\ Server.dead_letter_queue s' = Server.dead_letter_queue s
  /\ Server.allowed_attach_paths s' = Server.allowed_attach_paths s.

(** The ledger row [finishRequest] writes for an outcome. *)
Definition statusOf (outcome : RPCError + GoValue) : bytes :=
  match outcome with inl _ => B "failed" | inr _ => B "success" end.

Definition resultHashOf `{rt : Runtime} (outcome : RPCError + GoValue) : bytes :=
  match outcome with
  | inl _ => []
  | inr result => sha256hex (Server.marshalOrEmpty result)
  end.

End Spec.

(** ** How the escaped text is read

    The readers the three escaping functions write for: a quoted SQL
    literal, a JSON string and a quoted JavaScript literal. *)

Module Quoting.

(** The body of a single-quoted SQL literal: every quote is one of an
    adjacent pair. *)
Fixpoint sqlLiteralBody (s : bytes) : bool :=
  match s with
  | [] => true
  | c :: t =>
      if bool_decide (c = "'"%char)
      then match t with
           | d :: t' => bool_decide (d = "'"%char) && sqlLiteralBody t'
           | [] => false
           end
      else sqlLiteralBody t
  end.

Definition isHexDigit (c : ascii) : bool :=
  ((48 <=? byteZ c)%Z && (byteZ c <=? 57)%Z)
  || ((97 <=? byteZ c)%Z && (byteZ c <=? 102)%Z)
  || ((65 <=? byteZ c)%Z && (byteZ c <=? 70)%Z).

(** The characters between the quotes of a JSON string (RFC 8259, section
    7), read byte by byte: no raw double quote, no raw control character,
    and after a backslash one of the escapes of the grammar. *)
Fixpoint jsonStringBody (s : bytes) : bool :=
  match s with
  | [] => true
  | c :: t =>
      if bool_decide (c = backslash)
      then match t with
           | [] => false
           | e :: t' =>
               if bool_decide (e = "u"%char)
               then match t' with
                    | h1 :: h2 :: h3 :: h4 :: t'' =>
                        isHexDigit h1 && isHexDigit h2 && isHexDigit h3 && isHexDigit h4
                        && jsonStringBody t''
                    | _ => false
                    end
               else (bool_decide (e = dquote) || bool_decide (e = backslash)
                     || bool_decide (e = "/"%char) || bool_decide (e = "b"%char)
                     || bool_decide (e = "f"%char) || bool_decide (e = "n"%char)
                     || bool_decide (e = "r"%char) || bool_decide (e = "t"%char))
                    && jsonStringBody t'
           end
      else if bool_decide (c = dquote) then false
      else if (byteZ c <? 32)%Z then false
      else jsonStringBody t
  end.

(** Reading a single-quoted JavaScript string literal from just after its
    opening quote: the offset of the closing quote. A backslash takes the
    next byte with it; a raw line feed or carriage return, or the end of
    the text, leaves the literal unterminated. *)
Fixpoint jsLiteralEnd (s : bytes) : option nat :=
  match s with
  | [] => None
  | c :: t =>
      if bool_decide (c = "'"%char) then Some 0%nat
      else if bool_decide (c = zbyte 10) || bool_decide (c = zbyte 13) then None
      else if bool_decide (c = backslash)
      then match t with
           | [] => None
           | _ :: t' => (fun n => S (S n)) <$> jsLiteralEnd t'
           end
      else S <$> jsLiteralEnd t
  end.

End Quoting.

(** * Properties *)

(** ** Facts about the 64-bit integers and the string helpers *)

Ltac bool_hyps :=
  repeat match goal with
    | H : (_ || _) = true |- _ => apply orb_true_iff in H
    | H : (_ || _) = false |- _ => apply orb_false_iff in H as [? ?]
    | H : (_ && _) = true |- _ => apply andb_true_iff in H as [? ?]
    | H : (_ && _) = false |- _ => apply andb_false_iff in H
    | H : negb _ = true |- _ => apply negb_true_iff in H
    | H : negb _ = false |- _ => apply negb_false_iff in H
    | H : (_ <? _)%Z = true |- _ => apply Z.ltb_lt in H
    | H : (_ <? _)%Z = false |- _ => apply Z.ltb_ge in H
    | H : (_ <=? _)%Z = true |- _ => apply Z.leb_le in H
    | H : (_ <=? _)%Z = false |- _ => apply Z.leb_gt in H
    | H : (_ =? _)%Z = true |- _ => apply Z.eqb_eq in H
    | H : (_ =? _)%Z = false |- _ => apply Z.eqb_neq in H
    | H : _ \/ _ |- _ => destruct H
    end.

Section IntegerFacts.

Local Open Scope Z_scope.

(** What comes back from 64 bits is in range, and a value in range comes
    back as it is. *)
Lemma wrap64_range (z : Z) : - 2 ^ 63 <= wrap64 z < 2 ^ 63.
Proof. unfold wrap64. pose proof (Z.mod_pos_bound (z + 2 ^ 63) (2 ^ 64)). lia. Qed.

Lemma wrap64_small (z : Z) : - 2 ^ 63 <= z < 2 ^ 63 -> wrap64 z = z.
Proof. intros H. unfold wrap64. rewrite Z.mod_small; lia. Qed.

(** What comes back differs from what went in by a multiple of [2^64],
    and multiples of [2^64] do not show. *)
Lemma wrap64_eq (z : Z) : exists j, wrap64 z = z + j * 2 ^ 64.
Proof.
  exists (- ((z + 2 ^ 63) / 2 ^ 64)). unfold wrap64.
  pose proof (Z.div_mod (z + 2 ^ 63) (2 ^ 64) ltac:(lia)). lia.
Qed.

Lemma wrap64_plus (z j : Z) : wrap64 (z + j * 2 ^ 64) = wrap64 z.
Proof.
  unfold wrap64. f_equal.
  replace (z + j * 2 ^ 64 + 2 ^ 63) with (z + 2 ^ 63 + j * 2 ^ 64) by lia.
  apply Z_mod_plus_full.
Qed.

(** A product in 64 bits of a factor that came back from 64 bits is the
    product of the factors in 64 bits: doubling twice is multiplying by
    four, and so on. *)
Lemma wrap64_mul_l (z k : Z) : wrap64 (wrap64 z * k) = wrap64 (z * k).
Proof.
  destruct (wrap64_eq z) as [j ->].
  replace ((z + j * 2 ^ 64) * k) with (z * k + (j * k) * 2 ^ 64) by lia.
  apply wrap64_plus.
Qed.

End IntegerFacts.

Section StringFacts.

Lemma hasPrefix_app (p t : bytes) : hasPrefix (p ++ t) p = true.
Proof.
  induction p as [|c p IH]; simpl; [done|].
  rewrite bool_decide_eq_true_2 by done. exact IH.
Qed.

Lemma hasPrefix_inv (s p : bytes) :
  hasPrefix s p = true -> exists t, s = p ++ t.
Proof.
  revert s. induction p as [|c p IH]; intros s H.
  - exists s. done.
  - destruct s as [|d s]; simpl in H; [done|].
    apply andb_prop in H as [Hc Hp].
    apply bool_decide_eq_true_1 in Hc. subst d.
    destruct (IH s Hp) as [t ->]. exists t. done.
Qed.

(** The offset [index] returns is that of an occurrence. *)
Lemma index_Some (s sub : bytes) (n : nat) :
  index s sub = Some n -> s = take n s ++ sub ++ drop (n + length sub) s.
Proof.
  revert n. induction s as [|c s IH]; intros n H.
  - simpl in H. destruct (hasPrefix [] sub) eqn:Hp; [|done].
    injection H as <-. apply hasPrefix_inv in Hp as [t Ht].
    destruct sub; [done|discriminate].
  - simpl in H. destruct (hasPrefix (c :: s) sub) eqn:Hp.
    + injection H as <-. apply hasPrefix_inv in Hp as [t Ht].
      rewrite Ht at 1. simpl. rewrite Ht. by rewrite drop_app_length.
    + destruct (index s sub) as [m|] eqn:Hm; [|done].
      simpl in H. injection H as <-. simpl. f_equal. by apply IH.
Qed.

Lemma index_Some_bound (s sub : bytes) (n : nat) :
  index s sub = Some n -> n + length sub <= length s.
Proof.
  revert n. induction s as [|c s IH]; intros n H; simpl in H.
  - destruct (hasPrefix [] sub) eqn:Hp; [|done].
    injection H as <-. apply hasPrefix_inv in Hp as [t Ht].
    destruct sub; [simpl; lia|discriminate].
  - destruct (hasPrefix (c :: s) sub) eqn:Hp.
    + injection H as <-. apply hasPrefix_inv in Hp as [t Ht].
      rewrite Ht, length_app. lia.
    + destruct (index s sub) as [m|] eqn:Hm; [|done].
      simpl in H. injection H as <-. specialize (IH m eq_refl). simpl. lia.
Qed.

(** [index] finds the first occurrence. *)
Lemma index_first (a sub c : bytes) :
  exists n, index (a ++ sub ++ c) sub = Some n /\ n <= length a.
Proof.
  induction a as [|x a IH].
  - exists 0. split; [|done]. simpl.
    destruct (sub ++ c) eqn:E.
    + destruct sub; [done|discriminate].
    + rewrite <- E. cbn [index]. rewrite E.
      assert (Hp : hasPrefix (a :: l) sub = true)
        by (rewrite <- E; apply hasPrefix_app).
      cbn [index]. by rewrite Hp.
  - destruct IH as (n & Hn & Hle).
    cbn [app index].
    destruct (hasPrefix (x :: a ++ sub ++ c) sub).
    + exists 0. split; [done|simpl; lia].
    + exists (S n). rewrite Hn. split; [done|simpl; lia].
Qed.

Lemma index_None (s sub : bytes) :
  index s sub = None -> forall a c, s <> a ++ sub ++ c.
Proof.
  intros H a c ->. destruct (index_first a sub c) as (n & Hn & _). congruence.
Qed.


Lemma byteZ_range (c : ascii) : (0 <= byteZ c < 256)%Z.
Proof. unfold byteZ. pose proof (N_ascii_bounded c). lia. Qed.

Lemma zbyte_byteZ (c : ascii) : zbyte (byteZ c) = c.
Proof. unfold zbyte, byteZ. rewrite N2Z.id. apply ascii_N_embedding. Qed.

Lemma decodeRune_ascii (c : ascii) (t : bytes) :
  (byteZ c < 128)%Z -> decodeRune (c :: t) = (byteZ c, 1%nat).
Proof.
  intros H. unfold decodeRune. destruct (Z.ltb_spec (byteZ c) 128); [done|lia].
Qed.

(** A byte from 128 up never decodes to an ASCII rune. *)
Lemma decodeRune_high (c : ascii) (t : bytes) :
  (128 <= byteZ c)%Z -> (128 <= (decodeRune (c :: t)).1)%Z.
Proof.
  intros H. pose proof (byteZ_range c) as Hc.
  unfold decodeRune, firstByte, isCont, RuneError.
  repeat match goal with
    | |- context [match ?t with [] => _ | _ :: _ => _ end] => destruct t; cbn [fst]
    | |- context [if ?b then _ else _] => destruct b eqn:?; cbn [fst]
    end; try lia.
  all: try discriminate.
  all: bool_hyps; try lia.
  all: Z.div_mod_to_equations; lia.
Qed.

Lemma rangeFrom_ascii (s : bytes) (i : nat) :
  isASCII s = true -> (rangeFrom 0 i s).*2 = byteZ <$> s.
Proof.
  revert i. induction s as [|c s IH]; intros i H; [done|].
  simpl in H. apply andb_prop in H as [Hc Hs]. apply Z.ltb_lt in Hc.
  cbn [rangeFrom]. rewrite decodeRune_ascii by done. cbn. f_equal. by apply IH.
Qed.

Lemma runes_ascii (s : bytes) : isASCII s = true -> runes s = byteZ <$> s.
Proof. apply rangeFrom_ascii. Qed.

Lemma encodeRune_ascii (c : ascii) : (byteZ c < 128)%Z -> encodeRune (byteZ c) = [c].
Proof.
  intros H. pose proof (byteZ_range c). unfold encodeRune.
  destruct (Z.leb_spec 0 (byteZ c)); [|lia].
  destruct (Z.leb_spec (byteZ c) 127); [|lia].
  simpl. by rewrite zbyte_byteZ.
Qed.

(** Replacing a one-byte pattern works byte by byte. *)
Lemma replaceAll_single (s : bytes) (x : ascii) (new : bytes) :
  replaceAll s [x] new
  = concat ((fun c => if bool_decide (x = c) then new else [c]) <$> s).
Proof.
  unfold replaceAll. induction s as [|c s IH]; [done|].
  cbn [replaceFrom hasPrefix length Nat.sub fmap list_fmap concat].
  rewrite andb_true_r. case_bool_decide; cbn; by rewrite IH.
Qed.

Lemma isASCII_app (a b : bytes) : isASCII (a ++ b) = isASCII a && isASCII b.
Proof. apply forallb_app. Qed.

End StringFacts.

(** ** Facts about template substitution *)

Section TemplateFacts.

Import Template Spec.

Lemma hasPlaceholder_nil : ~ hasPlaceholder [].
Proof.
  intros (a & b & c & H). apply (f_equal length) in H.
  rewrite !length_app in H. simpl in H. lia.
Qed.

(** With fuel for every byte the loop stops on its own, and what it leaves
    holds no placeholder. *)
Lemma erasePlaceholders_clean (fuel : nat) (s : bytes) :
  length s <= fuel -> ~ hasPlaceholder (erasePlaceholders fuel s).
Proof.
  revert s. induction fuel as [|fuel IH]; intros s Hlen.
  - destruct s; [|simpl in Hlen; lia]. apply hasPlaceholder_nil.
  - cbn [erasePlaceholders].
    destruct (index s (B "{{")) as [start|] eqn:Hopen.
    + unfold sliceFrom, sliceTo.
      destruct (index (drop start s) (B "}}")) as [e|] eqn:Hclose.
      * apply IH.
        pose proof (index_Some_bound _ _ _ Hopen) as H1.
        pose proof (index_Some_bound _ _ _ Hclose) as H2.
        rewrite length_drop in H2. simpl in H1, H2.
        rewrite length_app, length_take, length_drop. lia.
      * intros (a & b & c & ->).
        destruct (index_first a (B "{{") (b ++ B "}}" ++ c)) as (n & Hn & Hle).
        rewrite Hn in Hopen. injection Hopen as ->.
        rewrite drop_app_le in Hclose by done.
        apply (index_None _ _ Hclose (drop start a ++ B "{{" ++ b) c).
        by rewrite <- !app_assoc.
    + intros (a & b & c & ->).
      by apply (index_None _ _ Hopen a (b ++ B "}}" ++ c)).
Qed.

Lemma letterOrDigit_ascii (r : Z) : isLetterOrDigit r = true -> (r < 128)%Z.
Proof. unfold isLetterOrDigit. intros H. bool_hyps; lia. Qed.

Lemma letter_ascii (r : Z) : isLetter r = true -> (r < 128)%Z.
Proof. unfold isLetter. intros H. bool_hyps; lia. Qed.

(** Past the first byte the loop of [validateParamKey] tests bytes. *)
Lemma range_identChar (s : bytes) (i : nat) :
  1 <= i ->
  forallb (fun ir => if (ir.1 =? 0)%nat then isLetter ir.2 else isLetterOrDigit ir.2)
          (rangeFrom 0 i s)
  = forallb identChar s.
Proof.
  revert i. induction s as [|c s IH]; intros i Hi; [done|].
  cbn [rangeFrom forallb fst snd].
  destruct (Nat.eqb_spec i 0) as [->|_]; [lia|].
  unfold identChar at 1.
  destruct (Z.ltb_spec (byteZ c) 128) as [Hc|Hc].
  - rewrite decodeRune_ascii by done. cbn [fst snd]. f_equal. apply IH. lia.
  - pose proof (decodeRune_high c s Hc) as Hr.
    destruct (isLetterOrDigit (decodeRune (c :: s)).1) eqn:E1.
    { apply letterOrDigit_ascii in E1. lia. }
    destruct (isLetterOrDigit (byteZ c)) eqn:E2; [|done].
    apply letterOrDigit_ascii in E2. lia.
Qed.

(** [validateParamKey] decides the identifier pattern. *)
Lemma validateParamKey_spec (key : bytes) :
  validateParamKey key = matchesIdentifier key.
Proof.
  unfold validateParamKey, matchesIdentifier, rangeRunes.
  destruct key as [|c rest]; [done|].
  cbn [length].
  replace (S (length rest) =? 0)%nat with false by done. cbn [orb].
  destruct (Nat.ltb_spec 64 (S (length rest))) as [Hl|Hl].
  - destruct (Nat.leb_spec (length rest) 63); [lia|]. by rewrite andb_false_r.
  - destruct (Nat.leb_spec (length rest) 63); [|lia]. rewrite andb_true_r.
    cbn [rangeFrom forallb fst snd Nat.eqb]. unfold identStart.
    destruct (Z.ltb_spec (byteZ c) 128) as [Hc|Hc].
    + rewrite decodeRune_ascii by done. cbn [fst snd]. f_equal.
      apply range_identChar. lia.
    + pose proof (decodeRune_high c rest Hc) as Hr.
      destruct (isLetter (decodeRune (c :: rest)).1) eqn:E1.
      { apply letter_ascii in E1. lia. }
      destruct (isLetter (byteZ c)) eqn:E2; [|done].
      apply letter_ascii in E2. lia.
Qed.

Lemma capValue_long (v : bytes) :
  maxValueLen < length v -> capValue v = take maxValueLen v /\ length (capValue v) = maxValueLen.
Proof.
  intros H. unfold capValue, sliceTo.
  destruct (Nat.ltb_spec maxValueLen (length v)); [|lia].
  split; [done|]. rewrite length_take. lia.
Qed.

Lemma capValue_short (v : bytes) : length v <= maxValueLen -> capValue v = v.
Proof.
  intros H. unfold capValue. destruct (Nat.ltb_spec maxValueLen (length v)); [lia|done].
Qed.

Lemma filterControl_ascii (s : bytes) :
  isASCII s = true ->
  filterControl s = concat ((fun c => if keepRune (byteZ c) then [c] else []) <$> s).
Proof.
  intros H. unfold filterControl. rewrite runes_ascii by done.
  induction s as [|c s IH]; [done|].
  simpl in H. apply andb_prop in H as [Hc Hs]. apply Z.ltb_lt in Hc.
  cbn [fmap list_fmap concat]. rewrite encodeRune_ascii by done.
  f_equal. by apply IH.
Qed.

(** On ASCII text [sanitizeSQLValue] is the bytewise SQL escape. *)
Lemma sanitizeSQLValue_ascii (v : bytes) :
  isASCII v = true -> sanitizeSQLValue v = concat (sqlEscapeByte <$> v).
Proof.
  intros H. unfold sanitizeSQLValue.
  change (B "'") with ["'"%char]. rewrite !replaceAll_single.
  assert (A : isASCII
                (concat ((fun c => if bool_decide ("'"%char = c) then B "''" else [c])
                   <$> concat ((fun c => if bool_decide (zbyte 0 = c) then [] else [c])
                                 <$> v))) = true).
  { clear -H. induction v as [|c v IH]; [done|].
    simpl in H. apply andb_prop in H as [Hc Hv].
    cbn [fmap list_fmap concat]. rewrite fmap_app, concat_app, isASCII_app.
    rewrite (IH Hv), andb_true_r.
    case_bool_decide; [done|]. cbn [fmap list_fmap concat app].
    case_bool_decide; [done|]. simpl. by rewrite Hc. }
  rewrite filterControl_ascii by done. clear A H.
  induction v as [|c v IH]; [done|].
  cbn [fmap list_fmap concat].
  repeat (rewrite fmap_app || rewrite concat_app). rewrite IH. f_equal.
  unfold sqlEscapeByte.
  destruct (decide (c = zbyte 0)) as [->|Hn].
  { by vm_compute. }
  rewrite (bool_decide_eq_false_2 (zbyte 0 = c)) by done.
  cbn [fmap list_fmap concat app].
  destruct (decide (c = "'"%char)) as [->|Hq].
  { by vm_compute. }
  rewrite (bool_decide_eq_false_2 ("'"%char = c)) by done.
  rewrite (bool_decide_eq_false_2 (c = "'"%char)) by done.
  cbn [fmap list_fmap concat app]. by rewrite app_nil_r.
Qed.

Lemma escapeJSONRune_byte (c : ascii) :
  (byteZ c < 128)%Z -> escapeJSONRune (byteZ c) = jsonEscapeByte c.
Proof.
  intros H. unfold jsonEscapeByte.
  repeat (case_bool_decide; [subst c; by vm_compute|]).
  unfold escapeJSONRune.
  repeat match goal with
    | |- context [(byteZ c =? ?k)%Z] =>
        destruct (Z.eqb_spec (byteZ c) k) as [E|_];
        [exfalso; apply (f_equal zbyte) in E; rewrite zbyte_byteZ in E; done|]
    end.
  destruct (byteZ c <? 32)%Z; [done|]. by apply encodeRune_ascii.
Qed.

(** On ASCII text [escapeJSONValue] is the bytewise JSON escape. *)
Lemma escapeJSONValue_ascii (v : bytes) :
  isASCII v = true -> escapeJSONValue v = concat (jsonEscapeByte <$> v).
Proof.
  intros H. unfold escapeJSONValue. rewrite runes_ascii by done.
  induction v as [|c v IH]; [done|].
  simpl in H. apply andb_prop in H as [Hc Hv]. apply Z.ltb_lt in Hc.
  cbn [fmap list_fmap concat]. rewrite escapeJSONRune_byte by done.
  f_equal. by apply IH.
Qed.

(** *** The sweep and the replacement on a text cut at its braces *)

Lemma braceFree_spec (s : bytes) :
  braceFree s = true -> ("{"%char ∉ s) /\ ("}"%char ∉ s).
Proof.
  induction s as [|c s IH]; cbn [braceFree forallb]; intros H.
  - split; apply not_elem_of_nil.
  - apply andb_prop in H as [Hc Hs]. apply andb_prop in Hc as [H1 H2].
    apply negb_true_iff, bool_decide_eq_false_1 in H1, H2.
    destruct (IH Hs) as [I1 I2].
    split; apply not_elem_of_cons; split; congruence.
Qed.

Lemma index_absent_byte (x : ascii) (t : bytes) : x ∉ t -> index t [x; x] = None.
Proof.
  induction t as [|c t IH]; intros H; [done|].
  apply not_elem_of_cons in H as [Hc Ht].
  cbn [index hasPrefix]. rewrite (bool_decide_eq_false_2 (x = c)) by done.
  cbn [andb]. by rewrite IH.
Qed.

(** A pair of braces is not found in a prefix that lacks the brace. *)
Lemma index_skip (x : ascii) (pre s : bytes) :
  x ∉ pre -> index (pre ++ s) [x; x] = (fun n => length pre + n) <$> index s [x; x].
Proof.
  induction pre as [|c pre IH]; intros H.
  - cbn [app length]. by destruct (index s [x; x]).
  - apply not_elem_of_cons in H as [Hc Hp].
    cbn [app index hasPrefix]. rewrite (bool_decide_eq_false_2 (x = c)) by done.
    cbn [andb]. rewrite IH by done. by destruct (index s [x; x]).
Qed.

(** Nor does a suffix that lacks the brace add an occurrence. *)
Lemma index_app_absent (x : ascii) (s post : bytes) :
  x ∉ post -> index (s ++ post) [x; x] = index s [x; x].
Proof.
  intros H. induction s as [|c s IH].
  - cbn [app]. rewrite index_absent_byte by done. done.
  - cbn [app index]. rewrite IH.
    replace (hasPrefix (c :: s ++ post) [x; x]) with (hasPrefix (c :: s) [x; x]); [done|].
    cbn [hasPrefix]. f_equal. destruct s as [|d s]; cbn [app hasPrefix]; [|done].
    destruct post as [|d post]; [done|].
    apply not_elem_of_cons in H as [Hd _]. cbn [hasPrefix].
    by rewrite (bool_decide_eq_false_2 (x = d)).
Qed.

(** The sweep needs no more turns than the text has bytes. *)
Lemma erasePlaceholders_fuel (f f' : nat) (s : bytes) :
  length s <= f -> length s <= f' ->
  erasePlaceholders f s = erasePlaceholders f' s.
Proof.
  revert f' s. induction f as [|f IH]; intros f' s Hf Hf'.
  - destruct s; [|simpl in Hf; lia]. by destruct f'.
  - destruct f' as [|f'].
    { destruct s; [done|simpl in Hf'; lia]. }
    cbn [erasePlaceholders].
    destruct (index s (B "{{")) as [start|] eqn:Hopen; [|done].
    unfold sliceFrom, sliceTo.
    destruct (index (drop start s) (B "}}")) as [e|] eqn:Hclose; [|done].
    pose proof (index_Some_bound _ _ _ Hopen) as H1.
    pose proof (index_Some_bound _ _ _ Hclose) as H2.
    rewrite length_drop in H2. simpl in H1, H2.
    apply IH; rewrite length_app, length_take, length_drop; lia.
Qed.

(** The sweep leaves a text without placeholder as it is. *)
Lemma erasePlaceholders_none (f : nat) (s : bytes) :
  ~ hasPlaceholder s -> erasePlaceholders f s = s.
Proof.
  intros Hn. destruct f as [|f]; [done|]. cbn [erasePlaceholders].
  destruct (index s (B "{{")) as [start|] eqn:Hopen; [|done].
  unfold sliceFrom.
  destruct (index (drop start s) (B "}}")) as [e|] eqn:Hclose; [|done].
  exfalso. apply Hn.
  pose proof (index_Some_bound _ _ _ Hopen) as Hb. simpl in Hb.
  apply index_Some in Hopen. apply index_Some in Hclose.
  assert (drop start s = B "{{" ++ drop (start + 2) s) as Hd.
  { rewrite Hopen at 1. rewrite drop_app_length'; [done|]. rewrite length_take. lia. }
  rewrite Hd in Hclose. simpl length in Hclose.
  destruct e as [|[|e]]; [done|done|].
  cbn [take app] in Hclose. injection Hclose as Hclose.
  exists (take start s), (take e (drop (start + 2) s)),
         (drop (S (S e) + 2) (B "{{" ++ drop (start + 2) s)).
  rewrite Hopen at 1. simpl length. by rewrite Hclose at 1.
Qed.

(** The sweep acts between the braces: text without an opening brace
    before them, and text without braces after them, stay where they
    are. *)
Lemma erasePlaceholders_local (f f' : nat) (pre e post : bytes) :
  "{"%char ∉ pre -> "{"%char ∉ post -> "}"%char ∉ post ->
  length (pre ++ e ++ post) <= f -> length e <= f' ->
  erasePlaceholders f (pre ++ e ++ post) = pre ++ erasePlaceholders f' e ++ post.
Proof.
  intros Hpre Hpost Hpost'. revert f' e.
  induction f as [|f IH]; intros f' e Hf Hf'.
  - rewrite !length_app in Hf.
    destruct pre; [|simpl in Hf; lia]. destruct e; [|simpl in Hf; lia].
    destruct post; [|simpl in Hf; lia]. by destruct f'.
  - cbn [erasePlaceholders].
    change (B "{{") with ["{"%char; "{"%char]. change (B "}}") with ["}"%char; "}"%char].
    rewrite index_skip, index_app_absent by done.
    destruct (index e ["{"%char; "{"%char]) as [i|] eqn:Hopen.
    + pose proof (index_Some_bound _ _ _ Hopen) as H1. simpl in H1.
      cbn [fmap option_fmap option_map]. unfold sliceFrom, sliceTo.
      rewrite drop_app_add', drop_app_le by lia.
      rewrite index_app_absent by done.
      destruct f' as [|f']; [lia|]. cbn [erasePlaceholders].
      change (B "{{") with ["{"%char; "{"%char]. change (B "}}") with ["}"%char; "}"%char].
      rewrite Hopen. unfold sliceFrom, sliceTo.
      destruct (index (drop i e) ["}"%char; "}"%char]) as [j|] eqn:Hclose; [|done].
      pose proof (index_Some_bound _ _ _ Hclose) as H2.
      rewrite length_drop in H2. simpl in H2.
      rewrite take_app_add', take_app_le by lia.
      replace (length pre + i + j + 2) with (length pre + (i + j + 2)) by lia.
      rewrite drop_app_add', drop_app_le by lia.
      rewrite <- app_assoc.
      rewrite (app_assoc (take i e)).
      apply IH.
      * rewrite !length_app, length_take, length_drop.
        rewrite !length_app in Hf. lia.
      * rewrite length_app, length_take, length_drop. lia.
    + cbn [fmap option_fmap option_map]. f_equal. f_equal.
      destruct f' as [|f']; [done|]. cbn [erasePlaceholders].
      change (B "{{") with ["{"%char; "{"%char]. by rewrite Hopen.
Qed.

(** One turn of the sweep on a text cut at its first placeholder. *)
Lemma erasePlaceholders_first (f f' : nat) (a b c : bytes) :
  "{"%char ∉ a -> "}"%char ∉ b ->
  length (a ++ B "{{" ++ b ++ B "}}" ++ c) <= f -> length c <= f' ->
  erasePlaceholders f (a ++ B "{{" ++ b ++ B "}}" ++ c) = a ++ erasePlaceholders f' c.
Proof.
  intros Ha Hb Hf Hf'.
  destruct f as [|f]; [rewrite !length_app in Hf; simpl in Hf; lia|].
  cbn [erasePlaceholders].
  change (B "{{") with ["{"%char; "{"%char]. change (B "}}") with ["}"%char; "}"%char].
  rewrite index_skip by done. cbn [app index hasPrefix].
  rewrite !bool_decide_eq_true_2 by done. cbn [andb fmap option_fmap option_map].
  unfold sliceFrom, sliceTo. rewrite Nat.add_0_r, drop_app_length, take_app_length.
  assert ("}"%char ∉ "{"%char :: "{"%char :: b) as Hb'.
  { apply not_elem_of_cons; split; [done|]. by apply not_elem_of_cons. }
  change ("{"%char :: "{"%char :: b ++ "}"%char :: "}"%char :: c)
    with (("{"%char :: "{"%char :: b) ++ ["}"%char; "}"%char] ++ c).
  rewrite index_skip by done. cbn [app index hasPrefix].
  rewrite !bool_decide_eq_true_2 by done. cbn [andb fmap option_fmap option_map length].
  replace (length a + (S (S (length b)) + 0) + 2) with (length a + (length b + 4)) by lia.
  rewrite drop_app_add'; [|done].
  change ("{"%char :: "{"%char :: b ++ "}"%char :: "}"%char :: c)
    with (["{"%char; "{"%char] ++ b ++ ["}"%char; "}"%char] ++ c).
  replace (drop (length b + 4) ([ "{"%char; "{"%char] ++ b ++ ["}"%char; "}"%char] ++ c))
    with c.
  2:{ rewrite !app_assoc. rewrite drop_app_length'; [done|].
      rewrite !length_app. simpl. lia. }
  rewrite !length_app in Hf. simpl in Hf.
  pose proof (erasePlaceholders_local f f' a c [] Ha ltac:(apply not_elem_of_nil)
                ltac:(apply not_elem_of_nil)) as H.
  rewrite !app_nil_r in H. apply H; [rewrite length_app|]; lia.
Qed.

(** [strings.ReplaceAll] on a text that holds the pattern once, between
    texts without an opening brace, for a pattern that starts with one. *)
Lemma replaceFrom_skip (r t old new : bytes) :
  replaceFrom (length r) (r ++ t) old new = replaceFrom 0 t old new.
Proof. induction r as [|c r IH]; [done|]. cbn [app length replaceFrom]. exact IH. Qed.

Lemma replaceFrom_no_open (pre s old new : bytes) :
  "{"%char ∉ pre ->
  replaceFrom 0 (pre ++ s) ("{"%char :: old) new
  = pre ++ replaceFrom 0 s ("{"%char :: old) new.
Proof.
  induction pre as [|c pre IH]; intros H; [done|].
  apply not_elem_of_cons in H as [Hc Hp].
  cbn [app replaceFrom hasPrefix]. rewrite (bool_decide_eq_false_2 ("{"%char = c)) by done.
  cbn [andb]. by rewrite IH.
Qed.

Lemma replaceAll_once (pre post key new : bytes) :
  "{"%char ∉ pre -> "{"%char ∉ post ->
  replaceAll (pre ++ placeholderOf key ++ post) (placeholderOf key) new
  = pre ++ new ++ post.
Proof.
  intros Hpre Hpost.
  assert (placeholderOf key = "{"%char :: ("{"%char :: key ++ B "}}")) as -> by done.
  set (old := "{"%char :: key ++ B "}}").
  unfold replaceAll. rewrite replaceFrom_no_open by done. f_equal.
  cbn [app replaceFrom].
  change ("{"%char :: old ++ post) with (("{"%char :: old) ++ post).
  rewrite hasPrefix_app. f_equal.
  replace (length ("{"%char :: old) - 1) with (length old) by (cbn [length]; lia).
  rewrite replaceFrom_skip.
  pose proof (replaceFrom_no_open post [] old new Hpost) as H.
  cbn [replaceFrom] in H. rewrite !app_nil_r in H. by rewrite H.
Qed.

End TemplateFacts.

(** ** Claims about template substitution *)

Section TemplateClaims.

Import Template Spec.

Lemma substituteArg_invalid `{rt : Runtime} (result key : bytes) (value : GoValue) :
  matchesIdentifier key = false -> substituteArg result (key, value) = result.
Proof.
  intros H. unfold substituteArg. cbn [fst snd].
  by rewrite validateParamKey_spec, H.
Qed.

Lemma substituteArg_valid `{rt : Runtime} (result key strValue : bytes) (value : GoValue) :
  validateParamKey key = true -> coerceValue value = Some strValue ->
  substituteArg result (key, value)
  = replaceAll result (placeholderOf key)
      (escapeFor result (placeholderOf key) (capValue strValue)).
Proof.
  intros Hk Hv. unfold substituteArg. cbn [fst snd]. by rewrite Hk, Hv.
Qed.

(** C8. During substitution a coerced value longer than 65536 bytes is cut
    to its first 65536 bytes before it is escaped and substituted; the
    key test is the identifier pattern (a letter or underscore followed by
    at most 63 letters, digits or underscores), and an argument whose key
    fails it is skipped, for one turn of the loop and for the whole call;
    the text [substituteParams] returns holds no placeholder, whatever the
    template and the arguments.

    [substituteParams] itself does this. An argument with a valid key takes
    one turn: the call goes on with the other arguments on the template in
    which every occurrence of its placeholder holds the escaped cut value.
    With one placeholder between two texts without braces the call returns
    the first text, the escaped cut value, and the second text, in this
    order and with nothing else (what the sweep leaves of the value, when
    the value brings braces of its own). An argument whose key fails the
    test leaves its placeholder to the sweep, which erases it. The sweep
    runs on what the loop leaves: it takes out the first placeholder,
    braces and name, keeps the text before it byte for byte and goes on
    with the text after it; a text without placeholder comes back as it
    is. *)
Theorem substitution_caps_drops_and_sweeps `{rt : Runtime}
    (template result key strValue : bytes) (value : GoValue) (args args' : Args)
    (pre name post : bytes) :
  (maxValueLen < length strValue ->
     length (capValue strValue) = maxValueLen
     /\ capValue strValue = take maxValueLen strValue)
  /\ (validateParamKey key = true -> coerceValue value = Some strValue ->
        substituteArg result (key, value)
        = replaceAll result (placeholderOf key)
            (escapeFor result (placeholderOf key) (capValue strValue)))
  /\ validateParamKey key = matchesIdentifier key
  /\ (matchesIdentifier key = false ->
        substituteArg result (key, value) = result
        /\ substituteParams template (args ++ (key, value) :: args')
           = substituteParams template (args ++ args'))
  /\ ~ hasPlaceholder (substituteParams template args)
  /\ (validateParamKey key = true -> coerceValue value = Some strValue ->
        substituteParams template ((key, value) :: args)
        = substituteParams
            (replaceAll template (placeholderOf key)
               (escapeFor template (placeholderOf key) (capValue strValue)))
            args)
  /\ (validateParamKey key = true -> coerceValue value = Some strValue ->
      braceFree pre = true -> braceFree post = true ->
        substituteParams (pre ++ placeholderOf key ++ post) [(key, value)]
        = pre
          ++ substituteParams
               (escapeFor (pre ++ placeholderOf key ++ post) (placeholderOf key)
                  (capValue strValue)) []
          ++ post
        /\ (index (escapeFor (pre ++ placeholderOf key ++ post) (placeholderOf key)
                     (capValue strValue)) (B "{{") = None ->
              substituteParams (pre ++ placeholderOf key ++ post) [(key, value)]
              = pre
                ++ escapeFor (pre ++ placeholderOf key ++ post) (placeholderOf key)
                     (capValue strValue)
                ++ post))
  /\ (matchesIdentifier key = false -> braceFree pre = true -> braceFree key = true ->
        substituteParams (pre ++ placeholderOf key ++ post) [(key, value)]
        = pre ++ substituteParams post [])
  /\ substituteParams template args
     = substituteParams (fold_left substituteArg args template) []
  /\ (braceFree pre = true -> braceFree name = true ->
        substituteParams (pre ++ B "{{" ++ name ++ B "}}" ++ post) []
        = pre ++ substituteParams post [])
  /\ (~ hasPlaceholder template -> substituteParams template [] = template).
Proof.
  split; [|split; [|split; [|split; [|split; [|split; [|split; [|split; [|split;
    [|split]]]]]]]]].
  - intros H. destruct (capValue_long strValue H). done.
  - apply substituteArg_valid.
  - apply validateParamKey_spec.
  - intros H. split; [by apply substituteArg_invalid|].
    unfold substituteParams. rewrite !fold_left_app. cbn [fold_left].
    by rewrite substituteArg_invalid.
  - unfold substituteParams. by apply erasePlaceholders_clean.
  - intros Hk Hv. unfold substituteParams. cbn [fold_left].
    by rewrite (substituteArg_valid _ _ strValue).
  - intros Hk Hv Hpre Hpost.
    apply braceFree_spec in Hpre as [Hpre _]. apply braceFree_spec in Hpost as [Hpost Hpost'].
    assert (substituteParams (pre ++ placeholderOf key ++ post) [(key, value)]
            = pre
              ++ substituteParams
                   (escapeFor (pre ++ placeholderOf key ++ post) (placeholderOf key)
                      (capValue strValue)) []
              ++ post) as Heq.
    { unfold substituteParams. cbn [fold_left].
      rewrite (substituteArg_valid _ _ strValue) by done.
      rewrite replaceAll_once by done. by apply erasePlaceholders_local. }
    split; [exact Heq|]. intros Hnone. rewrite Heq. f_equal. f_equal.
    unfold substituteParams. cbn [fold_left]. apply erasePlaceholders_none.
    intros (a & b & c & Habc).
    by apply (index_None _ _ Hnone a (b ++ B "}}" ++ c)).
  - intros Hbad Hpre Hkey.
    apply braceFree_spec in Hpre as [Hpre _]. apply braceFree_spec in Hkey as [_ Hkey].
    unfold substituteParams. cbn [fold_left]. rewrite substituteArg_invalid by done.
    unfold placeholderOf. rewrite <- !app_assoc.
    by apply erasePlaceholders_first.
  - done.
  - intros Hpre Hname.
    apply braceFree_spec in Hpre as [Hpre _]. apply braceFree_spec in Hname as [_ Hname].
    unfold substituteParams. cbn [fold_left]. by apply erasePlaceholders_first.
  - intros Hn. unfold substituteParams. cbn [fold_left]. by apply erasePlaceholders_none.
Qed.

(** A value of 65537 bytes arrives cut to 65536 between the quotes of the
    template; an argument whose key holds a dash is not substituted and its
    placeholder is erased; a placeholder no argument names is erased after
    the other has received its value. *)
Lemma substitution_caps_drops_and_sweeps_witness :
  substituteParams (rt := Reference.runtime) (B "SELECT '{{v}}' AS x")
    [(B "v", VString (replicate (S maxValueLen) "a"%char))]
  = B "SELECT '" ++ replicate maxValueLen "a"%char ++ B "' AS x"
  /\ substituteParams (rt := Reference.runtime) (B "SELECT {{bad-key}} AS x")
       [(B "bad-key", VInt 3)]
     = B "SELECT  AS x"
  /\ substituteParams (rt := Reference.runtime) (B "SELECT {{a}}, {{b}}")
       [(B "a", VInt 3)]
     = B "SELECT 3, "
  /\ substituteArg (rt := Reference.runtime) (B "x{{bad-key}}") (B "bad-key", VInt 3)
     = B "x{{bad-key}}"
  /\ length (capValue (replicate (S maxValueLen) "a"%char)) = maxValueLen.
Proof.
  destruct (substitution_caps_drops_and_sweeps (rt := Reference.runtime)
              [] (B "x{{bad-key}}") (B "bad-key")
              (replicate (S maxValueLen) "a"%char) (VInt 3) [] []
              (B "SELECT ") [] (B " AS x"))
    as (Hcap & _ & _ & Hdrop & _ & _ & _ & Hbad & _).
  destruct (substitution_caps_drops_and_sweeps (rt := Reference.runtime)
              [] [] (B "v")
              (replicate (S maxValueLen) "a"%char)
              (VString (replicate (S maxValueLen) "a"%char)) [] []
              (B "SELECT '") [] (B "' AS x"))
    as (_ & _ & _ & _ & _ & _ & Hone & _).
  destruct (substitution_caps_drops_and_sweeps (rt := Reference.runtime)
              (B "SELECT {{a}}, {{b}}") [] (B "a") (B "3") (VInt 3) [] []
              (B "SELECT 3, ") (B "b") [])
    as (_ & _ & _ & _ & _ & Hturn & _ & _ & _ & Hsweep & _).
  split; [|split; [|split; [|split]]].
  - destruct (Hone eq_refl eq_refl eq_refl eq_refl) as [_ H].
    change (B "SELECT '{{v}}' AS x")
      with (B "SELECT '" ++ placeholderOf (B "v") ++ B "' AS x").
    rewrite H by (by vm_compute).
    apply (bool_decide_eq_true_1 (_ = _)). by vm_compute.
  - change (B "SELECT {{bad-key}} AS x")
      with (B "SELECT " ++ placeholderOf (B "bad-key") ++ B " AS x").
    rewrite Hbad by done. by vm_compute.
  - rewrite Hturn by done.
    change (substituteParams (rt := Reference.runtime)
              (B "SELECT 3, " ++ B "{{" ++ B "b" ++ B "}}" ++ []) []
            = B "SELECT 3, ").
    rewrite Hsweep by done. by vm_compute.
  - apply Hdrop. reflexivity.
  - apply Hcap. rewrite length_replicate. apply Nat.lt_succ_diag_r.
Defined.

(** C7, as the code has it. The escaping of an argument is decided once
    per key: the window is the (at most) 200 bytes before the first
    occurrence of its placeholder in the text rendered so far, lower-cased
    and searched for the ten indicators (the nine of the claim and
    [.click()]); every occurrence of the placeholder then receives the same
    bytes, the value JSON-escaped and SQL-escaped when the window holds an
    indicator, SQL-escaped only otherwise. On ASCII values the SQL escape
    doubles the quote and drops NUL, DEL and the control characters other
    than tab, line feed and carriage return; the JSON escape is the
    bytewise one. *)
Theorem escaping_decided_per_key `{rt : Runtime}
    (result key strValue : bytes) (value : GoValue) :
  validateParamKey key = true -> coerceValue value = Some strValue ->
  (isInJavaScriptContext result (placeholderOf key) = true <->
     exists idx indicator,
       index result (placeholderOf key) = Some idx
       /\ In indicator jsIndicators
       /\ contains (toLower unicodeToLower
                      (slice result (idx - Nat.min idx 200) idx)) indicator = true)
  /\ (isInJavaScriptContext result (placeholderOf key) = true ->
        substituteArg result (key, value)
        = replaceAll result (placeholderOf key)
            (sanitizeSQLValue (escapeJSONValue (capValue strValue))))
  /\ (isInJavaScriptContext result (placeholderOf key) = false ->
        substituteArg result (key, value)
        = replaceAll result (placeholderOf key) (sanitizeSQLValue (capValue strValue)))
  /\ (forall w, isASCII w = true -> sanitizeSQLValue w = concat (sqlEscapeByte <$> w))
  /\ (forall w, isASCII w = true -> escapeJSONValue w = concat (jsonEscapeByte <$> w)).
Proof.
  intros Hk Hv. split; [|split; [|split; [|split]]].
  - unfold isInJavaScriptContext.
    destruct (index result (placeholderOf key)) as [idx|].
    + replace (if (idx <? 200)%nat then idx else 200%nat) with (Nat.min idx 200)
        by (destruct (Nat.ltb_spec idx 200); lia).
      rewrite existsb_exists. split.
      * intros (ind & Hin & Hc). by exists idx, ind.
      * intros (idx' & ind & [= <-] & Hin & Hc). by exists ind.
    + split; [done|]. by intros (? & ? & ? & _).
  - intros Hjs. rewrite (substituteArg_valid _ _ strValue) by done.
    unfold escapeFor. by rewrite Hjs.
  - intros Hjs. rewrite (substituteArg_valid _ _ strValue) by done.
    unfold escapeFor. by rewrite Hjs.
  - apply sanitizeSQLValue_ascii.
  - apply escapeJSONValue_ascii.
Qed.

(** With one placeholder after the word [expression], a double quote
    arrives with its backslash. *)
Lemma escaping_decided_per_key_witness :
  substituteArg (rt := Reference.runtime) (B "expression {{a}}") (B "a", VString [zbyte 34])
  = B "expression " ++ [backslash; dquote].
Proof.
  destruct (escaping_decided_per_key (rt := Reference.runtime)
              (B "expression {{a}}") (B "a") [zbyte 34] (VString [zbyte 34])
              eq_refl eq_refl) as (_ & Hjs & _).
  rewrite Hjs; reflexivity.
Defined.

(** C7 fails as stated. In [{{a}} expression {{a}}] the second occurrence
    follows the word [expression], yet it receives the bare double quote:
    the decision was taken at the first occurrence, which nothing
    precedes. A placeholder after [.click()], which the claim does not
    list, is JSON-escaped. And the SQL escape keeps line feed and carriage
    return, which are control characters other than tab. *)
Lemma escaping_per_occurrence_counterexample :
  contains (toLower (@unicodeToLower Reference.runtime)
              (take 17 (B "{{a}} expression {{a}}"))) (B "expression") = true
  /\ drop 17 (B "{{a}} expression {{a}}") = B "{{a}}"
  /\ substituteParams (rt := Reference.runtime) (B "{{a}} expression {{a}}")
       [(B "a", VString [zbyte 34])]
     = [zbyte 34] ++ B " expression " ++ [zbyte 34]
  /\ sanitizeSQLValue (escapeJSONValue [dquote]) = [backslash; dquote]
  /\ substituteParams (rt := Reference.runtime) (B "x.click() {{a}}")
       [(B "a", VString [zbyte 34])]
     = B "x.click() " ++ [backslash; dquote]
  /\ sanitizeSQLValue [zbyte 10; zbyte 13] = [zbyte 10; zbyte 13].
Proof. repeat split; by vm_compute. Qed.

End TemplateClaims.


(** ** Claims about the circuit breaker *)

Section CircuitClaims.

Import Circuit.

Local Open Scope Z_scope.



Lemma CanExecute_open (now : Z) (b : Breaker) :
  state b = StateOpen ->
  since now (lastStateChange b) <= timeout b ->
  CanExecute now b = (false, Some (B "circuit breaker " ++ name b ++ B " is open"), b).
Proof.
  intros Hs Ht. unfold CanExecute. rewrite Hs.
  by rewrite (proj2 (Z.ltb_ge _ _) Ht).
Qed.


(** The thresholds of a breaker never change. *)
Lemma apply_thresholds (e : Event) (b : Breaker) :
  successThreshold (apply e b) = successThreshold b
  /\ failureThreshold (apply e b) = failureThreshold b
  /\ halfOpenMaxCalls (apply e b) = halfOpenMaxCalls b
  /\ timeoutSeconds (apply e b) = timeoutSeconds b.
Proof.
  destruct e as [now|now|now]; cbn [apply];
    unfold CanExecute, RecordSuccess, RecordFailure;
    destruct (state b); repeat case_match; done.
Qed.








End CircuitClaims.

Section BreakerRuns.

Import Circuit.

Local Open Scope Z_scope.



End BreakerRuns.

(** ** Facts about the ledger and the handlers *)

Section ServerFacts.

Import Database Server Spec.

Context `{rt : Runtime}.

Lemma CheckProcessed_app (h : bytes) (t u : list ProcessedRow) :
  CheckProcessed h (t ++ u) = CheckProcessed h t || CheckProcessed h u.
Proof. apply existsb_app. Qed.

Lemma CheckProcessed_elem (h : bytes) (t : list ProcessedRow) :
  CheckProcessed h t = true <-> h ∈ pl_hash <$> t.
Proof.
  unfold CheckProcessed. rewrite existsb_exists, list_elem_of_fmap. split.
  - intros (r & Hin & Hr). apply bool_decide_eq_true_1 in Hr.
    exists r. split; [done|]. by apply list_elem_of_In.
  - intros (r & -> & Hin). exists r. split; [by apply list_elem_of_In|].
    by apply bool_decide_eq_true_2.
Qed.

(** After [MarkProcessed] the ledger holds the fingerprint, whether the
    INSERT went through or was refused. *)
Lemma MarkProcessed_present (h rid tool st rh : bytes) (ms : Z) (t : list ProcessedRow) :
  CheckProcessed h (MarkProcessed h rid tool st rh ms t).2 = true.
Proof.
  unfold MarkProcessed. destruct (CheckProcessed h t) eqn:E; cbn [snd]; [done|].
  rewrite CheckProcessed_app. cbn. rewrite bool_decide_eq_true_2 by done.
  by rewrite orb_true_r.
Qed.

Lemma MarkProcessed_mono (h h' rid tool st rh : bytes) (ms : Z) (t : list ProcessedRow) :
  CheckProcessed h' t = true ->
  CheckProcessed h' (MarkProcessed h rid tool st rh ms t).2 = true.
Proof.
  intros H. unfold MarkProcessed. destruct (CheckProcessed h t); cbn [snd]; [done|].
  rewrite CheckProcessed_app, H. done.
Qed.

(** The primary key is kept by every INSERT. *)
Lemma MarkProcessed_NoDup (h rid tool st rh : bytes) (ms : Z) (t : list ProcessedRow) :
  NoDup (pl_hash <$> t) -> NoDup (pl_hash <$> (MarkProcessed h rid tool st rh ms t).2).
Proof.
  intros H. unfold MarkProcessed. destruct (CheckProcessed h t) eqn:E; cbn [snd]; [done|].
  rewrite fmap_app. apply NoDup_app. split; [done|]. split.
  - intros x Hx Hx'. cbn in Hx'. apply list_elem_of_singleton in Hx'. subst x.
    apply CheckProcessed_elem in Hx. congruence.
  - cbn. apply NoDup_singleton.
Qed.

Lemma rowsFor_absent (h : bytes) (t : list ProcessedRow) :
  h ∉ pl_hash <$> t -> rowsFor h t = [].
Proof.
  unfold rowsFor. induction t as [|r t IH]; intros H; [done|].
  rewrite fmap_cons in H. apply not_elem_of_cons in H as [Hr Ht].
  rewrite filter_cons. case_decide; [congruence|]. by apply IH.
Qed.

Lemma rowsFor_NoDup (h : bytes) (t : list ProcessedRow) :
  NoDup (pl_hash <$> t) -> length (rowsFor h t) <= 1.
Proof.
  induction t as [|r t IH]; intros H; [cbn; lia|].
  rewrite fmap_cons in H. apply NoDup_cons in H as [Hr Ht].
  unfold rowsFor. rewrite filter_cons. case_decide as E; [|by apply IH].
  subst h. fold (rowsFor (pl_hash r) t). rewrite rowsFor_absent by done. cbn. lia.
Qed.

Lemma sameTables_refl (s : State) : sameTables s s.
Proof. by repeat split. Qed.

Lemma sameTables_trans (s1 s2 s3 : State) :
  sameTables s1 s2 -> sameTables s2 s3 -> sameTables s1 s3.
Proof.
  unfold sameTables. intros (?&?&?&?&?) (?&?&?&?&?). repeat split; congruence.
Qed.

Lemma send_sameTables (resp : JSONRPCResponse) (s : State) : sameTables s (send resp s).
Proof. unfold send. case_match; by repeat split. Qed.


Lemma handleToolsCall_sameTables (now : Z) (params h : bytes) (s : State) :
  sameTables s (handleToolsCall now params h s).2.
Proof.
  unfold handleToolsCall.
  repeat (case_match; try by repeat split).
Qed.

Lemma route_sameTables (now : Z) (req : JSONRPCRequest) (h : bytes) (s : State) :
  sameTables s (route now req h s).2.
Proof.
  unfold route. repeat (case_bool_decide; [try by repeat split|]).
  - apply handleToolsCall_sameTables.
  - by repeat split.
Qed.

Lemma beginRequest_sameTables (data : bytes) (s : State) :
  sameTables s (beginRequest data s).2.
Proof.
  unfold beginRequest, sendError, sendResult.
  repeat case_match; cbn [snd]; try apply send_sameTables. apply sameTables_refl.
Qed.

(** The one write to the ledger: the INSERT of [finishRequest]. *)
Lemma finishRequest_ledger (latencyMs : Z) (req : JSONRPCRequest) (hash : bytes)
    (outcome : RPCError + GoValue) (s : State) :
  processed_log (finishRequest latencyMs req hash outcome s)
  = (MarkProcessed hash (formatValue (reqID req)) (reqMethod req) (statusOf outcome)
       (resultHashOf outcome) latencyMs (processed_log s)).2.
Proof.
  destruct outcome; unfold finishRequest, sendError, sendResult, send;
    repeat case_match; done.
Qed.

Lemma finishRequest_tables (latencyMs : Z) (req : JSONRPCRequest) (hash : bytes)
    (outcome : RPCError + GoValue) (s : State) :
  retry_queue (finishRequest latencyMs req hash outcome s) = retry_queue s
  /\ retry_seq (finishRequest latencyMs req hash outcome s) = retry_seq s
  /\ dead_letter_queue (finishRequest latencyMs req hash outcome s) = dead_letter_queue s
  /\ allowed_attach_paths (finishRequest latencyMs req hash outcome s)
     = allowed_attach_paths s
  /\ tools (finishRequest latencyMs req hash outcome s) = tools s
  /\ world (finishRequest latencyMs req hash outcome s) = world s
  /\ circuits (finishRequest latencyMs req hash outcome s) = circuits s.
Proof.
  destruct outcome; unfold finishRequest, sendError, sendResult, send;
    repeat case_match; done.
Qed.

(** A move of a handler keeps the primary key of the ledger and never
    removes a fingerprint. *)
Lemma stepHandler_ledger (now latencyMs : Z) (ph : Phase) (s : State) :
  (NoDup (pl_hash <$> processed_log s) ->
   NoDup (pl_hash <$> processed_log (stepHandler now latencyMs ph s).2))
  /\ (forall h, CheckProcessed h (processed_log s) = true ->
                CheckProcessed h (processed_log (stepHandler now latencyMs ph s).2) = true).
Proof.
  destruct ph as [data|req hash|req hash outcome|]; cbn [stepHandler snd].
  - destruct (beginRequest_sameTables data s) as (-> & _). done.
  - destruct (route_sameTables now req hash s) as (-> & _). done.
  - rewrite finishRequest_ledger. split.
    + apply MarkProcessed_NoDup.
    + intros h. apply MarkProcessed_mono.
  - done.
Qed.

Lemma step_ledger (x y : list Phase * State) :
  step x y ->
  (NoDup (pl_hash <$> processed_log x.2) -> NoDup (pl_hash <$> processed_log y.2))
  /\ (forall h, CheckProcessed h (processed_log x.2) = true ->
                CheckProcessed h (processed_log y.2) = true).
Proof.
  intros [data pool s|i now latencyMs ph pool s Hi]; cbn [snd]; [done|].
  apply stepHandler_ledger.
Qed.

Lemma steps_ledger (x y : list Phase * State) :
  rtc step x y ->
  (NoDup (pl_hash <$> processed_log x.2) -> NoDup (pl_hash <$> processed_log y.2))
  /\ (forall h, CheckProcessed h (processed_log x.2) = true ->
                CheckProcessed h (processed_log y.2) = true).
Proof.
  induction 1 as [x|x y z Hxy _ IH]; [done|].
  destruct (step_ledger x y Hxy) as [H1 H2]. destruct IH as [H3 H4].
  split; [tauto|]. intros h Hh. by apply H4, H2.
Qed.

Lemma spawn_step (data : bytes) (x : list Phase * State) : rtc step x (spawn data x).
Proof. destruct x as [pool s]. apply rtc_once. apply step_spawn. Qed.

Lemma moveAt_step (now latencyMs : Z) (i : nat) (x : list Phase * State) :
  rtc step x (moveAt now latencyMs i x).
Proof.
  destruct x as [pool s]. unfold moveAt. cbn [fst snd].
  destruct (pool !! i) as [ph|] eqn:E; [|done].
  apply rtc_once. by apply step_move.
Qed.

Lemma handleRequest_parse_error now lat data err s :
  unmarshalRequest data = inl err ->
  handleRequest now lat data s = sendError VNil (-32700) (B "Parse error") (VString err) s.
Proof. intros H. unfold handleRequest, beginRequest. by rewrite H. Qed.

Lemma handleRequest_cached now lat data req s :
  unmarshalRequest data = inr req ->
  skipIdempotence (reqMethod req) = false ->
  CheckProcessed (hashRequest (reqMethod req) (reqParams req)) (processed_log s) = true ->
  handleRequest now lat data s = sendResult (reqID req) cachedResult s.
Proof.
  intros H Hs Hc. unfold handleRequest, beginRequest. by rewrite H, Hs, Hc.
Qed.

Lemma handleRequest_run now lat data req s :
  unmarshalRequest data = inr req ->
  skipIdempotence (reqMethod req) = true
  \/ CheckProcessed (hashRequest (reqMethod req) (reqParams req)) (processed_log s) = false ->
  handleRequest now lat data s
  = finishRequest lat req (hashRequest (reqMethod req) (reqParams req))
      (route now req (hashRequest (reqMethod req) (reqParams req)) s).1
      (route now req (hashRequest (reqMethod req) (reqParams req)) s).2.
Proof.
  intros H Hc. unfold handleRequest, beginRequest. rewrite H.
  destruct Hc as [-> | ->]; cbn; [done|]. by rewrite andb_false_r.
Qed.


Lemma handleRequest_queues now lat data s :
  retry_queue (handleRequest now lat data s) = retry_queue s
  /\ retry_seq (handleRequest now lat data s) = retry_seq s
  /\ dead_letter_queue (handleRequest now lat data s) = dead_letter_queue s
  /\ allowed_attach_paths (handleRequest now lat data s) = allowed_attach_paths s.
Proof.
  unfold handleRequest.
  pose proof (beginRequest_sameTables data s) as (_ & H1 & H2 & H3 & H4).
  destruct (beginRequest data s) as [[d|req hash|req hash o|] s1]; cbn [snd] in *;
    try done.
  destruct (finishRequest_tables lat req hash (route now req hash s1).1
              (route now req hash s1).2) as (-> & -> & -> & -> & _).
  destruct (route_sameTables now req hash s1) as (_ & -> & -> & -> & ->). done.
Qed.


Lemma tick_sameTables l s : sameTables s (tick l s).
Proof. destruct l; cbn; repeat case_match; by repeat split. Qed.


Lemma serve_queues inputs s :
  retry_queue (serve inputs s) = retry_queue s
  /\ retry_seq (serve inputs s) = retry_seq s
  /\ dead_letter_queue (serve inputs s) = dead_letter_queue s
  /\ allowed_attach_paths (serve inputs s) = allowed_attach_paths s.
Proof.
  revert s. unfold serve. induction inputs as [|i inputs IH]; intros s; [done|].
  cbn [fold_left]. destruct (IH (serveOne s i)) as (-> & -> & -> & ->).
  destruct i as [now lat data|l]; cbn [serveOne].
  - apply handleRequest_queues.
  - by destruct (tick_sameTables l s) as (_ & -> & -> & -> & ->).
Qed.

Local Open Scope Z_scope.

Lemma dueRows_single (nowSec : Z) (r : RetryRow) :
  rq_status r = B "pending" -> rq_next_retry_at r <= nowSec -> dueRows nowSec [r] = [r].
Proof.
  intros Hs Hn. unfold dueRows. rewrite filter_cons, filter_nil.
  by rewrite decide_True.
Qed.

Lemma dueRows_not_pending (nowSec : Z) (r : RetryRow) :
  rq_status r <> B "pending" -> dueRows nowSec [r] = [].
Proof.
  intros Hs. unfold dueRows. rewrite filter_cons, filter_nil.
  by rewrite decide_False by tauto.
Qed.

Lemma dueRows_early (nowSec : Z) (r : RetryRow) :
  nowSec < rq_next_retry_at r -> dueRows nowSec [r] = [].
Proof.
  intros Hs. unfold dueRows. rewrite filter_cons, filter_nil.
  by rewrite decide_False by lia.
Qed.

(** A sweep over a queue that holds one due row whose tool fails. *)
Lemma sweep_failure (nowSec : Z) (r : RetryRow) (tool : Tool) (err : bytes) (s : State) :
  retry_queue s = [r] ->
  rq_status r = B "pending" ->
  rq_next_retry_at r <= nowSec ->
  Tools.Get (rq_tool_name r) (tools s) = Some tool ->
  (executeTool tool (unmarshalArgs (rq_params_json r)) (world s)).1 = inl err ->
  tools (ProcessRetryQueue nowSec s) = tools s
  /\ (rq_max_attempts r <= rq_attempt_number r ->
        retry_queue (ProcessRetryQueue nowSec s) = [withStatus (B "exhausted") r]
        /\ dead_letter_queue (ProcessRetryQueue nowSec s)
           = dead_letter_queue s
             ++ [mkDeadLetter (rq_request_id r) (rq_tool_name r) (rq_params_json r) err
                   (rq_attempt_number r) 0 nowSec])
  /\ (rq_attempt_number r < rq_max_attempts r ->
        retry_queue (ProcessRetryQueue nowSec s)
        = [rearm (rq_attempt_number r + 1) (wrap64 (rq_backoff_seconds r * 2))
             (nowSec + wrap64 (rq_backoff_seconds r * 2)) err r]
        /\ dead_letter_queue (ProcessRetryQueue nowSec s) = dead_letter_queue s).
Proof.
  intros Hq Hs Hn Ht He. unfold ProcessRetryQueue. rewrite Hq, dueRows_single by done.
  cbn [fold_left]. unfold processRetryRow.
  cbn [tools world set_retry_queue retry_queue]. rewrite Ht.
  destruct (executeTool tool (unmarshalArgs (rq_params_json r)) (world s)) as [[e|?] w'];
    cbn [fst] in He; [|done]. injection He as ->.
  rewrite Hq. cbn [updateRetry fmap list_fmap]. rewrite bool_decide_eq_true_2 by done.
  destruct (Z.leb_spec (rq_max_attempts r) (rq_attempt_number r)) as [Hx|Hx].
  - split; [done|]. split; [|lia]. intros _.
    cbn [retry_queue dead_letter_queue set_retry_queue set_dead_letter_queue set_world
           updateRetry fmap list_fmap].
    rewrite bool_decide_eq_true_2 by done. done.
  - split; [done|]. split; [lia|]. intros _.
    cbn [retry_queue dead_letter_queue set_retry_queue set_dead_letter_queue set_world
           updateRetry fmap list_fmap].
    rewrite bool_decide_eq_true_2 by done. done.
Qed.

End ServerFacts.


(** ** Claims about the ledger *)

Section LedgerClaims.

Import Database Server Spec.

(** C1. The fingerprint is the key of [processed_log]: starting from a
    ledger that respects the key, whatever lines arrive and however the
    handler goroutines interleave, the ledger holds at most one row for any
    fingerprint. [MarkProcessed] is a plain INSERT: it appends the row when
    the fingerprint is new and is refused, leaving the ledger as it was, when
    it is not. The INSERT is the commit point: the handler's last move leaves
    its fingerprint in the ledger, and a fingerprint once in the ledger stays
    there through every later move. *)
Theorem ledger_one_row_per_fingerprint `{rt : Runtime}
    (pool pool' : list Phase) (s s' : State) (h rid tool st rh : bytes) (ms now : Z)
    (req : JSONRPCRequest) (outcome : RPCError + GoValue) :
  NoDup (pl_hash <$> processed_log s) ->
  rtc step (pool, s) (pool', s') ->
  length (rowsFor h (processed_log s')) <= 1
  /\ (CheckProcessed h (processed_log s') = true ->
        MarkProcessed h rid tool st rh ms (processed_log s')
        = (Some (B "UNIQUE constraint failed: processed_log.hash"), processed_log s'))
  /\ (CheckProcessed h (processed_log s') = false ->
        MarkProcessed h rid tool st rh ms (processed_log s')
        = (None, processed_log s' ++ [mkProcessed h rid tool st rh ms]))
  /\ CheckProcessed h
       (processed_log (stepHandler now ms (Committing req h outcome) s').2) = true
  /\ (CheckProcessed h (processed_log s) = true ->
        CheckProcessed h (processed_log s') = true).
Proof.
  intros Hkey Hrun.
  destruct (steps_ledger _ _ Hrun) as [Hnodup Hmono]. cbn [snd] in *.
  split; [|split; [|split; [|split]]].
  - apply rowsFor_NoDup. by apply Hnodup.
  - intros H. unfold MarkProcessed. by rewrite H.
  - intros H. unfold MarkProcessed. by rewrite H.
  - cbn [stepHandler snd]. rewrite finishRequest_ledger. apply MarkProcessed_present.
  - apply Hmono.
Qed.

End LedgerClaims.

(** ** Claims about dispatch *)

Section DispatchClaims.

Import Database Server Spec.

Context `{rt : Runtime}.







Lemma handleToolsCall_failure (now : Z) (params h nm err : bytes) (arguments : Args)
    (tool : Tool) (s : State) :
  unmarshalCallParams params = inr (nm, arguments) ->
  nm <> B "browser" -> nm <> B "brainloop" ->
  Tools.Get nm (tools s) = Some tool ->
  (Circuit.CanExecute now (Circuit.Get now nm (circuits s)).1).1.1 = true ->
  (executeTool tool arguments (world s)).1 = inl err ->
  (handleToolsCall now params h s).1
  = inl (mkRPCError (-32000) (B "Tool execution failed") (VString err))
  /\ circuits (handleToolsCall now params h s).2 !! nm
     = Some (Circuit.RecordFailure now
               (Circuit.CanExecute now (Circuit.Get now nm (circuits s)).1).2).
Proof.
  intros Hp Hb Hl Ht Hc He. unfold handleToolsCall. rewrite Hp.
  rewrite (bool_decide_eq_false_2 _ Hb), (bool_decide_eq_false_2 _ Hl), Ht.
  destruct (Circuit.Get now nm (circuits s)) as [breaker m]. cbn [fst] in Hc |- *.
  destruct (Circuit.CanExecute now breaker) as [[ok e] b']. cbn [fst] in Hc. subst ok.
  destruct (executeTool tool arguments (world s)) as [[e'|r] w']; cbn [fst] in He; [|done].
  injection He as ->. cbn. split; [done|]. apply lookup_insert_eq.
Qed.

(** C5, as the code has it. The dispatcher enqueues nothing: whatever
    lines are handled and whichever loops tick, the retry queue and the dead
    letters are what they were. A [tools/call] whose tool fails records the
    failure on the breaker of the tool, returns the error -32000 (Tool
    execution failed) at once and leaves the retry queue alone. None of the
    loops [Start] launches touches the retry queue: there is no sweeper
    among them. A retry record exists only through [AddRetryJob], which
    appends a pending row with attempt 1, a backoff of 2 seconds and
    [next_retry_at] two seconds from now; such rows are processed only by a
    call of [ProcessRetryQueue]. *)
Theorem failed_calls_enqueue_nothing
    (s : State) (inputs : list Input) (now nowSec maxAttempts : Z)
    (params h nm err requestID toolName : bytes) (arguments args : Args) (tool : Tool)
    (l : Loop) :
  (retry_queue (serve inputs s) = retry_queue s
   /\ dead_letter_queue (serve inputs s) = dead_letter_queue s)
  /\ retry_queue (handleToolsCall now params h s).2 = retry_queue s
  /\ (unmarshalCallParams params = inr (nm, arguments) ->
        nm <> B "browser" -> nm <> B "brainloop" ->
        Tools.Get nm (tools s) = Some tool ->
        (Circuit.CanExecute now (Circuit.Get now nm (circuits s)).1).1.1 = true ->
        (executeTool tool arguments (world s)).1 = inl err ->
        (handleToolsCall now params h s).1
        = inl (mkRPCError (-32000) (B "Tool execution failed") (VString err))
        /\ circuits (handleToolsCall now params h s).2 !! nm
           = Some (Circuit.RecordFailure now
                     (Circuit.CanExecute now (Circuit.Get now nm (circuits s)).1).2))
  /\ (In l startedLoops -> retry_queue (tick l s) = retry_queue s)
  /\ retry_queue (AddRetryJob nowSec requestID toolName args maxAttempts s)
     = retry_queue s
       ++ [mkRetry (retry_seq s + 1) requestID toolName (marshalOrEmpty (VMap args))
             1 maxAttempts (nowSec + 2) 2 (B "pending") None].
Proof.
  split; [|split; [|split; [|split]]].
  - by destruct (serve_queues inputs s) as (-> & _ & -> & _).
  - by destruct (handleToolsCall_sameTables now params h s) as (_ & -> & _).
  - apply handleToolsCall_failure.
  - intros _. by destruct (tick_sameTables l s) as (_ & -> & _).
  - done.
Qed.

Lemma handleToolsCall_whitelist (now : Z) (params h : bytes) (wl : list AttachRow)
    (s : State) :
  (handleToolsCall now params h (set_allowed_attach_paths wl s)).1
  = (handleToolsCall now params h s).1.
Proof.
  unfold handleToolsCall. cbn [world tools circuits processed_log set_allowed_attach_paths].
  repeat case_match; simplify_eq/=; try done.
Qed.

End DispatchClaims.

(** ** Claims about the retry queue and the whitelist *)

Section RetryClaims.

Import Database Server Spec.

Context `{rt : Runtime}.

Local Open Scope Z_scope.

Lemma processRetryRow_exhausted (tool : Tool) (nowSec : Z) (r : RetryRow) (st : State)
    (err : bytes) :
  Tools.Get (rq_tool_name r) (tools st) = Some tool ->
  (executeTool tool (unmarshalArgs (rq_params_json r)) (world st)).1 = inl err ->
  rq_max_attempts r <= rq_attempt_number r ->
  dead_letter_queue (processRetryRow nowSec r st)
  = dead_letter_queue st
    ++ [mkDeadLetter (rq_request_id r) (rq_tool_name r) (rq_params_json r) err
          (rq_attempt_number r) 0 nowSec]
  /\ retry_queue (processRetryRow nowSec r st)
     = updateRetry (rq_id r) (withStatus (B "exhausted"))
         (updateRetry (rq_id r) (withStatus (B "processing")) (retry_queue st))
  /\ length (retry_queue (processRetryRow nowSec r st)) = length (retry_queue st).
Proof.
  intros Ht He Hx. unfold processRetryRow.
  cbn [tools world set_retry_queue retry_queue]. rewrite Ht.
  destruct (executeTool tool (unmarshalArgs (rq_params_json r)) (world st)) as [[e|?] w'];
    cbn [fst] in He; [|done]. injection He as ->.
  destruct (Z.leb_spec (rq_max_attempts r) (rq_attempt_number r)); [|lia].
  cbn [retry_queue dead_letter_queue set_retry_queue set_dead_letter_queue set_world].
  split; [done|]. split; [done|]. unfold updateRetry. by rewrite !length_fmap.
Qed.

(** C4, as the code has it. When a swept retry fails and the attempt
    counter has reached [max_attempts], the sweep appends one row to the
    dead-letter table, with the request, the tool, the parameters, the text
    of the error and the attempt count, and sets the status of the retry row
    to exhausted: the row is kept, not deleted, and the queue is as long as
    before. For a job queued with [max_attempts] 3 whose tool always fails,
    swept when due: the row waits 2, then 4, then 8 seconds (attempts 1, 2,
    3, each time pending again); the third failure leaves exactly one
    dead-letter row and the retry row with status exhausted, and a later
    sweep changes nothing. *)
Theorem exhausted_retry_goes_to_dead_letter
    (s : State) (tool : Tool) (requestID toolName : bytes) (args : Args)
    (t0 t1 t2 t3 t4 : Z) :
  retry_queue s = [] ->
  Tools.Get toolName (tools s) = Some tool ->
  (forall w, exists err,
      (executeTool tool (unmarshalArgs (marshalOrEmpty (VMap args))) w).1 = inl err) ->
  t0 + 2 <= t1 -> t1 + 4 <= t2 -> t2 + 8 <= t3 ->
  (forall (nowSec : Z) (r : RetryRow) (st : State) (err : bytes),
      Tools.Get (rq_tool_name r) (tools st) = Some tool ->
      (executeTool tool (unmarshalArgs (rq_params_json r)) (world st)).1 = inl err ->
      rq_max_attempts r <= rq_attempt_number r ->
      dead_letter_queue (processRetryRow nowSec r st)
      = dead_letter_queue st
        ++ [mkDeadLetter (rq_request_id r) (rq_tool_name r) (rq_params_json r) err
              (rq_attempt_number r) 0 nowSec]
      /\ retry_queue (processRetryRow nowSec r st)
         = updateRetry (rq_id r) (withStatus (B "exhausted"))
             (updateRetry (rq_id r) (withStatus (B "processing")) (retry_queue st))
      /\ length (retry_queue (processRetryRow nowSec r st)) = length (retry_queue st))
  /\ exists e1 e2 e3 : bytes,
    retry_queue (AddRetryJob t0 requestID toolName args 3 s)
    = [mkRetry (retry_seq s + 1) requestID toolName (marshalOrEmpty (VMap args))
         1 3 (t0 + 2) 2 (B "pending") None]
    /\ retry_queue (ProcessRetryQueue t1 (AddRetryJob t0 requestID toolName args 3 s))
       = [mkRetry (retry_seq s + 1) requestID toolName (marshalOrEmpty (VMap args))
            2 3 (t1 + 4) 4 (B "pending") (Some e1)]
    /\ retry_queue
         (ProcessRetryQueue t2
            (ProcessRetryQueue t1 (AddRetryJob t0 requestID toolName args 3 s)))
       = [mkRetry (retry_seq s + 1) requestID toolName (marshalOrEmpty (VMap args))
            3 3 (t2 + 8) 8 (B "pending") (Some e2)]
    /\ dead_letter_queue
         (ProcessRetryQueue t2
            (ProcessRetryQueue t1 (AddRetryJob t0 requestID toolName args 3 s)))
       = dead_letter_queue s
    /\ retry_queue
         (ProcessRetryQueue t3
            (ProcessRetryQueue t2
               (ProcessRetryQueue t1 (AddRetryJob t0 requestID toolName args 3 s))))
       = [mkRetry (retry_seq s + 1) requestID toolName (marshalOrEmpty (VMap args))
            3 3 (t2 + 8) 8 (B "exhausted") (Some e2)]
    /\ dead_letter_queue
         (ProcessRetryQueue t3
            (ProcessRetryQueue t2
               (ProcessRetryQueue t1 (AddRetryJob t0 requestID toolName args 3 s))))
       = dead_letter_queue s
         ++ [mkDeadLetter requestID toolName (marshalOrEmpty (VMap args)) e3 3 0 t3]
    /\ ProcessRetryQueue t4
         (ProcessRetryQueue t3
            (ProcessRetryQueue t2
               (ProcessRetryQueue t1 (AddRetryJob t0 requestID toolName args 3 s))))
       = ProcessRetryQueue t3
           (ProcessRetryQueue t2
              (ProcessRetryQueue t1 (AddRetryJob t0 requestID toolName args 3 s))).
Proof.
  intros Hq Ht Hfail H1 H2 H3. split; [by apply processRetryRow_exhausted|].
  set (s0 := AddRetryJob t0 requestID toolName args 3 s).
  set (r0 := mkRetry (retry_seq s + 1) requestID toolName (marshalOrEmpty (VMap args))
               1 3 (t0 + 2) 2 (B "pending") None).
  assert (Q0 : retry_queue s0 = [r0]) by (unfold s0, AddRetryJob; cbn; by rewrite Hq).
  assert (T0 : tools s0 = tools s) by done.
  assert (D0 : dead_letter_queue s0 = dead_letter_queue s) by done.
  destruct (Hfail (world s0)) as [e1 E1].
  destruct (sweep_failure t1 r0 tool e1 s0 Q0 eq_refl ltac:(cbn; lia)
              ltac:(by rewrite T0) E1) as (T1 & _ & A1).
  destruct (A1 ltac:(cbn; lia)) as [Q1 D1]. clear A1.
  set (s1 := ProcessRetryQueue t1 s0) in *.
  change (wrap64 (rq_backoff_seconds r0 * 2)) with 4 in Q1.
  set (r1 := rearm (rq_attempt_number r0 + 1) 4 (t1 + 4) e1 r0) in *.
  destruct (Hfail (world s1)) as [e2 E2].
  destruct (sweep_failure t2 r1 tool e2 s1 Q1 eq_refl ltac:(cbn; lia)
              ltac:(by rewrite T1, T0) E2) as (T2 & _ & A2).
  destruct (A2 ltac:(cbn; lia)) as [Q2 D2]. clear A2.
  set (s2 := ProcessRetryQueue t2 s1) in *.
  change (wrap64 (rq_backoff_seconds r1 * 2)) with 8 in Q2.
  set (r2 := rearm (rq_attempt_number r1 + 1) 8 (t2 + 8) e2 r1) in *.
  destruct (Hfail (world s2)) as [e3 E3].
  destruct (sweep_failure t3 r2 tool e3 s2 Q2 eq_refl ltac:(cbn; lia)
              ltac:(by rewrite T2, T1, T0) E3) as (T3 & A3 & _).
  destruct (A3 ltac:(cbn; lia)) as [Q3 D3]. clear A3.
  set (s3 := ProcessRetryQueue t3 s2) in *.
  exists e1, e2, e3.
  split; [done|]. split; [done|]. split; [done|].
  split; [by rewrite D2, D1, D0|]. split; [done|].
  split; [by rewrite D3, D2, D1, D0|].
  unfold ProcessRetryQueue at 1. rewrite Q3, dueRows_not_pending; [done|].
  cbn. by vm_compute.
Qed.

End RetryClaims.

(** * Further properties of the code *)

(** ** What the escaping functions let through *)

Section EscapingFacts.

Import Template Chromium Quoting.

Lemma byteZ_zbyte (z : Z) : (0 <= z < 256)%Z -> byteZ (zbyte z) = z.
Proof.
  intros H. unfold byteZ, zbyte.
  rewrite N_ascii_embedding; lia.
Qed.

Lemma encodeRune_high (r : Z) :
  (128 <= r)%Z -> Forall (fun c => (128 <= byteZ c)%Z) (encodeRune r).
Proof.
  intros H. unfold encodeRune.
  repeat case_match; bool_hyps; try lia;
    repeat first [apply List.Forall_nil | apply List.Forall_cons];
    try (rewrite byteZ_zbyte; Z.div_mod_to_equations; lia).
Qed.


Lemma keepRune_high (z : Z) : (128 <= z)%Z -> keepRune z = true.
Proof.
  intros H. unfold keepRune. apply orb_true_iff. right. by apply Z.leb_le.
Qed.

Lemma keepRune_encodeRune (r : Z) :
  keepRune r = true -> Forall (fun c => keepRune (byteZ c) = true) (encodeRune r).
Proof.
  intros H. destruct (Z.le_gt_cases 128 r) as [Hr|Hr].
  - eapply Forall_impl; [by apply encodeRune_high|].
    intros c Hc. by apply keepRune_high.
  - assert (0 <= r)%Z as H0 by (unfold keepRune in H; bool_hyps; lia).
    unfold encodeRune.
    replace ((0 <=? r)%Z && (r <=? 127)%Z) with true
      by (symmetry; apply andb_true_iff; split; [apply Z.leb_le|apply Z.leb_le]; lia).
    apply List.Forall_cons; [|apply List.Forall_nil].
    rewrite byteZ_zbyte by lia. done.
Qed.

(** X1. Whatever bytes a value holds, every byte of what
    [sanitizeSQLValue] returns passes the test of its last loop: it is a
    line feed, a tab, a carriage return, a printable ASCII character or a
    byte from 128 up. No NUL, no DEL and no other control byte comes
    out. *)
Theorem sanitized_value_has_no_control_byte (value : bytes) :
  Forall (fun c => keepRune (byteZ c) = true) (sanitizeSQLValue value).
Proof.
  unfold sanitizeSQLValue, filterControl.
  apply Forall_concat, Forall_fmap, Forall_forall. intros r _. simpl.
  destruct (keepRune r) eqn:Hk; [by apply keepRune_encodeRune|apply List.Forall_nil].
Qed.

Lemma firstByte_bounds (b : Z) (sz : nat) (lo hi : Z) :
  firstByte b = Some (sz, lo, hi) -> (128 <= lo)%Z /\ (2 <= sz <= 4)%nat.
Proof. unfold firstByte. repeat case_match; intros; simplify_eq; lia. Qed.

(** The bytes a decoded rune spans after its first are continuation
    bytes. *)
Lemma decodeRune_continuation (s : bytes) (j : nat) (c : ascii) :
  (0 < j < (decodeRune s).2)%nat -> s !! j = Some c -> (128 <= byteZ c)%Z.
Proof.
  unfold decodeRune.
  destruct s as [|c0 t]; [simpl; lia|].
  destruct (byteZ c0 <? 128)%Z; [simpl; lia|].
  destruct (firstByte (byteZ c0)) as [[[sz lo] hi]|] eqn:Hf; [|simpl; lia].
  apply firstByte_bounds in Hf as [Hlo Hsz].
  destruct (length (c0 :: t) <? sz)%nat; [simpl; lia|].
  destruct t as [|c1 t1]; [simpl; lia|].
  destruct ((byteZ c1 <? lo)%Z || (hi <? byteZ c1)%Z) eqn:H1; [simpl; lia|].
  bool_hyps.
  destruct (sz <=? 2)%nat.
  { simpl. intros Hj. assert (j = 1)%nat as -> by lia. simpl. intros; simplify_eq. lia. }
  destruct t1 as [|c2 t2]; [simpl; lia|].
  destruct (isCont (byteZ c2)) eqn:H2; [|simpl; lia]. simpl negb. cbv iota.
  unfold isCont in H2. bool_hyps.
  destruct (sz <=? 3)%nat.
  { simpl. intros Hj.
    destruct j as [|[|[|j]]]; try lia; simpl; intros; simplify_eq; lia. }
  destruct t2 as [|c3 t3]; [simpl; lia|].
  destruct (isCont (byteZ c3)) eqn:H3; [|simpl; lia]. simpl negb. cbv iota.
  unfold isCont in H3. bool_hyps.
  simpl. intros Hj.
  destruct j as [|[|[|[|j]]]]; try lia; simpl; intros; simplify_eq; lia.
Qed.

Lemma sqlLiteralBody_skip (a x : bytes) :
  Forall (fun c => c <> "'"%char) a -> sqlLiteralBody (a ++ x) = sqlLiteralBody x.
Proof.
  induction 1 as [|c a Hc _ IH]; [done|].
  simpl. by rewrite bool_decide_eq_false_2.
Qed.

Lemma high_not_quote (c : ascii) : (128 <= byteZ c)%Z -> c <> "'"%char.
Proof. intros H ->. vm_compute in H. by apply H. Qed.

Lemma keepRune_not_quote (r : Z) :
  r <> 39%Z ->
  Forall (fun c => c <> "'"%char) (if keepRune r then encodeRune r else []).
Proof.
  intros Hr. destruct (keepRune r) eqn:Hk; [|apply List.Forall_nil].
  destruct (Z.le_gt_cases 128 r) as [Hh|Hh].
  - eapply Forall_impl; [by apply encodeRune_high|]. apply high_not_quote.
  - assert (0 <= r)%Z as H0 by (unfold keepRune in Hk; bool_hyps; lia).
    unfold encodeRune.
    replace ((0 <=? r)%Z && (r <=? 127)%Z) with true
      by (symmetry; apply andb_true_iff; split; [apply Z.leb_le|apply Z.leb_le]; lia).
    apply List.Forall_cons; [|apply List.Forall_nil].
    intros E. apply (f_equal byteZ) in E. rewrite byteZ_zbyte in E by lia.
    by vm_compute in E.
Qed.

(** The rune loop of [sanitizeSQLValue] keeps the quotes of a text in
    pairs. [k] bytes of [s] are still to be skipped: they are the
    continuation bytes of the rune read last. *)
Lemma filter_keeps_pairs (n : nat) : forall (s : bytes) (k i : nat),
  (length s <= n)%nat ->
  (forall j c, (j < k)%nat -> s !! j = Some c -> (128 <= byteZ c)%Z) ->
  sqlLiteralBody (drop k s) = true ->
  sqlLiteralBody
    (concat ((fun r => if keepRune r then encodeRune r else []) <$> (rangeFrom k i s).*2))
  = true.
Proof.
  induction n as [n IH] using lt_wf_ind. intros s k i Hn Hk Hq.
  destruct s as [|c s']; [done|].
  destruct k as [|k].
  - cbn [rangeFrom]. rewrite fmap_cons, fmap_cons. cbn [concat snd].
    rewrite drop_0 in Hq.
    destruct (decide (c = "'"%char)) as [->|Hc].
    + cbn [sqlLiteralBody] in Hq. rewrite bool_decide_eq_true_2 in Hq by done.
      destruct s' as [|d s'']; [done|].
      apply andb_true_iff in Hq as [Hd Hq]. apply bool_decide_eq_true in Hd as ->.
      rewrite decodeRune_ascii by (vm_compute; done).
      cbn [fst snd Nat.sub rangeFrom].
      rewrite fmap_cons, fmap_cons. cbn [concat snd].
      rewrite decodeRune_ascii by (vm_compute; done).
      cbn [fst snd Nat.sub].
      change (encodeRune (byteZ "'")) with (B "'").
      change (keepRune (byteZ "'")) with true. cbv iota.
      change (B "'" ++ B "'" ++ ?x) with ("'"%char :: "'"%char :: x).
      cbn [sqlLiteralBody]. rewrite !bool_decide_eq_true_2 by done. simpl andb.
      apply (IH (length s'')); [simpl in Hn |- *; lia|done|intros; lia|by rewrite drop_0].
    + rewrite sqlLiteralBody_skip.
      2:{ apply keepRune_not_quote.
          destruct (Z.lt_ge_cases (byteZ c) 128) as [Hlo|Hhi].
          - rewrite decodeRune_ascii by done. simpl. intros E. apply Hc.
            rewrite <- (zbyte_byteZ c), E. done.
          - pose proof (decodeRune_high c s' Hhi). lia. }
      cbn [sqlLiteralBody] in Hq. rewrite bool_decide_eq_false_2 in Hq by done.
      destruct (Z.lt_ge_cases (byteZ c) 128) as [Hlo|Hhi].
      * rewrite decodeRune_ascii by done. cbn [snd Nat.sub].
        apply (IH (length s')); [simpl in Hn; lia|done|intros; lia|by rewrite drop_0].
      * assert (forall j d, (j < (decodeRune (c :: s')).2 - 1)%nat -> s' !! j = Some d ->
                            (128 <= byteZ d)%Z) as Hcont.
        { intros j d Hj Hd.
          apply (decodeRune_continuation (c :: s') (S j) d); [lia|done]. }
        apply (IH (length s')); [simpl in Hn; lia|done|done|].
        clear IH Hn Hk. revert Hcont Hq.
        generalize ((decodeRune (c :: s')).2 - 1)%nat. intros m. revert s'.
        induction m as [|m IHm]; intros s' Hcont Hq; [by rewrite drop_0|].
        destruct s' as [|d s'']; [done|].
        cbn [drop]. apply IHm.
        -- intros j e Hj He. apply (Hcont (S j) e); [lia|done].
        -- cbn [sqlLiteralBody] in Hq.
           rewrite bool_decide_eq_false_2 in Hq; [done|].
           apply high_not_quote, (Hcont 0%nat d); [lia|done].
  - cbn [rangeFrom]. cbn [drop] in Hq.
    apply (IH (length s')); [simpl in Hn; lia|done| |done].
    intros j d Hj Hd. apply (Hk (S j) d); [lia|done].
Qed.

Lemma doubled_quotes_paired (s : bytes) :
  sqlLiteralBody (replaceAll s (B "'") (B "''")) = true.
Proof.
  change (B "'") with ["'"%char]. rewrite replaceAll_single.
  induction s as [|c s IH]; [done|].
  rewrite fmap_cons. cbn [concat]. case_bool_decide as Hc.
  - subst c. change (B "''" ++ ?x) with ("'"%char :: "'"%char :: x).
    cbn [sqlLiteralBody]. by rewrite !bool_decide_eq_true_2.
  - change ([c] ++ ?x) with (c :: x). cbn [sqlLiteralBody].
    by rewrite bool_decide_eq_false_2.
Qed.

(** X2. Whatever bytes a value holds, valid UTF-8 or not, what
    [sanitizeSQLValue] returns reads as the inside of a single-quoted SQL
    literal: every single quote in it is one of an adjacent pair, so the
    value cannot close the literal it is put in. The rune loop that drops
    control characters runs after the quotes are doubled and never splits a
    pair, because a quote is never a continuation byte of a rune. *)
Theorem sanitized_value_keeps_quotes_paired (value : bytes) :
  sqlLiteralBody (sanitizeSQLValue value) = true.
Proof.
  unfold sanitizeSQLValue, filterControl, runes, rangeRunes.
  apply (filter_keeps_pairs _ _ 0 0 (Nat.le_refl _)); [intros; lia|].
  rewrite drop_0. apply doubled_quotes_paired.
Qed.

Lemma hexDigit_range (n : Z) :
  (0 <= n < 16)%Z ->
  (48 <= byteZ (hexDigit n) <= 57)%Z \/ (97 <= byteZ (hexDigit n) <= 102)%Z.
Proof.
  intros H. unfold hexDigit. case_match; bool_hyps; rewrite byteZ_zbyte; lia.
Qed.

Lemma hexDigit_isHexDigit (n : Z) : (0 <= n < 16)%Z -> isHexDigit (hexDigit n) = true.
Proof.
  intros H. unfold isHexDigit.
  destruct (hexDigit_range n H) as [[? ?]|[? ?]].
  - apply orb_true_iff. left. apply orb_true_iff. left.
    apply andb_true_iff. split; by apply Z.leb_le.
  - apply orb_true_iff. left. apply orb_true_iff. right.
    apply andb_true_iff. split; by apply Z.leb_le.
Qed.

Lemma jsonStringBody_plain (c : ascii) (x : bytes) :
  (32 <= byteZ c)%Z -> byteZ c <> 34%Z -> byteZ c <> 92%Z ->
  jsonStringBody (c :: x) = jsonStringBody x.
Proof.
  intros H1 H2 H3. cbn [jsonStringBody].
  rewrite bool_decide_eq_false_2 by (intros ->; by apply H3).
  rewrite bool_decide_eq_false_2 by (intros ->; by apply H2).
  by rewrite (proj2 (Z.ltb_ge _ _) H1).
Qed.

Lemma jsonStringBody_skip (a x : bytes) :
  Forall (fun c => (128 <= byteZ c)%Z) a -> jsonStringBody (a ++ x) = jsonStringBody x.
Proof.
  induction 1 as [|c a Hc _ IH]; [done|].
  rewrite <- app_comm_cons, jsonStringBody_plain; [done|lia..].
Qed.

Lemma jsonStringBody_token (r : Z) (x : bytes) :
  jsonStringBody (escapeJSONRune r ++ x) = jsonStringBody x.
Proof.
  unfold escapeJSONRune.
  repeat case_match; try done.
  - unfold unicodeEscape. bool_hyps.
    change (jsonStringBody ((B "\u" ++ ?l) ++ x))
      with (jsonStringBody (backslash :: "u"%char :: l ++ x)).
    cbn [jsonStringBody app]. 
    rewrite bool_decide_eq_true_2 by done. rewrite bool_decide_eq_true_2 by done.
    rewrite !hexDigit_isHexDigit by (apply Z.mod_pos_bound; lia). done.
  - bool_hyps.
    destruct (Z.le_gt_cases 128 r) as [Hh|Hh].
    + apply jsonStringBody_skip. by apply encodeRune_high.
    + unfold encodeRune.
      replace ((0 <=? r)%Z && (r <=? 127)%Z) with true
        by (symmetry; apply andb_true_iff; split; [apply Z.leb_le|apply Z.leb_le]; lia).
      change ([?c] ++ x) with (c :: x).
      apply jsonStringBody_plain; rewrite byteZ_zbyte; lia.
Qed.

(** X3. Whatever bytes a value holds, what [escapeJSONValue] returns
    is a well-formed body of a JSON string: it holds no raw double quote and
    no raw control character, and every backslash in it starts one of the
    escapes of the grammar (a doubled backslash, an escaped quote, n, r, t,
    or u with four hexadecimal digits). *)
Theorem escaped_value_is_a_json_string_body (value : bytes) :
  jsonStringBody (escapeJSONValue value) = true.
Proof.
  unfold escapeJSONValue. induction (runes value) as [|r l IH]; [done|].
  rewrite fmap_cons. cbn [concat]. by rewrite jsonStringBody_token.
Qed.


Definition jsPlain (c : ascii) : Prop :=
  c <> "'"%char /\ c <> zbyte 10 /\ c <> zbyte 13 /\ c <> backslash.

Lemma jsLiteralEnd_plain (a x : bytes) :
  Forall jsPlain a -> jsLiteralEnd (a ++ x) = (fun n => length a + n)%nat <$> jsLiteralEnd x.
Proof.
  induction 1 as [|c a (H1 & H2 & H3 & H4) _ IH].
  - simpl. by destruct (jsLiteralEnd x).
  - rewrite <- app_comm_cons. cbn [jsLiteralEnd].
    rewrite !bool_decide_eq_false_2 by done. simpl orb. cbv iota.
    rewrite IH. by destruct (jsLiteralEnd x).
Qed.

Lemma jsLiteralEnd_escape (e : ascii) (a x : bytes) :
  Forall jsPlain a ->
  jsLiteralEnd (backslash :: e :: a ++ x)
  = (fun n => length (backslash :: e :: a) + n)%nat <$> jsLiteralEnd x.
Proof.
  intros Ha. cbn [jsLiteralEnd].
  rewrite bool_decide_eq_false_2 by done.
  rewrite !bool_decide_eq_false_2 by done. simpl orb. cbv iota.
  rewrite bool_decide_eq_true_2 by done.
  rewrite jsLiteralEnd_plain by done. by destruct (jsLiteralEnd x).
Qed.

Lemma jsPlain_byteZ (c : ascii) :
  byteZ c <> 39%Z -> byteZ c <> 10%Z -> byteZ c <> 13%Z -> byteZ c <> 92%Z -> jsPlain c.
Proof. intros H1 H2 H3 H4. repeat split; intros ->; by vm_compute in *. Qed.

Lemma jsPlain_hexDigit (n : Z) : (0 <= n < 16)%Z -> jsPlain (hexDigit n).
Proof. intros H. pose proof (hexDigit_range n H). apply jsPlain_byteZ; lia. Qed.

Lemma jsLiteralEnd_token (r : Z) (x : bytes) :
  jsLiteralEnd (escapeJSRune r ++ x)
  = (fun n => length (escapeJSRune r) + n)%nat <$> jsLiteralEnd x.
Proof.
  unfold escapeJSRune.
  repeat case_match;
    try (apply (jsLiteralEnd_escape _ []); by apply List.Forall_nil);
    try (apply (jsLiteralEnd_escape _ [_; _]);
         repeat first [apply List.Forall_nil | apply List.Forall_cons];
         by apply jsPlain_byteZ);
    try (apply (jsLiteralEnd_escape _ [_; _; _; _]);
         repeat first [apply List.Forall_nil | apply List.Forall_cons];
         by apply jsPlain_byteZ).
  - apply (jsLiteralEnd_escape _ [_; _]).
    repeat first [apply List.Forall_nil | apply List.Forall_cons];
      apply jsPlain_hexDigit, Z.mod_pos_bound; done.
  - bool_hyps. apply jsLiteralEnd_plain.
    destruct (Z.le_gt_cases 128 r) as [Hh|Hh].
    + eapply Forall_impl; [by apply encodeRune_high|].
      intros c Hc. simpl in Hc. apply jsPlain_byteZ; lia.
    + unfold encodeRune.
      replace ((0 <=? r)%Z && (r <=? 127)%Z) with true
        by (symmetry; apply andb_true_iff; split; [apply Z.leb_le|apply Z.leb_le]; lia).
      apply List.Forall_cons; [|apply List.Forall_nil].
      apply jsPlain_byteZ; rewrite byteZ_zbyte; lia.
Qed.

Lemma jsLiteralEnd_escaped (s rest : bytes) :
  jsLiteralEnd (escapeJSString s ++ "'"%char :: rest) = Some (length (escapeJSString s)).
Proof.
  unfold escapeJSString. induction (runes s) as [|r l IH].
  - done.
  - rewrite fmap_cons. cbn [concat]. rewrite <- app_assoc, jsLiteralEnd_token, IH.
    simpl. by rewrite length_app.
Qed.

Lemma escapeJSRune_no_angle (r : Z) :
  Forall (fun c => c <> "<"%char /\ c <> ">"%char) (escapeJSRune r).
Proof.
  assert (forall c, byteZ c <> 60%Z -> byteZ c <> 62%Z -> c <> "<"%char /\ c <> ">"%char)
    as Hz by (intros c H1 H2; split; intros ->; by vm_compute in * ).
  unfold escapeJSRune.
  repeat case_match;
    try (repeat first [apply List.Forall_nil | apply List.Forall_cons]; by apply Hz).
  - repeat first [apply List.Forall_nil | apply List.Forall_cons];
      try (by apply Hz);
      match goal with
      | |- context [hexDigit ?n] =>
          pose proof (hexDigit_range n ltac:(apply Z.mod_pos_bound; lia)); apply Hz; lia
      end.
  - bool_hyps.
    destruct (Z.le_gt_cases 128 r) as [Hh|Hh].
    + eapply Forall_impl; [by apply encodeRune_high|].
      intros c Hc. simpl in Hc. apply Hz; lia.
    + unfold encodeRune.
      replace ((0 <=? r)%Z && (r <=? 127)%Z) with true
        by (symmetry; apply andb_true_iff; split; [apply Z.leb_le|apply Z.leb_le]; lia).
      apply List.Forall_cons; [|apply List.Forall_nil].
      apply Hz; rewrite byteZ_zbyte; lia.
Qed.

(** X4. In the script [Click] evaluates, the single-quoted literal
    opened by the format is closed by the quote of the format and by no byte
    of the selector: read as JavaScript, the literal ends exactly where the
    escaped selector ends, and what follows it is the rest of the format.
    The escaped selector holds no angle bracket either. *)
Theorem click_script_keeps_the_selector_quoted (selector : bytes) :
  take 24 (clickScript selector) = B "document.querySelector('"
  /\ jsLiteralEnd (drop 24 (clickScript selector)) = Some (length (escapeJSString selector))
  /\ drop (24 + length (escapeJSString selector)) (clickScript selector) = B "').click()"
  /\ Forall (fun c => c <> "<"%char /\ c <> ">"%char) (escapeJSString selector).
Proof.
  assert (drop 24 (clickScript selector) = escapeJSString selector ++ B "').click()")
    as Hdrop by done.
  split; [done|]. split; [|split].
  - rewrite Hdrop. apply (jsLiteralEnd_escaped selector (B ").click()")).
  - by rewrite <- drop_drop, Hdrop, drop_app_length.
  - unfold escapeJSString. apply Forall_concat, Forall_fmap, Forall_forall.
    intros r _. apply escapeJSRune_no_angle.
Qed.

End EscapingFacts.

(** ** Templates without placeholders *)

Section TemplateExtras.

Import Template.

Context `{rt : Runtime}.

Lemma replaceFrom_absent (s old new : bytes) :
  index s old = None -> replaceFrom 0 s old new = s.
Proof.
  induction s as [|c s IH]; [done|].
  cbn [index replaceFrom].
  destruct (hasPrefix (c :: s) old); [done|].
  destruct (index s old) eqn:E; [done|]. intros _. by rewrite IH.
Qed.

Lemma replaceAll_absent (s old new : bytes) :
  index s old = None -> replaceAll s old new = s.
Proof. destruct old; [done|]. apply replaceFrom_absent. Qed.

Lemma index_placeholder_absent (s key : bytes) :
  index s (B "{{") = None -> index s (placeholderOf key) = None.
Proof.
  intros H. destruct (index s (placeholderOf key)) as [n|] eqn:E; [|done].
  apply index_Some in E. exfalso.
  apply (index_None _ _ H (take n s)
           (key ++ B "}}" ++ drop (n + length (placeholderOf key)) s)).
  rewrite E at 1. unfold placeholderOf. by rewrite <- !app_assoc.
Qed.

Lemma substituteArg_absent (result : bytes) (kv : bytes * GoValue) :
  index result (B "{{") = None -> substituteArg result kv = result.
Proof.
  intros H. unfold substituteArg.
  destruct (negb (validateParamKey kv.1)); [done|].
  destruct (coerceValue kv.2); [|done].
  apply replaceAll_absent. by apply index_placeholder_absent.
Qed.

(** X5. A template that holds no pair of opening braces comes out of
    [substituteParams] byte for byte as it went in, whatever arguments the
    call carries: arguments reach a statement through placeholders only. *)
Theorem template_without_braces_is_left_alone (template : bytes) (args : Args) :
  index template (B "{{") = None -> substituteParams template args = template.
Proof.
  intros H. unfold substituteParams.
  assert (fold_left substituteArg args template = template) as ->.
  { induction args as [|kv args IH]; [done|].
    simpl. by rewrite substituteArg_absent. }
  destruct (length template); [done|]. cbn [erasePlaceholders]. by rewrite H.
Qed.

End TemplateExtras.

(** ** The breaker over a run of events *)

Section CircuitExtras.

Import Circuit.

Local Open Scope Z_scope.

Lemma run_app (evs evs' : list Event) (b : Breaker) :
  run (evs ++ evs') b = run evs' (run evs b).
Proof. apply fold_left_app. Qed.

Lemma run_failureThreshold (evs : list Event) (b : Breaker) :
  failureThreshold (run evs b) = failureThreshold b.
Proof.
  revert b. induction evs as [|e evs IH]; intros b; [done|].
  cbn [run fold_left]. change (failureThreshold (run evs (apply e b)) = failureThreshold b).
  rewrite IH. by destruct (apply_thresholds e b) as (_ & ? & _).
Qed.

Lemma run_failures_open (nows : list Z) (b : Breaker) :
  state b = StateOpen -> run (Failure <$> nows) b = b.
Proof.
  induction nows as [|now nows IH]; [done|]. intros H.
  cbn [fmap list_fmap run fold_left apply]. unfold RecordFailure. rewrite H.
  by apply IH.
Qed.

Lemma run_failures (nows : list Z) (b : Breaker) :
  state b = StateClosed -> failureCount b < failureThreshold b ->
  if failureCount b + Z.of_nat (length nows) <? failureThreshold b
  then state (run (Failure <$> nows) b) = StateClosed
       /\ failureCount (run (Failure <$> nows) b) = failureCount b + Z.of_nat (length nows)
  else state (run (Failure <$> nows) b) = StateOpen
       /\ failureCount (run (Failure <$> nows) b) = failureThreshold b.
Proof.
  revert b. induction nows as [|now nows IH]; intros b Hs Hlt.
  - simpl. rewrite Z.add_0_r. by rewrite (proj2 (Z.ltb_lt _ _) Hlt).
  - cbn [fmap list_fmap run fold_left apply length].
    change (fold_left (fun b e => apply e b) (Failure <$> nows) ?x)
      with (run (Failure <$> nows) x).
    unfold RecordFailure. rewrite Hs.
    destruct (failureThreshold b <=? failureCount b + 1) eqn:E; bool_hyps.
    + rewrite run_failures_open by done. cbn [state failureCount].
      case_match; bool_hyps; [lia|split; [done|lia]].
    + match goal with |- context [run _ ?x] => specialize (IH x eq_refl) end.
      cbn [state failureCount failureThreshold] in IH. specialize (IH ltac:(lia)).
      replace (failureCount b + Z.of_nat (S (length nows)))
        with (failureCount b + 1 + Z.of_nat (length nows)) by lia.
      done.
Qed.

(** X6. A closed breaker counts consecutive failures. After [k]
    failures in a row it is still closed, with its count raised by [k],
    while the count stays under the threshold, and it is open, with the
    count at the threshold, from the failure that reaches it on. A success
    in between sets the count back to zero: after it the breaker opens only
    after a full threshold of new failures. *)
Theorem consecutive_failures_open_the_breaker
    (b : Breaker) (before after : list Z) (now : Z) :
  state b = StateClosed -> 0 <= failureCount b < failureThreshold b ->
  (if failureCount b + Z.of_nat (length before) <? failureThreshold b
   then state (run (Failure <$> before) b) = StateClosed
        /\ failureCount (run (Failure <$> before) b)
           = failureCount b + Z.of_nat (length before)
   else state (run (Failure <$> before) b) = StateOpen
        /\ failureCount (run (Failure <$> before) b) = failureThreshold b)
  /\ (failureCount b + Z.of_nat (length before) < failureThreshold b ->
        state (run ((Failure <$> before) ++ Success now :: (Failure <$> after)) b)
        = if Z.of_nat (length after) <? failureThreshold b then StateClosed else StateOpen).
Proof.
  intros Hs Hc. split; [apply run_failures; [done|lia]|].
  intros Hlt. pose proof (run_failures before b Hs ltac:(lia)) as H.
  rewrite (proj2 (Z.ltb_lt _ _) Hlt) in H. destruct H as [Hs1 _].
  rewrite run_app. cbn [run fold_left apply].
  change (fold_left (fun b e => apply e b) (Failure <$> after) ?x)
    with (run (Failure <$> after) x).
  unfold RecordSuccess. rewrite Hs1.
  match goal with |- context [run _ ?x] =>
    pose proof (run_failures after x eq_refl) as H end.
  cbn [state failureCount failureThreshold] in H.
  assert (failureThreshold (run (Failure <$> before) b) = failureThreshold b) as Ht.
  { apply run_failureThreshold. }
  rewrite Ht in H |- *. specialize (H ltac:(lia)). rewrite Z.add_0_l in H.
  destruct (Z.of_nat (length after) <? failureThreshold b); by destruct H.
Qed.


(** X7. [Reset] brings a breaker back from any state: it is closed,
    both counts are zero, the next call may execute, and it takes a full
    threshold of consecutive failures to open it again. *)
Theorem reset_closes_and_rearms (b : Breaker) (now now' : Z) (nows : list Z) :
  0 < failureThreshold b ->
  (CanExecute now' (Reset now b)).1.1 = true
  /\ failureCount (Reset now b) = 0
  /\ successCount (Reset now b) = 0
  /\ state (run (Failure <$> nows) (Reset now b))
     = (if Z.of_nat (length nows) <? failureThreshold b then StateClosed else StateOpen).
Proof.
  intros Ht. repeat split.
  pose proof (run_failures nows (Reset now b) eq_refl Ht) as H.
  cbn [Reset failureCount failureThreshold] in H. rewrite Z.add_0_l in H.
  destruct (Z.of_nat (length nows) <? failureThreshold b); by destruct H.
Qed.


(** X8. A half-open breaker that has let its [halfOpenMaxCalls] calls
    through refuses every further call and is left as it is by the refusal,
    however late the call comes: the timeout that leads out of the open state
    does not apply to the half-open state, which only a recorded outcome
    ends. *)
Theorem spent_half_open_breaker_refuses_whatever_the_clock
    (b : Breaker) (nows : list Z) :
  state b = StateHalfOpen -> halfOpenMaxCalls b <= halfOpenCalls b ->
  run (Call <$> nows) b = b
  /\ Forall (fun now => (CanExecute now b).1.1 = false) nows.
Proof.
  intros Hs Hm.
  assert (forall now, CanExecute now b
                      = (false, Some (B "circuit breaker " ++ name b
                                      ++ B ": half-open max calls reached"), b)) as Hc.
  { intros now. unfold CanExecute. rewrite Hs.
    by rewrite (proj2 (Z.leb_le _ _) Hm). }
  split.
  - induction nows as [|now nows IH]; [done|].
    cbn [fmap list_fmap run fold_left apply]. rewrite Hc. apply IH.
  - apply Forall_forall. intros now _. by rewrite Hc.
Qed.

End CircuitExtras.

(** ** The whitelist *)

Section WhitelistExtras.

Import Database.

Lemma AddAllowedAttachPath_NoDup (workerName dbPath dbType : bytes) (t : list AttachRow) :
  NoDup (ap_worker_name <$> t) ->
  NoDup (ap_worker_name <$> AddAllowedAttachPath workerName dbPath dbType t).
Proof.
  intros Hnd. unfold AddAllowedAttachPath. rewrite fmap_app. apply NoDup_app.
  split; [|split].
  - induction t as [|r t IH]; [constructor|].
    cbn [fmap list_fmap] in Hnd. apply NoDup_cons in Hnd as [Hr Hnd].
    destruct (decide (ap_worker_name r <> workerName)).
    + rewrite filter_cons_True by done. cbn [fmap list_fmap]. apply NoDup_cons.
      split; [|by apply IH].
      intros Hin. apply Hr. apply list_elem_of_fmap in Hin as (x & -> & Hx).
      apply list_elem_of_filter in Hx as [_ Hx]. apply list_elem_of_fmap. by exists x.
    + rewrite filter_cons_False by done. by apply IH.
  - intros x Hx Hx'. cbn in Hx'. apply list_elem_of_singleton in Hx' as ->.
    apply list_elem_of_fmap in Hx as (r & Hr & Hin).
    apply list_elem_of_filter in Hin as [Hw _]. by apply Hw.
  - cbn. apply NoDup_singleton.
Qed.

(** X9. A path added with [AddAllowedAttachPath] passes
    [ValidateAttachPath] afterwards, provided no other worker holds a
    disabled row for the same path. *)
Theorem added_attach_path_validates (workerName dbPath dbType : bytes)
    (t : list AttachRow) :
  (forall r, r ∈ t -> ap_db_path r = dbPath -> ap_worker_name r <> workerName ->
             ap_allowed r = 1%Z) ->
  ValidateAttachPath dbPath (AddAllowedAttachPath workerName dbPath dbType t) = None.
Proof.
  intros H. unfold ValidateAttachPath, AddAllowedAttachPath.
  rewrite filter_app.
  destruct (filter (fun r => ap_db_path r = dbPath)
              (filter (fun r => ap_worker_name r <> workerName) t)) as [|r l] eqn:E.
  - rewrite filter_cons_True by done. done.
  - assert (r ∈ filter (fun r => ap_db_path r = dbPath)
                  (filter (fun r => ap_worker_name r <> workerName) t)) as Hr
      by (rewrite E; apply list_elem_of_here).
    apply list_elem_of_filter in Hr as [Hp Hr].
    apply list_elem_of_filter in Hr as [Hw Hr].
    cbn [app]. by rewrite (H r Hr Hp Hw).
Qed.

(** X10. The whitelist is keyed by the worker name and
    [AddAllowedAttachPath] replaces: when a worker is given a new path, the
    path it had before is no longer in the whitelist (unless another worker
    lists it), and [ValidateAttachPath] refuses it as not in the whitelist.
    The worker names stay unique. *)
Theorem new_path_of_a_worker_revokes_the_old
    (workerName oldPath newPath dbType : bytes) (t : list AttachRow) :
  newPath <> oldPath ->
  (forall r, r ∈ t -> ap_db_path r = oldPath -> ap_worker_name r = workerName) ->
  ValidateAttachPath oldPath (AddAllowedAttachPath workerName newPath dbType t)
  = Some (B "ATTACH forbidden: path not in whitelist: " ++ oldPath)
  /\ (NoDup (ap_worker_name <$> t) ->
      NoDup (ap_worker_name <$> AddAllowedAttachPath workerName newPath dbType t)).
Proof.
  intros Hne H. split.
  - unfold ValidateAttachPath, AddAllowedAttachPath. rewrite filter_app.
    rewrite filter_cons_False by done. rewrite filter_nil, app_nil_r.
    destruct (filter (fun r => ap_db_path r = oldPath)
                (filter (fun r => ap_worker_name r <> workerName) t)) as [|r l] eqn:E;
      [done|].
    assert (r ∈ filter (fun r => ap_db_path r = oldPath)
                  (filter (fun r => ap_worker_name r <> workerName) t)) as Hr
      by (rewrite E; apply list_elem_of_here).
    apply list_elem_of_filter in Hr as [Hp Hr].
    apply list_elem_of_filter in Hr as [Hw Hr].
    by destruct (Hw (H r Hr Hp)).
  - apply AddAllowedAttachPath_NoDup.
Qed.

End WhitelistExtras.

(** ** Dispatch, breakers and counters *)

Section DispatchExtras.

Import Database Server Spec.

Context `{rt : Runtime}.

Local Open Scope Z_scope.

Lemma send_stdout_eq (resp : JSONRPCResponse) (s s' : State) :
  stdout s' = stdout s -> stdout (send resp s') = stdout (send resp s).
Proof. intros H. unfold send. case_match; cbn; by rewrite ?H. Qed.

(** What [finishRequest] writes and counts. *)
Lemma finishRequest_stdout (latencyMs : Z) (req : JSONRPCRequest) (hash : bytes)
    (outcome : RPCError + GoValue) (s : State) :
  stdout (finishRequest latencyMs req hash outcome s)
  = stdout (match outcome with
            | inl e => sendError (reqID req) (Code e) (Message e) (Data e) s
            | inr r => sendResult (reqID req) r s
            end).
Proof.
  destruct outcome as [e|r]; cbn [finishRequest].
  - cbn [stdout set_processed_log]. by apply send_stdout_eq.
  - by apply send_stdout_eq.
Qed.

Lemma send_counters (resp : JSONRPCResponse) (s : State) :
  requestsProcessed (send resp s) = requestsProcessed s
  /\ requestsFailed (send resp s) = requestsFailed s
  /\ tool_results (send resp s) = tool_results s
  /\ security_events (send resp s) = security_events s
  /\ world (send resp s) = world s
  /\ circuits (send resp s) = circuits s
  /\ tools (send resp s) = tools s.
Proof. unfold send. by case_match. Qed.

Lemma finishRequest_counters (latencyMs : Z) (req : JSONRPCRequest) (hash : bytes)
    (outcome : RPCError + GoValue) (s : State) :
  requestsProcessed (finishRequest latencyMs req hash outcome s)
  = requestsProcessed s + match outcome with inl _ => 0 | inr _ => 1 end
  /\ requestsFailed (finishRequest latencyMs req hash outcome s)
     = requestsFailed s + match outcome with inl _ => 1 | inr _ => 0 end
  /\ tool_results (finishRequest latencyMs req hash outcome s) = tool_results s
  /\ security_events (finishRequest latencyMs req hash outcome s) = security_events s.
Proof.
  destruct outcome as [e|r]; cbn [finishRequest].
  - unfold sendError.
    match goal with |- context [send ?r ?st] =>
      destruct (send_counters r st) as (H1 & H2 & H3 & H4 & _) end.
    cbn [requestsProcessed requestsFailed tool_results security_events set_processed_log].
    rewrite H1, H2, H3, H4. cbn. repeat split; lia.
  - unfold sendResult.
    match goal with |- context [send ?r ?st] =>
      destruct (send_counters r st) as (H1 & H2 & H3 & H4 & _) end.
    rewrite H1, H2, H3, H4. cbn. repeat split; lia.
Qed.

Lemma handleToolsCall_unknown (now : Z) (params h nm : bytes) (arguments : Args)
    (s : State) :
  unmarshalCallParams params = inr (nm, arguments) ->
  nm <> B "browser" -> nm <> B "brainloop" ->
  Tools.Get nm (tools s) = None ->
  handleToolsCall now params h s
  = (inl (mkRPCError (-32602) (B "Tool not found") (VString nm)), s).
Proof.
  intros Hp Hb Hl Ht. unfold handleToolsCall. rewrite Hp.
  by rewrite (bool_decide_eq_false_2 _ Hb), (bool_decide_eq_false_2 _ Hl), Ht.
Qed.

Lemma route_call (now : Z) (req : JSONRPCRequest) (h : bytes) (s : State) :
  reqMethod req = B "tools/call" ->
  route now req h s = handleToolsCall now (reqParams req) h s.
Proof. intros H. unfold route. rewrite H. done. Qed.

(** X11. A [tools/call] that names a tool the catalogue does not
    hold is answered with the error -32602 (Tool not found) and touches
    nothing a tool could touch: the world, the breakers (none is created for
    the name), the stored results and the security events are as before.
    The request is counted as failed and its fingerprint enters the ledger
    with the status failed. *)
Theorem call_of_unknown_tool_changes_nothing
    (now latencyMs : Z) (data nm : bytes) (arguments : Args) (req : JSONRPCRequest)
    (s : State) :
  unmarshalRequest data = inr req ->
  reqMethod req = B "tools/call" ->
  unmarshalCallParams (reqParams req) = inr (nm, arguments) ->
  nm <> B "browser" -> nm <> B "brainloop" ->
  Tools.Get nm (tools s) = None ->
  CheckProcessed (hashRequest (reqMethod req) (reqParams req)) (processed_log s) = false ->
  stdout (handleRequest now latencyMs data s)
  = stdout (sendError (reqID req) (-32602) (B "Tool not found") (VString nm) s)
  /\ world (handleRequest now latencyMs data s) = world s
  /\ circuits (handleRequest now latencyMs data s) = circuits s
  /\ tool_results (handleRequest now latencyMs data s) = tool_results s
  /\ security_events (handleRequest now latencyMs data s) = security_events s
  /\ requestsFailed (handleRequest now latencyMs data s) = requestsFailed s + 1
  /\ requestsProcessed (handleRequest now latencyMs data s) = requestsProcessed s
  /\ processed_log (handleRequest now latencyMs data s)
     = processed_log s
       ++ [mkProcessed (hashRequest (reqMethod req) (reqParams req))
             (formatValue (reqID req)) (reqMethod req) (B "failed") [] latencyMs].
Proof.
  intros Hd Hm Hp Hb Hl Ht Hc.
  rewrite (handleRequest_run now latencyMs data req s Hd (or_intror Hc)).
  rewrite (route_call _ _ _ _ Hm).
  rewrite (handleToolsCall_unknown _ _ _ _ _ _ Hp Hb Hl Ht). cbn [fst snd].
  rewrite finishRequest_stdout, finishRequest_ledger.
  destruct (finishRequest_tables latencyMs req
              (hashRequest (reqMethod req) (reqParams req))
              (inl (mkRPCError (-32602) (B "Tool not found") (VString nm))) s)
    as (_ & _ & _ & _ & _ & Hw & Hci).
  destruct (finishRequest_counters latencyMs req
              (hashRequest (reqMethod req) (reqParams req))
              (inl (mkRPCError (-32602) (B "Tool not found") (VString nm))) s)
    as (Hrp & Hrf & Htr & Hse).
  rewrite Hw, Hci, Hrp, Hrf, Htr, Hse.
  unfold MarkProcessed. rewrite Hc. cbn. repeat split; lia.
Qed.

Lemma handleToolsCall_tools (now : Z) (params h : bytes) (s : State) :
  tools (handleToolsCall now params h s).2 = tools s.
Proof. unfold handleToolsCall. repeat (case_match; try done). Qed.

Lemma Get_present (now : Z) (nm : bytes) (m : Circuit.Manager) (b : Circuit.Breaker) :
  m !! nm = Some b -> Circuit.Get now nm m = (b, m).
Proof. intros H. unfold Circuit.Get. by rewrite H. Qed.

Lemma handleToolsCall_open (now : Z) (params h nm : bytes) (arguments : Args)
    (tool : Tool) (b : Circuit.Breaker) (s : State) :
  unmarshalCallParams params = inr (nm, arguments) ->
  nm <> B "browser" -> nm <> B "brainloop" ->
  Tools.Get nm (tools s) = Some tool ->
  circuits s !! nm = Some b ->
  Circuit.state b = Circuit.StateOpen ->
  Circuit.since now (Circuit.lastStateChange b) <= Circuit.timeout b ->
  handleToolsCall now params h s
  = (inl (mkRPCError (-32000) (B "Circuit breaker open")
            (VString (B "circuit breaker " ++ Circuit.name b ++ B " is open"))),
     set_security_events
       (security_events s
        ++ [mkSecurityEvent (B "circuit_open") (B "warning")
              (B "circuit breaker " ++ Circuit.name b ++ B " is open")]) s).
Proof.
  intros Hp Hb Hl Ht Hc Hs Hti. unfold handleToolsCall. rewrite Hp.
  rewrite (bool_decide_eq_false_2 _ Hb), (bool_decide_eq_false_2 _ Hl), Ht.
  rewrite (Get_present _ _ _ _ Hc), (CanExecute_open _ _ Hs Hti).
  rewrite (insert_id _ _ _ Hc). cbn [default]. by destruct s.
Qed.

(** X12. While the breaker of a tool is open and the time since it
    opened is at most its timeout, a call of the tool is refused with the
    error -32000 (Circuit breaker open) without the tool being executed: the
    world and the stored results are untouched, the breaker is as it was,
    and one security event [circuit_open] of severity warning is recorded.
    The timeout is the one [CanExecute] computes, [timeoutSeconds] times
    [time.Second] in 64 bits: so many seconds for a [timeoutSeconds] from
    -9223372036 to 9223372036, the 60 of a breaker made by [Get] among
    them. *)
Theorem open_breaker_shields_the_tool
    (now : Z) (params h nm : bytes) (arguments : Args) (tool : Tool)
    (b : Circuit.Breaker) (s : State) :
  unmarshalCallParams params = inr (nm, arguments) ->
  nm <> B "browser" -> nm <> B "brainloop" ->
  Tools.Get nm (tools s) = Some tool ->
  circuits s !! nm = Some b ->
  Circuit.state b = Circuit.StateOpen ->
  Circuit.since now (Circuit.lastStateChange b) <= Circuit.timeout b ->
  (handleToolsCall now params h s).1
  = inl (mkRPCError (-32000) (B "Circuit breaker open")
           (VString (B "circuit breaker " ++ Circuit.name b ++ B " is open")))
  /\ world (handleToolsCall now params h s).2 = world s
  /\ tool_results (handleToolsCall now params h s).2 = tool_results s
  /\ circuits (handleToolsCall now params h s).2 = circuits s
  /\ security_events (handleToolsCall now params h s).2
     = security_events s
       ++ [mkSecurityEvent (B "circuit_open") (B "warning")
             (B "circuit breaker " ++ Circuit.name b ++ B " is open")].
Proof.
  intros Hp Hb Hl Ht Hc Hs Hti.
  by rewrite (handleToolsCall_open _ _ _ _ _ _ _ _ Hp Hb Hl Ht Hc Hs Hti).
Qed.

(** X13. A [tools/call] acts on the breaker of the tool it names and
    on no other: under every other name the breakers are what they were,
    whatever the outcome of the call. *)
Theorem call_leaves_other_breakers_alone
    (now : Z) (params h other : bytes) (s : State) :
  (forall arguments, unmarshalCallParams params <> inr (other, arguments)) ->
  circuits (handleToolsCall now params h s).2 !! other = circuits s !! other.
Proof.
  intros Hne. unfold handleToolsCall.
  destruct (unmarshalCallParams params) as [err|[nm arguments]] eqn:Hp; [done|].
  assert (nm <> other) as Hnm by (intros ->; by apply (Hne arguments)).
  repeat case_bool_decide; repeat (case_match; try done); cbn [snd circuits set_circuits
    set_world set_security_events set_tool_results];
    repeat match goal with
      | H : Circuit.Get _ _ _ = _ |- _ =>
          unfold Circuit.Get in H; destruct (circuits s !! nm) eqn:?; simplify_eq
      end;
    rewrite ?lookup_insert_ne by done; done.
Qed.

Lemma failing_calls_run (nm : bytes) (tool : Tool) (calls : list (Z * bytes * bytes)) :
  forall (s : State) (b : Circuit.Breaker),
  nm <> B "browser" -> nm <> B "brainloop" ->
  Tools.Get nm (tools s) = Some tool ->
  circuits s !! nm = Some b ->
  Circuit.state b = Circuit.StateClosed ->
  Z.of_nat (length calls) <= Circuit.failureThreshold b - Circuit.failureCount b ->
  Forall (fun c => exists arguments,
            unmarshalCallParams c.1.2 = inr (nm, arguments)
            /\ forall w, exists err, (executeTool tool arguments w).1 = inl err) calls ->
  circuits (fold_left (fun st c => (handleToolsCall c.1.1 c.1.2 c.2 st).2) calls s) !! nm
  = Some (Circuit.run (Circuit.Failure <$> calls.*1.*1) b)
  /\ tools (fold_left (fun st c => (handleToolsCall c.1.1 c.1.2 c.2 st).2) calls s)
     = tools s.
Proof.
  induction calls as [|[[now params] h] calls IH]; intros s b Hb Hl Ht Hc Hs Hlen Hall;
    [done|].
  apply Forall_cons in Hall as [(arguments & Hp & Hfail) Hall].
  cbn [fold_left fst snd fmap list_fmap Circuit.run Circuit.apply].
  destruct (Hfail (world s)) as [err Herr].
  pose proof (handleToolsCall_failure now params h nm err arguments tool s Hp Hb Hl Ht) as Hf.
  rewrite (Get_present _ _ _ _ Hc) in Hf. cbn [fst] in Hf.
  unfold Circuit.CanExecute in Hf. rewrite Hs in Hf. cbn [fst snd] in Hf.
  destruct (Hf eq_refl Herr) as [_ Hc1].
  pose proof (handleToolsCall_tools now params h s) as Ht1.
  destruct calls as [|c calls'].
  - cbn [fold_left fmap list_fmap]. by rewrite Ht1.
  - cbn [length] in Hlen.
    assert (Circuit.failureCount b + 1 < Circuit.failureThreshold b) as Hlt by lia.
    destruct (IH (handleToolsCall now params h s).2 (Circuit.RecordFailure now b))
      as [IH1 IH2]; try done.
    + by rewrite Ht1.
    + unfold Circuit.RecordFailure. rewrite Hs.
      by rewrite (proj2 (Z.leb_gt _ _) Hlt).
    + unfold Circuit.RecordFailure. rewrite Hs.
      rewrite (proj2 (Z.leb_gt _ _) Hlt). cbn. cbn [length] in Hlen. lia.
    + split; [apply IH1|]. by rewrite IH2.
Qed.

(** X14. A tool that fails whatever the state of the world is cut
    off: once as many calls of it have failed in a row as its closed breaker
    had left before its threshold, the next call that comes while the time
    since the last failure is at most the timeout is refused with the error
    -32000 (Circuit breaker open) and the tool is not executed. The timeout
    is the one [CanExecute] computes, [timeoutSeconds] times [time.Second]
    in 64 bits. *)
Theorem failing_tool_is_cut_off
    (s : State) (nm : bytes) (tool : Tool) (b : Circuit.Breaker)
    (calls : list (Z * bytes * bytes)) (last now : Z) (lastParams lastHash params h : bytes)
    (arguments : Args) :
  nm <> B "browser" -> nm <> B "brainloop" ->
  Tools.Get nm (tools s) = Some tool ->
  circuits s !! nm = Some b ->
  Circuit.state b = Circuit.StateClosed ->
  0 <= Circuit.failureCount b ->
  Z.of_nat (length calls) + 1 = Circuit.failureThreshold b - Circuit.failureCount b ->
  Forall (fun c => exists arguments,
            unmarshalCallParams c.1.2 = inr (nm, arguments)
            /\ forall w, exists err, (executeTool tool arguments w).1 = inl err)
         (calls ++ [(last, lastParams, lastHash)]) ->
  unmarshalCallParams params = inr (nm, arguments) ->
  Circuit.since now last <= Circuit.timeout b ->
  (handleToolsCall now params h
     (fold_left (fun st c => (handleToolsCall c.1.1 c.1.2 c.2 st).2)
        (calls ++ [(last, lastParams, lastHash)]) s)).1
  = inl (mkRPCError (-32000) (B "Circuit breaker open")
           (VString (B "circuit breaker " ++ Circuit.name b ++ B " is open")))
  /\ world (handleToolsCall now params h
              (fold_left (fun st c => (handleToolsCall c.1.1 c.1.2 c.2 st).2)
                 (calls ++ [(last, lastParams, lastHash)]) s)).2
     = world (fold_left (fun st c => (handleToolsCall c.1.1 c.1.2 c.2 st).2)
                (calls ++ [(last, lastParams, lastHash)]) s).
Proof.
  intros Hb Hl Ht Hc Hs Hfc Hlen Hall Hp Hti.
  destruct (failing_calls_run nm tool (calls ++ [(last, lastParams, lastHash)]) s b)
    as [Hc' Ht']; try done.
  { rewrite length_app. cbn [length]. lia. }
  set (s' := fold_left _ _ s) in *.
  rewrite !fmap_app, run_app in Hc'. cbn [fmap list_fmap Circuit.run fold_left
    Circuit.apply fst] in Hc'.
  pose proof (run_failures calls.*1.*1 b Hs ltac:(lia)) as Hrun.
  rewrite !length_fmap in Hrun.
  assert (Circuit.failureCount b + Z.of_nat (length calls) < Circuit.failureThreshold b)
    as Hbelow by lia.
  rewrite (proj2 (Z.ltb_lt _ _) Hbelow) in Hrun.
  destruct Hrun as [Hs1 Hf1].
  pose proof (run_failureThreshold (Circuit.Failure <$> calls.*1.*1) b) as Hth.
  set (b1 := Circuit.run (Circuit.Failure <$> calls.*1.*1) b) in *.
  assert (Circuit.RecordFailure last b1
          = Circuit.mkBreaker (Circuit.name b1) Circuit.StateOpen
              (Circuit.failureCount b1 + 1) (Circuit.successCount b1)
              (Circuit.failureThreshold b1) (Circuit.successThreshold b1)
              (Circuit.timeoutSeconds b1) last (Circuit.halfOpenMaxCalls b1)
              (Circuit.halfOpenCalls b1)) as Hrf.
  { assert (Circuit.failureThreshold b1 <= Circuit.failureCount b1 + 1) as Hreach by lia.
    unfold Circuit.RecordFailure. rewrite Hs1.
    by rewrite (proj2 (Z.leb_le _ _) Hreach). }
  rewrite Hrf in Hc'.
  assert (Circuit.name b1 = Circuit.name b /\ Circuit.timeoutSeconds b1 = Circuit.timeoutSeconds b)
    as [Hname Htime].
  { subst b1. clear. generalize (Circuit.Failure <$> calls.*1.*1). intros evs.
    revert b. induction evs as [|e evs IH]; intros b; [done|].
    cbn [Circuit.run fold_left].
    change (fold_left (fun b e => Circuit.apply e b) evs ?x) with (Circuit.run evs x).
    destruct (IH (Circuit.apply e b)) as [-> ->].
    destruct e; cbn [Circuit.apply]; unfold Circuit.CanExecute, Circuit.RecordSuccess,
      Circuit.RecordFailure; repeat case_match; done. }
  rewrite (handleToolsCall_open now params h nm arguments tool _ s' Hp Hb Hl
             ltac:(by rewrite Ht') Hc' eq_refl).
  - cbn [fst snd Circuit.name]. rewrite Hname. by destruct s'.
  - cbn [Circuit.lastStateChange Circuit.timeoutSeconds]. by rewrite Htime.
Qed.

Lemma send_written (resp : JSONRPCResponse) (s : State) :
  stdout (send resp s) = stdout s ++ written resp.
Proof. unfold send, written. case_match; cbn; by rewrite ?app_nil_r. Qed.

Lemma handleToolsCall_result (now : Z) (params h : bytes) (s : State) (r : GoValue) :
  (handleToolsCall now params h s).1 = inr r -> r <> VNil.
Proof.
  unfold handleToolsCall, contentEnvelope.
  repeat (case_match; try done); cbn [fst]; intros; simplify_eq; done.
Qed.

Lemma route_result (now : Z) (req : JSONRPCRequest) (h : bytes) (s : State) (r : GoValue) :
  (route now req h s).1 = inr r -> r <> VNil.
Proof.
  unfold route, handleInitialize, handleToolsList, handleResourcesList, handlePromptsList.
  repeat case_bool_decide; cbn [fst]; try (intros; simplify_eq; done).
  apply handleToolsCall_result.
Qed.

Lemma route_stdout (now : Z) (req : JSONRPCRequest) (h : bytes) (s : State) :
  stdout (route now req h s).2 = stdout s.
Proof.
  unfold route, handleToolsCall.
  repeat case_bool_decide; try done; repeat (case_match; try done).
Qed.

Lemma handleRequest_cases (now latencyMs : Z) (data : bytes) (s : State) :
  match unmarshalRequest data with
  | inl err =>
      handleRequest now latencyMs data s
      = sendError VNil (-32700) (B "Parse error") (VString err) s
  | inr req =>
      if routed data s
      then handleRequest now latencyMs data s
           = finishRequest latencyMs req (hashRequest (reqMethod req) (reqParams req))
               (route now req (hashRequest (reqMethod req) (reqParams req)) s).1
               (route now req (hashRequest (reqMethod req) (reqParams req)) s).2
      else handleRequest now latencyMs data s = sendResult (reqID req) cachedResult s
  end.
Proof.
  unfold routed. destruct (unmarshalRequest data) as [err|req] eqn:Hd.
  - by apply handleRequest_parse_error.
  - destruct (skipIdempotence (reqMethod req)) eqn:Hk; cbn [orb].
    + apply handleRequest_run; [done|by left].
    + destruct (CheckProcessed _ (processed_log s)) eqn:Hc; cbn [negb].
      * by apply handleRequest_cached.
      * apply handleRequest_run; [done|by right].
Qed.

(** X15. Handling a line adds to standard output the line of one
    response, or nothing if that response cannot be serialized. The response
    has version 2.0, carries the id of the request (null when the line does
    not parse) and holds exactly one of a result and an error. *)
Theorem every_line_gets_one_reply (now latencyMs : Z) (data : bytes) (s : State) :
  exists resp : JSONRPCResponse,
    stdout (handleRequest now latencyMs data s) = stdout s ++ written resp
    /\ (length (written resp) <= 1)%nat
    /\ respJSONRPC resp = B "2.0"
    /\ respID resp
       = match unmarshalRequest data with inr req => reqID req | inl _ => VNil end
    /\ (respResult resp = VNil <-> respError resp <> None).
Proof.
  assert (forall resp, (length (written resp) <= 1)%nat) as Hlen.
  { intros resp. unfold written. case_match; simpl; lia. }
  pose proof (handleRequest_cases now latencyMs data s) as H.
  destruct (unmarshalRequest data) as [err|req].
  - rewrite H. eexists. unfold sendError. rewrite send_written.
    split; [reflexivity|]. split; [apply Hlen|]. cbn. by repeat split.
  - destruct (routed data s).
    + rewrite H, finishRequest_stdout.
      destruct (route now req _ s).1 as [e|r] eqn:Hr.
      * eexists. unfold sendError. rewrite send_written, route_stdout.
        split; [reflexivity|]. split; [apply Hlen|]. cbn. by repeat split.
      * eexists. unfold sendResult. rewrite send_written, route_stdout.
        split; [reflexivity|]. split; [apply Hlen|]. cbn. repeat split; [|done].
        intros ->. by apply route_result in Hr.
    + rewrite H. eexists. unfold sendResult. rewrite send_written.
      split; [reflexivity|]. split; [apply Hlen|]. cbn. by repeat split.
Qed.

Lemma route_counters (now : Z) (req : JSONRPCRequest) (h : bytes) (s : State) :
  requestsProcessed (route now req h s).2 = requestsProcessed s
  /\ requestsFailed (route now req h s).2 = requestsFailed s.
Proof.
  unfold route, handleToolsCall.
  repeat case_bool_decide; try done; repeat (case_match; try done).
Qed.

Lemma handleRequest_counters (now latencyMs : Z) (data : bytes) (s : State) :
  requestsProcessed s <= requestsProcessed (handleRequest now latencyMs data s)
  /\ requestsFailed s <= requestsFailed (handleRequest now latencyMs data s)
  /\ requestsProcessed (handleRequest now latencyMs data s)
     + requestsFailed (handleRequest now latencyMs data s)
     = requestsProcessed s + requestsFailed s + (if routed data s then 1 else 0)
  /\ Z.of_nat (length (processed_log (handleRequest now latencyMs data s)))
     <= Z.of_nat (length (processed_log s)) + (if routed data s then 1 else 0).
Proof.
  pose proof (handleRequest_cases now latencyMs data s) as H.
  destruct (unmarshalRequest data) as [err|req] eqn:Hd.
  - assert (routed data s = false) as -> by (unfold routed; by rewrite Hd).
    rewrite H. unfold sendError.
    destruct (send_counters (mkResponse (B "2.0") VNil VNil
                (Some (mkRPCError (-32700) (B "Parse error") (VString err)))) s)
      as (-> & -> & _).
    destruct (send_sameTables (mkResponse (B "2.0") VNil VNil
                (Some (mkRPCError (-32700) (B "Parse error") (VString err)))) s)
      as (-> & _).
    lia.
  - destruct (routed data s).
    + rewrite H.
      match goal with |- context [finishRequest ?l ?r ?h ?o ?st] =>
        destruct (finishRequest_counters l r h o st) as (-> & -> & _);
        rewrite (finishRequest_ledger l r h o st);
        destruct (route_counters now req h s) as (-> & ->);
        destruct (route_sameTables now req h s) as (-> & _);
        destruct o
      end; unfold MarkProcessed; case_match; cbn [snd]; rewrite ?length_app; cbn [length];
        lia.
    + rewrite H. unfold sendResult.
      destruct (send_counters (mkResponse (B "2.0") (reqID req) cachedResult None) s)
        as (-> & -> & _).
      destruct (send_sameTables (mkResponse (B "2.0") (reqID req) cachedResult None) s)
        as (-> & _).
      lia.
Qed.

Lemma tick_counters (l : Loop) (s : State) :
  requestsProcessed (tick l s) = requestsProcessed s
  /\ requestsFailed (tick l s) = requestsFailed s.
Proof. unfold tick. repeat case_match; done. Qed.

(** X16. The two counters of the server move together by one
    exactly when a request reaches the dispatcher: a line that does not
    parse and a replayed request count as neither processed nor failed.
    Over any sequence of lines and ticks the counters never decrease, they
    grow by at most the number of lines, and the ledger grows by no more rows
    than the counters grow. *)
Theorem counters_count_the_routed_requests
    (now latencyMs : Z) (data : bytes) (inputs : list Input) (s : State) :
  (requestsProcessed (handleRequest now latencyMs data s)
   + requestsFailed (handleRequest now latencyMs data s)
   = requestsProcessed s + requestsFailed s + (if routed data s then 1 else 0))
  /\ requestsProcessed s <= requestsProcessed (serve inputs s)
  /\ requestsFailed s <= requestsFailed (serve inputs s)
  /\ Z.of_nat (length (processed_log (serve inputs s)))
     - Z.of_nat (length (processed_log s))
     <= requestsProcessed (serve inputs s) + requestsFailed (serve inputs s)
        - (requestsProcessed s + requestsFailed s)
  /\ requestsProcessed (serve inputs s) + requestsFailed (serve inputs s)
     - (requestsProcessed s + requestsFailed s)
     <= Z.of_nat (length (filter (fun i => isLine i = true) inputs)).
Proof.
  split; [apply handleRequest_counters|].
  revert s. induction inputs as [|i inputs IH]; intros s.
  - simpl. lia.
  - cbn [serve fold_left]. change (fold_left serveOne inputs ?x) with (serve inputs x).
    specialize (IH (serveOne s i)).
    destruct i as [now' lat' data'|l]; cbn [serveOne] in *.
    + pose proof (handleRequest_counters now' lat' data' s) as H.
      rewrite filter_cons_True by done. cbn [length].
      destruct (routed data' s); lia.
    + destruct (tick_counters l s) as [H1 H2]. destruct (tick_sameTables l s) as (H3 & _).
      rewrite filter_cons_False by done. rewrite H1, H2, H3 in IH. lia.
Qed.

(** X17. The method [ping] is exempt from the idempotency check and
    has no handler: in any state, and however often it is repeated, a ping
    is answered with the error -32601 (Method not found) and counted as a
    failed request; the world and the breakers are untouched. *)
Theorem ping_is_answered_method_not_found
    (now latencyMs : Z) (data : bytes) (req : JSONRPCRequest) (s : State) :
  unmarshalRequest data = inr req ->
  reqMethod req = B "ping" ->
  stdout (handleRequest now latencyMs data s)
  = stdout s
    ++ written (mkResponse (B "2.0") (reqID req) VNil
                  (Some (mkRPCError (-32601) (B "Method not found") VNil)))
  /\ requestsFailed (handleRequest now latencyMs data s) = requestsFailed s + 1
  /\ requestsProcessed (handleRequest now latencyMs data s) = requestsProcessed s
  /\ world (handleRequest now latencyMs data s) = world s
  /\ circuits (handleRequest now latencyMs data s) = circuits s.
Proof.
  intros Hd Hm.
  assert (skipIdempotence (reqMethod req) = true) as Hk by (by rewrite Hm).
  rewrite (handleRequest_run now latencyMs data req s Hd (or_introl Hk)).
  assert (route now req (hashRequest (reqMethod req) (reqParams req)) s
          = (inl (mkRPCError (-32601) (B "Method not found") VNil), s)) as ->.
  { unfold route. by rewrite Hm. }
  cbn [fst snd]. rewrite finishRequest_stdout. unfold sendError. rewrite send_written.
  match goal with |- context [finishRequest ?l ?r ?h ?o ?st] =>
    destruct (finishRequest_counters l r h o st) as (-> & -> & _);
    destruct (finishRequest_tables l r h o st) as (_ & _ & _ & _ & _ & -> & ->)
  end.
  repeat split; lia.
Qed.

Lemma route_other (now : Z) (req : JSONRPCRequest) (h : bytes) (s : State) :
  reqMethod req <> B "tools/call" -> (route now req h s).2 = s.
Proof.
  intros H. unfold route. rewrite (bool_decide_eq_false_2 _ H).
  by repeat case_bool_decide.
Qed.

(** X18. Only [tools/call] reaches the tools: a line that does not
    parse, or whose method is any other, leaves the world, the breakers, the
    catalogue, the stored results and the security events as they were. *)
Theorem only_tools_call_reaches_the_tools
    (now latencyMs : Z) (data : bytes) (s : State) :
  (forall req, unmarshalRequest data = inr req -> reqMethod req <> B "tools/call") ->
  world (handleRequest now latencyMs data s) = world s
  /\ circuits (handleRequest now latencyMs data s) = circuits s
  /\ tools (handleRequest now latencyMs data s) = tools s
  /\ tool_results (handleRequest now latencyMs data s) = tool_results s
  /\ security_events (handleRequest now latencyMs data s) = security_events s.
Proof.
  intros Hm. pose proof (handleRequest_cases now latencyMs data s) as H.
  destruct (unmarshalRequest data) as [err|req].
  - rewrite H. unfold sendError.
    by destruct (send_counters (mkResponse (B "2.0") VNil VNil
                   (Some (mkRPCError (-32700) (B "Parse error") (VString err)))) s)
      as (_ & _ & -> & -> & -> & -> & ->).
  - destruct (routed data s).
    + rewrite H, (route_other _ _ _ _ (Hm req eq_refl)).
      match goal with |- context [finishRequest ?l ?r ?h ?o ?st] =>
        destruct (finishRequest_counters l r h o st) as (_ & _ & -> & ->);
        destruct (finishRequest_tables l r h o st) as (_ & _ & _ & _ & -> & -> & ->)
      end. done.
    + rewrite H. unfold sendResult.
      by destruct (send_counters (mkResponse (B "2.0") (reqID req) cachedResult None) s)
        as (_ & _ & -> & -> & -> & -> & ->).
Qed.

Lemma executeSteps_app (args : Args) (a b : list ToolStep) (lastResult : GoValue)
    (w : World) :
  executeSteps args (a ++ b) lastResult w
  = match executeSteps args a lastResult w with
    | (inl err, w') => (inl err, w')
    | (inr r, w') => executeSteps args b r w'
    end.
Proof.
  revert lastResult w. induction a as [|st a IH]; intros lastResult w; [done|].
  cbn [app executeSteps]. destruct (executeStep args st w) as [[err|r] w']; [done|].
  apply IH.
Qed.

(** X19. The first step that fails ends the tool: the steps after it
    are not executed, the error of the step is the error of the tool, and
    the world is the one the failing step left, with the effects of the steps
    before it. Nothing is rolled back. *)
Theorem first_failing_step_ends_the_tool
    (tool : Tool) (args : Args) (done : list ToolStep) (failing : ToolStep)
    (rest : list ToolStep) (w w1 w2 : World) (r : GoValue) (err : bytes) :
  Steps tool = done ++ failing :: rest ->
  executeSteps args done VNil w = (inr r, w1) ->
  executeStep args failing w1 = (inl err, w2) ->
  executeTool tool args w = (inl err, w2).
Proof.
  intros Hsteps Hdone Hfail. unfold executeTool. rewrite Hsteps.
  destruct (done ++ failing :: rest) as [|st l] eqn:E; [by destruct done|].
  rewrite <- E, executeSteps_app, Hdone. cbn [executeSteps]. by rewrite Hfail.
Qed.

(** X20. Steps of type attach and transform execute nothing: a tool
    made of such steps succeeds and leaves the world as it was, whatever
    their templates say. *)
Theorem attach_and_transform_steps_execute_nothing
    (tool : Tool) (args : Args) (w : World) :
  Forall (fun st => StepType st = B "attach" \/ StepType st = B "transform") (Steps tool) ->
  exists r, executeTool tool args w = (inr r, w).
Proof.
  intros H. unfold executeTool.
  destruct (Steps tool) as [|st l] eqn:E; [by eexists|]. rewrite <- E in *. clear E.
  generalize VNil. induction H as [|st' l' Hst _ IH]; intros lastResult; [by eexists|].
  cbn [executeSteps]. unfold executeStep.
  destruct Hst as [-> | ->]; cbn; apply IH.
Qed.

Lemma handleRequest_marks_only_itself (now latencyMs : Z) (data h : bytes) (s : State) :
  CheckProcessed h (processed_log (handleRequest now latencyMs data s)) = true ->
  CheckProcessed h (processed_log s) = true
  \/ exists req, unmarshalRequest data = inr req
                 /\ h = hashRequest (reqMethod req) (reqParams req).
Proof.
  pose proof (handleRequest_cases now latencyMs data s) as H.
  destruct (unmarshalRequest data) as [err|req].
  - rewrite H. unfold sendError.
    destruct (send_sameTables (mkResponse (B "2.0") VNil VNil
                (Some (mkRPCError (-32700) (B "Parse error") (VString err)))) s)
      as (-> & _). by left.
  - destruct (routed data s).
    + rewrite H, finishRequest_ledger.
      destruct (route_sameTables now req (hashRequest (reqMethod req) (reqParams req)) s)
        as (-> & _).
      unfold MarkProcessed. case_match; cbn [snd]; [by left|].
      rewrite CheckProcessed_app. intros [?|Hh]%orb_true_iff; [by left|].
      right. exists req. split; [done|]. cbn in Hh. rewrite orb_false_r in Hh.
      by apply bool_decide_eq_true in Hh.
    + rewrite H. unfold sendResult.
      destruct (send_sameTables (mkResponse (B "2.0") (reqID req) cachedResult None) s)
        as (-> & _). by left.
Qed.

(** X21. The ledger holds only what was served: a fingerprint marked
    as processed after any sequence of lines and ticks was marked before, or
    is the fingerprint of one of the lines handled. *)
Theorem only_served_requests_are_marked (inputs : list Input) (s : State) (h : bytes) :
  CheckProcessed h (processed_log (serve inputs s)) = true ->
  CheckProcessed h (processed_log s) = true
  \/ exists now latencyMs data req,
       Line now latencyMs data ∈ inputs
       /\ unmarshalRequest data = inr req
       /\ h = hashRequest (reqMethod req) (reqParams req).
Proof.
  revert s. induction inputs as [|i inputs IH]; intros s; [by left|].
  cbn [serve fold_left]. change (fold_left serveOne inputs ?x) with (serve inputs x).
  intros [H|(now & lat & data & req & Hin & Hd & Hh)]%IH.
  - destruct i as [now lat data|l]; cbn [serveOne] in H.
    + apply handleRequest_marks_only_itself in H as [H|(req & Hd & Hh)]; [by left|].
      right. exists now, lat, data, req. split; [apply list_elem_of_here|done].
    + destruct (tick_sameTables l s) as (Hl & _). rewrite Hl in H. by left.
  - right. exists now, lat, data, req. split; [by apply list_elem_of_further|done].
Qed.





End DispatchExtras.

(** ** Sweeps of the retry queue *)

Section RetryExtras.

Import Database Server Spec.

Context `{rt : Runtime}.

Local Open Scope Z_scope.

(** X23. When the one due row of the retry queue names a tool that
    now succeeds, a sweep deletes the row and writes no dead letter; the
    world is the one the tool left. *)
Theorem retry_that_succeeds_leaves_the_queue
    (nowSec : Z) (r : RetryRow) (tool : Tool) (result : GoValue) (w' : World) (s : State) :
  retry_queue s = [r] ->
  rq_status r = B "pending" ->
  rq_next_retry_at r <= nowSec ->
  Tools.Get (rq_tool_name r) (tools s) = Some tool ->
  executeTool tool (unmarshalArgs (rq_params_json r)) (world s) = (inr result, w') ->
  retry_queue (ProcessRetryQueue nowSec s) = []
  /\ dead_letter_queue (ProcessRetryQueue nowSec s) = dead_letter_queue s
  /\ world (ProcessRetryQueue nowSec s) = w'.
Proof.
  intros Hq Hs Hn Ht He. unfold ProcessRetryQueue. rewrite Hq, dueRows_single by done.
  cbn [fold_left]. unfold processRetryRow.
  cbn [tools world set_retry_queue retry_queue]. rewrite Ht, He.
  rewrite Hq. cbn [updateRetry fmap list_fmap retry_queue set_retry_queue set_world].
  rewrite bool_decide_eq_true_2 by done.
  rewrite filter_cons_False by (cbn; tauto). done.
Qed.

(** X24. When the one due row of the retry queue names a tool the
    catalogue does not hold, a sweep marks the row exhausted with the error
    Tool not found, executes nothing and writes no dead letter. The job is
    then lost for good: no later sweep picks the row up, also once the
    catalogue holds the tool. *)
Theorem retry_of_a_missing_tool_is_dropped
    (nowSec later : Z) (r : RetryRow) (catalogue : gmap bytes Tool) (s : State) :
  retry_queue s = [r] ->
  rq_status r = B "pending" ->
  rq_next_retry_at r <= nowSec ->
  Tools.Get (rq_tool_name r) (tools s) = None ->
  retry_queue (ProcessRetryQueue nowSec s)
  = [withLastError (B "Tool not found") (withStatus (B "exhausted") r)]
  /\ dead_letter_queue (ProcessRetryQueue nowSec s) = dead_letter_queue s
  /\ world (ProcessRetryQueue nowSec s) = world s
  /\ ProcessRetryQueue later (set_tools catalogue (ProcessRetryQueue nowSec s))
     = set_tools catalogue (ProcessRetryQueue nowSec s).
Proof.
  intros Hq Hs Hn Ht.
  assert (ProcessRetryQueue nowSec s
          = set_retry_queue
              [withLastError (B "Tool not found") (withStatus (B "exhausted") r)] s) as ->.
  { unfold ProcessRetryQueue. rewrite Hq, dueRows_single by done.
    cbn [fold_left]. unfold processRetryRow.
    cbn [tools world set_retry_queue retry_queue]. rewrite Ht.
    rewrite Hq. cbn [updateRetry fmap list_fmap retry_queue set_retry_queue].
    rewrite !(bool_decide_eq_true_2 (rq_id r = rq_id r)) by done.
    by destruct s, r. }
  repeat split.
Qed.

Lemma updateRetry_frame (id : Z) (f : RetryRow -> RetryRow) (q : list RetryRow)
    (r : RetryRow) :
  rq_id r <> id -> r ∈ q -> r ∈ updateRetry id f q.
Proof.
  intros Hne Hin. unfold updateRetry. apply list_elem_of_fmap. exists r.
  by rewrite bool_decide_eq_false_2.
Qed.

Lemma processRetryRow_frame (nowSec : Z) (d r : RetryRow) (st : State) :
  rq_id r <> rq_id d -> r ∈ retry_queue st -> r ∈ retry_queue (processRetryRow nowSec d st).
Proof.
  intros Hne Hin. unfold processRetryRow.
  repeat case_match;
    cbn [retry_queue set_retry_queue set_world set_dead_letter_queue];
    repeat first [apply updateRetry_frame; [done|] | apply list_elem_of_filter; split; [done|]];
    done.
Qed.

Lemma updateRetry_length (id : Z) (f : RetryRow -> RetryRow) (q : list RetryRow) :
  length (updateRetry id f q) = length q.
Proof. apply length_fmap. Qed.

Lemma processRetryRow_shrinks (nowSec : Z) (d : RetryRow) (st : State) :
  (length (retry_queue (processRetryRow nowSec d st)) <= length (retry_queue st))%nat.
Proof.
  unfold processRetryRow.
  repeat case_match;
    cbn [retry_queue set_retry_queue set_world set_dead_letter_queue];
    rewrite ?updateRetry_length; try lia.
  etrans; [apply length_filter|]. by rewrite updateRetry_length.
Qed.

Lemma NoDup_fmap_eq {A C : Type} (f : A -> C) (l : list A) (x y : A) :
  NoDup (f <$> l) -> x ∈ l -> y ∈ l -> f x = f y -> x = y.
Proof.
  induction l as [|a l IH]; intros Hnd Hx Hy Hf; [by apply elem_of_nil in Hx|].
  cbn [fmap list_fmap] in Hnd. apply NoDup_cons in Hnd as [Ha Hnd].
  apply elem_of_cons in Hx as [->|Hx]; apply elem_of_cons in Hy as [->|Hy]; try done.
  - destruct Ha. rewrite Hf. by apply list_elem_of_fmap_2.
  - destruct Ha. rewrite <- Hf. by apply list_elem_of_fmap_2.
  - by apply IH.
Qed.

(** X25. A sweep touches only the rows it selected: with unique row
    ids, a row of the retry queue that is not among the (at most ten)
    pending and due rows selected is in the queue unchanged after the sweep.
    A sweep never lengthens the queue. *)
Theorem sweep_touches_only_the_rows_it_selected (nowSec : Z) (r : RetryRow) (s : State) :
  NoDup (rq_id <$> retry_queue s) ->
  r ∈ retry_queue s ->
  r ∉ dueRows nowSec (retry_queue s) ->
  r ∈ retry_queue (ProcessRetryQueue nowSec s)
  /\ (length (retry_queue (ProcessRetryQueue nowSec s)) <= length (retry_queue s))%nat
  /\ (length (dueRows nowSec (retry_queue s)) <= 10)%nat.
Proof.
  intros Hnd Hin Hdue. unfold ProcessRetryQueue.
  assert (forall d, d ∈ dueRows nowSec (retry_queue s) -> rq_id r <> rq_id d) as Hids.
  { intros d Hd Hid. apply Hdue.
    assert (d ∈ retry_queue s) as Hd'.
    { unfold dueRows in Hd. apply elem_of_take in Hd as (i & Hi & _).
      apply list_elem_of_lookup_2 in Hi. by apply list_elem_of_filter in Hi as [_ ?]. }
    by rewrite (NoDup_fmap_eq rq_id _ r d Hnd Hin Hd' Hid). }
  split; [|split].
  - clear Hnd Hdue. revert Hin Hids. generalize (dueRows nowSec (retry_queue s)).
    intros rows. revert s. induction rows as [|d rows IH]; intros s Hin Hids; [done|].
    cbn [fold_left]. apply IH.
    + apply processRetryRow_frame; [|done]. apply Hids, list_elem_of_here.
    + intros d' Hd'. by apply Hids, list_elem_of_further.
  - clear. generalize (dueRows nowSec (retry_queue s)). intros rows. revert s.
    induction rows as [|d rows IH]; intros s; [done|].
    cbn [fold_left]. etrans; [apply IH|]. apply processRetryRow_shrinks.
  - unfold dueRows. rewrite length_take. lia.
Qed.

Lemma sweep_exhausted_idle (t : Z) (r : RetryRow) (s : State) :
  retry_queue s = [r] -> rq_status r = B "exhausted" -> ProcessRetryQueue t s = s.
Proof.
  intros Hq Hs. unfold ProcessRetryQueue. rewrite Hq, dueRows_not_pending; [done|].
  by rewrite Hs.
Qed.

(** The sweeps of a row that fails at each of them, with the backoff as
    64 bits hold it. *)
Lemma failing_row_sweeps
    (tool : Tool) (times : list Z) (last : Z) (r : RetryRow) (s : State) :
  retry_queue s = [r] ->
  rq_status r = B "pending" ->
  Tools.Get (rq_tool_name r) (tools s) = Some tool ->
  (forall w, exists err,
      (executeTool tool (unmarshalArgs (rq_params_json r)) w).1 = inl err) ->
  Z.of_nat (length times) = rq_max_attempts r - rq_attempt_number r ->
  dueAtEach (rq_next_retry_at r) (rq_backoff_seconds r) (times ++ [last]) ->
  exists (r' : RetryRow) (err : bytes),
    retry_queue (sweeps (times ++ [last]) s) = [r']
    /\ rq_id r' = rq_id r
    /\ rq_status r' = B "exhausted"
    /\ rq_attempt_number r' = rq_max_attempts r
    /\ (- 2 ^ 63 <= rq_backoff_seconds r < 2 ^ 63 ->
          rq_backoff_seconds r'
          = wrap64 (rq_backoff_seconds r * 2 ^ Z.of_nat (length times)))
    /\ dead_letter_queue (sweeps (times ++ [last]) s)
       = dead_letter_queue s
         ++ [mkDeadLetter (rq_request_id r) (rq_tool_name r) (rq_params_json r) err
               (rq_max_attempts r) 0 last]
    /\ forall t, ProcessRetryQueue t (sweeps (times ++ [last]) s)
                 = sweeps (times ++ [last]) s.
Proof.
  revert r s. induction times as [|t times IH]; intros r s Hq Hs Ht Hfail Hlen Hdue.
  - cbn [app sweeps fold_left length] in *. destruct Hdue as [Hdue _].
    destruct (Hfail (world s)) as [err Herr].
    destruct (sweep_failure last r tool err s Hq Hs Hdue Ht Herr) as (_ & Hex & _).
    destruct (Hex ltac:(lia)) as [Hq' Hd'].
    exists (withStatus (B "exhausted") r), err. rewrite Hq', Hd'.
    cbn [rq_id rq_status rq_attempt_number rq_backoff_seconds withStatus].
    replace (rq_attempt_number r) with (rq_max_attempts r) by lia.
    repeat split; try done.
    + intros Hin. rewrite Z.mul_1_r. symmetry. by apply wrap64_small.
    + intros t. by apply (sweep_exhausted_idle t (withStatus (B "exhausted") r)).
  - cbn [app sweeps fold_left length] in *. destruct Hdue as [Hdue Hrest].
    destruct (Hfail (world s)) as [err Herr].
    destruct (sweep_failure t r tool err s Hq Hs Hdue Ht Herr) as (Htools & _ & Hre).
    destruct (Hre ltac:(lia)) as [Hq' Hd'].
    destruct (IH (rearm (rq_attempt_number r + 1) (wrap64 (rq_backoff_seconds r * 2))
                    (t + wrap64 (rq_backoff_seconds r * 2)) err r)
                 (ProcessRetryQueue t s)) as (r' & err' & H1 & H2 & H3 & H4 & H5 & H6 & H7);
      try done.
    + by rewrite Htools.
    + cbn [rearm rq_max_attempts rq_attempt_number]. lia.
    + exists r', err'. fold (sweeps (times ++ [last]) (ProcessRetryQueue t s)).
      rewrite H1, H6, Hd'. cbn [rearm rq_id rq_request_id rq_tool_name rq_params_json
        rq_max_attempts rq_backoff_seconds] in *.
      repeat split; try done.
      intros _. rewrite H5 by apply wrap64_range. rewrite wrap64_mul_l. f_equal.
      rewrite Nat2Z.inj_succ, Z.pow_succ_r by apply Nat2Z.is_nonneg. ring.
Qed.

(** X26. A retry row whose tool fails at every attempt is executed
    once per sweep that finds it due, with its backoff doubled after each
    failure, until its attempt number has reached [max_attempts]: the sweep
    that fails then writes one dead letter, carrying that number of attempts
    and the reading of the clock, and marks the row exhausted. No later
    sweep touches the row. The doubling is that of a Go [int]: after [k]
    failures the backoff is the stored one times [2^k] as 64 bits hold it,
    which is that product as long as it fits. *)
Theorem retries_back_off_and_end_in_a_dead_letter
    (tool : Tool) (times : list Z) (last : Z) (r : RetryRow) (s : State) :
  retry_queue s = [r] ->
  rq_status r = B "pending" ->
  Tools.Get (rq_tool_name r) (tools s) = Some tool ->
  (forall w, exists err,
      (executeTool tool (unmarshalArgs (rq_params_json r)) w).1 = inl err) ->
  Z.of_nat (length times) = rq_max_attempts r - rq_attempt_number r ->
  dueAtEach (rq_next_retry_at r) (rq_backoff_seconds r) (times ++ [last]) ->
  exists (r' : RetryRow) (err : bytes),
    retry_queue (sweeps (times ++ [last]) s) = [r']
    /\ rq_id r' = rq_id r
    /\ rq_status r' = B "exhausted"
    /\ rq_attempt_number r' = rq_max_attempts r
    /\ (- 2 ^ 63 <= rq_backoff_seconds r < 2 ^ 63 ->
          rq_backoff_seconds r'
          = wrap64 (rq_backoff_seconds r * 2 ^ Z.of_nat (length times)))
    /\ (- 2 ^ 63 <= rq_backoff_seconds r * 2 ^ Z.of_nat (length times) < 2 ^ 63 ->
          rq_backoff_seconds r'
          = rq_backoff_seconds r * 2 ^ Z.of_nat (length times))
    /\ dead_letter_queue (sweeps (times ++ [last]) s)
       = dead_letter_queue s
         ++ [mkDeadLetter (rq_request_id r) (rq_tool_name r) (rq_params_json r) err
               (rq_max_attempts r) 0 last]
    /\ forall t, ProcessRetryQueue t (sweeps (times ++ [last]) s)
                 = sweeps (times ++ [last]) s.
Proof.
  intros Hq Hs Ht Hfail Hlen Hdue.
  destruct (failing_row_sweeps tool times last r s Hq Hs Ht Hfail Hlen Hdue)
    as (r' & err & H1 & H2 & H3 & H4 & H5 & H6 & H7).
  exists r', err. repeat split; try done.
  intros Hin. rewrite H5; [by apply wrap64_small|].
  pose proof (Z.pow_pos_nonneg 2 (Z.of_nat (length times)) ltac:(lia) ltac:(lia)). nia.
Qed.

End RetryExtras.

(** ** The latency buffer and its percentiles *)

Section LatencyExtras.

Import Observability.

Lemma half_below_max :
  (maxLatencies / 2 + 1 <= maxLatencies)%nat
  /\ maxLatencies = (maxLatencies / 2 + maxLatencies / 2)%nat.
Proof. split; [apply Nat.leb_le|]; by vm_compute. Qed.

Lemma RecordLatency_invariant (history latencies : list Z) (latencyMs : Z) :
  (length latencies <= maxLatencies)%nat ->
  latencies `suffix_of` history ->
  (Nat.min (length history) (maxLatencies / 2 + 1) <= length latencies)%nat ->
  (length (RecordLatency latencyMs latencies) <= maxLatencies)%nat
  /\ RecordLatency latencyMs latencies `suffix_of` history ++ [latencyMs]
  /\ (Nat.min (length (history ++ [latencyMs])) (maxLatencies / 2 + 1)
      <= length (RecordLatency latencyMs latencies))%nat.
Proof.
  intros Hlen Hsuf Hmin. pose proof half_below_max as [Hh Hh']. unfold RecordLatency.
  destruct (Nat.leb_spec maxLatencies (length latencies)) as [Hfull|Hroom].
  - rewrite take_ge by (rewrite length_drop; lia).
    rewrite !length_app, length_drop. cbn [length]. split; [lia|]. split; [|lia].
    apply suffix_app. etrans; [apply suffix_drop|done].
  - rewrite !length_app. cbn [length]. split; [lia|]. split; [|lia].
    by apply suffix_app.
Qed.

(** X27. However many latencies are recorded, the buffer of
    [RecordLatency] never holds more than [maxLatencies] samples, what it
    holds are the most recent samples in the order they came, and none of
    the last [maxLatencies / 2 + 1] samples is ever missing. *)
Theorem latency_buffer_is_bounded_and_recent (samples : list Z) :
  (length (fold_left (fun l x => RecordLatency x l) samples []) <= maxLatencies)%nat
  /\ fold_left (fun l x => RecordLatency x l) samples [] `suffix_of` samples
  /\ (Nat.min (length samples) (maxLatencies / 2 + 1)
      <= length (fold_left (fun l x => RecordLatency x l) samples []))%nat.
Proof.
  induction samples as [|x samples IH] using rev_ind.
  - cbn. split; [lia|]. split; [done|lia].
  - rewrite fold_left_app. cbn [fold_left]. destruct IH as (H1 & H2 & H3).
    by apply RecordLatency_invariant.
Qed.


Local Open Scope Z_scope.

Lemma bubble_perm (m : nat) : forall l, bubble m l ≡ₚ l.
Proof.
  induction m as [|m IH]; intros l; [by destruct l|].
  destruct l as [|x [|y t]]; [done..|]. cbn [bubble].
  destruct (y <? x).
  - rewrite IH. apply perm_swap.
  - by rewrite IH.
Qed.

Lemma bubble_app (m : nat) : forall a b,
  (m < length a)%nat -> bubble m (a ++ b) = bubble m a ++ b.
Proof.
  induction m as [|m IH]; intros a b Hm; [by destruct a as [|? [|? ?]]|].
  destruct a as [|x [|y t]]; cbn [length] in Hm; [lia..|].
  cbn [app bubble]. destruct (y <? x).
  - change (x :: t ++ b) with ((x :: t) ++ b).
    by rewrite (IH (x :: t)) by (cbn [length]; lia).
  - change (y :: t ++ b) with ((y :: t) ++ b).
    by rewrite (IH (y :: t)) by (cbn [length]; lia).
Qed.

(** One full pass carries the greatest element to the end. *)
Lemma bubble_max (n : nat) : forall a,
  length a = S n ->
  exists a' mx, bubble n a = a' ++ [mx] /\ Forall (fun x => x <= mx) a'.
Proof.
  induction n as [|n IH]; intros a Ha.
  - destruct a as [|x [|? ?]]; try done. by exists [], x.
  - destruct a as [|x [|y t]]; try done. cbn [length] in Ha. cbn [bubble].
    destruct (Z.ltb_spec y x) as [Hyx|Hxy].
    + destruct (IH (x :: t)) as (a' & mx & E & Hle); [cbn [length]; lia|].
      exists (y :: a'), mx. rewrite E. split; [done|]. constructor; [|done].
      assert (x ∈ a' ++ [mx]) as Hx
        by (rewrite <- E, bubble_perm; apply list_elem_of_here).
      apply elem_of_app in Hx as [Hx|Hx%list_elem_of_singleton].
      * rewrite Forall_forall in Hle. specialize (Hle x Hx). lia.
      * lia.
    + destruct (IH (y :: t)) as (a' & mx & E & Hle); [cbn [length]; lia|].
      exists (x :: a'), mx. rewrite E. split; [done|]. constructor; [|done].
      assert (y ∈ a' ++ [mx]) as Hy
        by (rewrite <- E, bubble_perm; apply list_elem_of_here).
      apply elem_of_app in Hy as [Hy|Hy%list_elem_of_singleton].
      * rewrite Forall_forall in Hle. specialize (Hle y Hy). lia.
      * lia.
Qed.

Lemma bubblePasses_perm (count : nat) : forall i l, bubblePasses i count l ≡ₚ l.
Proof.
  induction count as [|count IH]; intros i l; [done|].
  cbn [bubblePasses]. by rewrite IH, bubble_perm.
Qed.

Lemma StronglySorted_app_le (a b : list Z) :
  StronglySorted Z.le a -> StronglySorted Z.le b ->
  (forall x y, x ∈ a -> y ∈ b -> x <= y) ->
  StronglySorted Z.le (a ++ b).
Proof.
  intros Ha Hb Hab. induction Ha as [|x a Ha IH Hx]; [done|].
  cbn [app]. constructor.
  - apply IH. intros x' y Hx' Hy. apply Hab; [by apply list_elem_of_further|done].
  - apply Forall_app. split; [done|].
    apply Forall_forall. intros y Hy. apply Hab; [apply list_elem_of_here|done].
Qed.

(** After [i] passes the last [i] elements are in place. *)
Lemma bubblePasses_sorted (count : nat) : forall i a b,
  length b = i -> length a = S count ->
  StronglySorted Z.le b ->
  (forall x y, x ∈ a -> y ∈ b -> x <= y) ->
  StronglySorted Z.le (bubblePasses i count (a ++ b)).
Proof.
  induction count as [|count IH]; intros i a b Hb Ha Hsb Hab.
  - cbn [bubblePasses]. destruct a as [|x [|? ?]]; try done.
    apply StronglySorted_app_le; [repeat constructor|done|done].
  - cbn [bubblePasses]. rewrite length_app, Hb, Ha.
    replace (S (S count) + i - i - 1)%nat with (S count) by lia.
    rewrite bubble_app by lia.
    destruct (bubble_max (S count) a Ha) as (a' & mx & E & Hle). rewrite E.
    assert (a ≡ₚ a' ++ [mx]) as Hperm by (by rewrite <- E, bubble_perm).
    rewrite <- app_assoc. cbn [app].
    apply (IH (S i) a' (mx :: b)).
    + cbn [length]. lia.
    + apply Permutation_length in Hperm. rewrite length_app in Hperm.
      cbn [length] in Hperm. lia.
    + constructor; [done|]. apply Forall_forall. intros y Hy.
      apply Hab; [|done]. rewrite Hperm. apply elem_of_app. right.
      apply list_elem_of_here.
    + intros x y Hx [->|Hy]%elem_of_cons.
      * rewrite Forall_forall in Hle. by apply Hle.
      * apply Hab; [|done]. rewrite Hperm. apply elem_of_app. by left.
Qed.

Lemma bubbleSort_sorted (l : list Z) : StronglySorted Z.le (bubbleSort l).
Proof.
  unfold bubbleSort. destruct l as [|x l]; [constructor|].
  rewrite <- (app_nil_r (x :: l)) at 2.
  apply bubblePasses_sorted; [done|cbn [length]; lia|constructor|].
  intros ? ? _ Hy. by apply elem_of_nil in Hy.
Qed.

Lemma bubbleSort_perm (l : list Z) : bubbleSort l ≡ₚ l.
Proof. apply bubblePasses_perm. Qed.

Lemma StronglySorted_nth (l : list Z) (i j : nat) :
  StronglySorted Z.le l -> (i <= j < length l)%nat -> nth i l 0 <= nth j l 0.
Proof.
  intros Hs. revert i j. induction Hs as [|x l Hs IH Hx]; intros i j Hij.
  - cbn [length] in Hij. lia.
  - destruct i as [|i], j as [|j]; cbn [nth length] in *; try lia.
    + rewrite Forall_forall in Hx. apply Hx.
      apply list_elem_of_In, nth_In. lia.
    + apply IH. lia.
Qed.

(** X28. For a non-empty buffer the three percentiles are recorded
    samples and are ordered: p50 is at most p95, which is at most p99. With
    at most 100 samples p99 is the greatest sample. *)
Theorem percentiles_are_ordered_samples (latencies : list Z) :
  latencies <> [] ->
  (calculatePercentiles latencies).1.1 <= (calculatePercentiles latencies).1.2
  /\ (calculatePercentiles latencies).1.2 <= (calculatePercentiles latencies).2
  /\ (calculatePercentiles latencies).1.1 ∈ latencies
  /\ (calculatePercentiles latencies).1.2 ∈ latencies
  /\ (calculatePercentiles latencies).2 ∈ latencies
  /\ ((length latencies <= 100)%nat ->
      Forall (fun x => x <= (calculatePercentiles latencies).2) latencies).
Proof.
  intros Hne. destruct latencies as [|x0 l0]; [done|]. clear Hne.
  set (l := x0 :: l0). unfold calculatePercentiles. fold l.
  pose proof (bubbleSort_sorted l) as Hs. pose proof (bubbleSort_perm l) as Hp.
  set (sorted := bubbleSort l) in *. set (n := length sorted).
  assert (0 < n)%nat as Hn.
  { subst n. rewrite (Permutation_length Hp). cbn [l length]. lia. }
  assert (n * 50 / 100 <= n * 95 / 100)%nat as H1
    by (apply Nat.Div0.div_le_mono; lia).
  assert (n * 95 / 100 <= n * 99 / 100)%nat as H2
    by (apply Nat.Div0.div_le_mono; lia).
  assert (n * 99 / 100 < n)%nat as H3
    by (apply Nat.Div0.div_lt_upper_bound; lia).
  assert (forall i, (i < n)%nat -> nth i sorted 0 ∈ l) as Hin.
  { intros i Hi. rewrite <- Hp. apply list_elem_of_In, nth_In. done. }
  cbn [fst snd].
  destruct (Nat.ltb_spec 100 n) as [Hbig|Hsmall].
  - split; [apply StronglySorted_nth; [done|lia]|].
    split; [apply StronglySorted_nth; [done|lia]|].
    repeat split; try (apply Hin; lia).
    intros Hl. subst n. rewrite (Permutation_length Hp) in Hbig. lia.
  - split; [apply StronglySorted_nth; [done|lia]|].
    split; [apply StronglySorted_nth; [done|lia]|].
    repeat split; try (apply Hin; lia).
    intros _. apply Forall_forall. intros x Hx. rewrite <- Hp in Hx.
    apply list_elem_of_lookup in Hx as [i Hi].
    rewrite <- (nth_lookup_Some _ _ 0 _ Hi).
    apply StronglySorted_nth; [done|]. apply lookup_lt_Some in Hi. lia.
Qed.

End LatencyExtras.

(** ** The health report *)

Section ValidationExtras.

Import Validate.

Variable host : Host.

Lemma fold_issues (dbs : list DBHealth) (issues : list bytes) :
  fold_left (fun issues db => issues ++ issueOf db) dbs issues
  = issues ++ concat (issueOf <$> dbs).
Proof.
  revert issues. induction dbs as [|db dbs IH]; intros issues.
  - by rewrite app_nil_r.
  - cbn [fold_left fmap list_fmap concat]. by rewrite IH, app_assoc.
Qed.

(** The first loop of [ValidateDatabases], over any list of names. *)
Lemma fold_health (basePath : bytes) (names : list bytes) (r : ValidationResult) :
  let r' :=
    fold_left
      (fun result name =>
         let health := checkDatabase host basePath name in
         mkValidationResult (BasePath result) (Databases result ++ [health])
           (if negb (Exists health) then false else AllExist result)
           (if Exists health && (negb (IntegrityOK health) || negb (IsHolow health))
            then false else AllHealthy result)
           (if HasWAL health || HasSHM health then true else HasOrphanWAL result)
           (Issues result))
      names r in
  Databases r' = Databases r ++ (checkDatabase host basePath <$> names)
  /\ AllExist r' = AllExist r && forallb Exists (checkDatabase host basePath <$> names)
  /\ AllHealthy r'
     = AllHealthy r
       && forallb (fun db => negb (Exists db) || (IntegrityOK db && IsHolow db))
            (checkDatabase host basePath <$> names)
  /\ HasOrphanWAL r'
     = HasOrphanWAL r
       || existsb (fun db => HasWAL db || HasSHM db) (checkDatabase host basePath <$> names)
  /\ Issues r' = Issues r.
Proof.
  revert r. induction names as [|name names IH]; intros r.
  - cbn. by rewrite app_nil_r, !andb_true_r, orb_false_r.
  - cbn [fold_left fmap list_fmap forallb existsb].
    match goal with |- context [fold_left _ names ?x] => specialize (IH x) end.
    cbn zeta in IH. destruct IH as (-> & -> & -> & -> & ->).
    cbn [Databases AllExist AllHealthy HasOrphanWAL Issues].
    rewrite <- app_assoc. cbn [app].
    destruct (Exists _), (IntegrityOK _), (IsHolow _), (HasWAL _), (HasSHM _),
      (AllExist r), (AllHealthy r), (HasOrphanWAL r); done.
Qed.

(** X29. [ValidateDatabases] checks six databases. When it reports
    that all exist and all are healthy it lists no issue. The converse
    fails in one way only: if no issue is listed all databases exist, and if
    the report is unhealthy all the same, then some database passed the
    integrity check but did not answer the query for its application id, a
    state the report flags without naming it. *)
Theorem validation_flags_and_issues (basePath : bytes) :
  length (Databases (ValidateDatabases host basePath)) = 6
  /\ (AllExist (ValidateDatabases host basePath) = true ->
      AllHealthy (ValidateDatabases host basePath) = true ->
      Issues (ValidateDatabases host basePath) = [])
  /\ (Issues (ValidateDatabases host basePath) = [] ->
      AllExist (ValidateDatabases host basePath) = true
      /\ (AllHealthy (ValidateDatabases host basePath) = false ->
          exists name, name ∈ dbNames
            /\ exists db, sqlOpen host (Path (checkDatabase host basePath name)) = inr db
                 /\ applicationId db = None /\ integrityCheck db = inr (B "ok"))).
Proof.
  unfold ValidateDatabases.
  destruct (fold_health basePath dbNames (mkValidationResult basePath [] true true false []))
    as (Hd & He & Hh & _ & Hi).
  cbn zeta in *. cbn [Databases AllExist AllHealthy HasOrphanWAL Issues] in *.
  rewrite fold_issues, Hd, He, Hh, Hi. cbn [app andb]. clear.
  split; [by rewrite length_fmap|].
  generalize dbNames. intros names. split.
  - intros He Hh. induction names as [|name names IH]; [done|].
    cbn [fmap list_fmap forallb concat] in *.
    apply andb_true_iff in He as [He1 He]. apply andb_true_iff in Hh as [Hh1 Hh].
    rewrite IH by done. rewrite app_nil_r. unfold issueOf.
    rewrite He1 in Hh1 |- *. cbn in Hh1. apply andb_true_iff in Hh1 as [-> ->]. done.
  - intros Hi. split.
    + induction names as [|name names IH]; [done|].
      cbn [fmap list_fmap forallb concat] in *.
      apply app_eq_nil in Hi as [H1 H2]. rewrite (IH H2), andb_true_r.
      unfold issueOf in H1. by destruct (Exists _).
    + intros Hh. induction names as [|name names IH]; [done|].
      cbn [fmap list_fmap forallb concat] in *.
      apply app_eq_nil in Hi as [H1 H2].
      apply andb_false_iff in Hh as [Hh|Hh].
      * exists name. split; [apply list_elem_of_here|].
        unfold issueOf in H1. revert H1 Hh. unfold checkDatabase.
        destruct (isNotExist host _); [done|].
        destruct (sqlOpen host _) as [err|db] eqn:Ho; [done|].
        destruct (integrityCheck db) as [err|result] eqn:Hc; [done|].
        case_bool_decide as Hok; [|done]. subst result.
        destruct (applicationId db) as [a|] eqn:Ha.
        -- cbn. destruct (a =? HolowAppID)%Z eqn:E1; [done|].
           destruct (a =? 0)%Z eqn:E2; [done|]. cbn. intros Hissue. discriminate Hissue.
        -- intros _ _. exists db. cbn [Path]. rewrite Ho. done.
      * destruct (IH H2 Hh) as (nm & Hin & Hx). exists nm.
        split; [by apply list_elem_of_further|done].
Qed.

End ValidationExtras.

#[local] Existing Instance Reference.runtime.

(** C2. The claim holds of the design and not of the code. The whitelist
    check [ValidateAttachPath] is called by nothing: the answer of a
    [tools/call] is the same whatever [allowed_attach_paths] holds. On a
    server whose whitelist is empty, where [ValidateAttachPath] refuses
    [/tmp/x.db], a tool whose step renders [ATTACH DATABASE '/tmp/x.db' AS x]
    has its statement handed to the engine as it is, and the call succeeds. *)
Theorem attach_runs_without_whitelist :
  (forall (rt : Runtime) (now : Z) (params h : bytes) (wl : list AttachRow)
          (s : Server.State (rt := rt)),
      (Server.handleToolsCall (rt := rt) now params h
         (Server.set_allowed_attach_paths wl s)).1
      = (Server.handleToolsCall (rt := rt) now params h s).1)
  /\ Server.allowed_attach_paths Reference.fresh = []
  /\ Database.ValidateAttachPath (B "/tmp/x.db")
       (Server.allowed_attach_paths Reference.fresh)
     = Some (B "ATTACH forbidden: path not in whitelist: /tmp/x.db")
  /\ Server.world
       (Server.handleRequest 0 1
          (Reference.requestLine "1" "tools/call" (Some (Reference.callParams "attach_x")))
          Reference.fresh)
     = [B "ATTACH DATABASE '/tmp/x.db' AS x"]
  /\ Server.stdout
       (Server.handleRequest 0 1
          (Reference.requestLine "1" "tools/call" (Some (Reference.callParams "attach_x")))
          Reference.fresh)
     = [VMap [(B "jsonrpc", VString (B "2.0")); (B "id", VFloat64 (B "1"));
              (B "result",
               Server.contentEnvelope
                 (B "{" ++ Reference.q "rows_affected" ++ B ":0,"
                  ++ Reference.q "last_insert_id" ++ B ":0}"))]].
Proof.
  split; [intros; apply handleToolsCall_whitelist|].
  repeat split; by vm_compute.
Qed.

(** ** Runs of the concrete server *)

(** The race of two handlers of one request: both run, one row is kept. *)
Lemma ledger_one_row_per_fingerprint_witness :
  length (Spec.rowsFor
            (Server.hashRequest (B "tools/call") (Reference.callParams "ping_tool"))
            (Server.processed_log Reference.race.2)) <= 1
  /\ length (Server.world Reference.race.2) = 2.
Proof.
  split; [|by vm_compute].
  apply (ledger_one_row_per_fingerprint (rt := Reference.runtime)
           [] Reference.race.1 Reference.fresh Reference.race.2
           (Server.hashRequest (B "tools/call") (Reference.callParams "ping_tool"))
           [] [] [] [] 0 0
           (mkRequest [] VNil [] []) (inr VNil)).
  - constructor.
  - change (Reference.race.1, Reference.race.2) with Reference.race.
    unfold Reference.race.
    repeat (etrans; [|apply moveAt_step]).
    etrans; [|apply spawn_step]. apply spawn_step.
Defined.





(** The heartbeat does not sweep, and a failing tool gets its -32000. *)
Lemma failed_calls_enqueue_nothing_witness :
  Server.retry_queue (Server.tick Server.HeartbeatLoop Reference.fresh) = []
  /\ (Server.handleToolsCall 0 (Reference.callParams "always_fails") [] Reference.fresh).1
     = inl (mkRPCError (-32000) (B "Tool execution failed")
              (VString (B "SQL execution failed at step run: no such function: raise_error"))).
Proof.
  destruct (failed_calls_enqueue_nothing (rt := Reference.runtime) Reference.fresh [] 0 0 3
              (Reference.callParams "always_fails") [] (B "always_fails")
              (B "SQL execution failed at step run: no such function: raise_error")
              [] [] [] []
              (Reference.sqlTool "always_fails" "SELECT raise_error()")
              Server.HeartbeatLoop) as (_ & _ & Hfail & Htick & _).
  split.
  - apply Htick. cbn. tauto.
  - apply Hfail; by vm_compute.
Defined.

(** C5 fails as stated. The tool [always_fails] has the retry policy
    exponential; a call of it fails with -32000, and neither that call nor a
    tick of each loop [Start] launches puts a row in the retry queue or runs
    a sweep. A row added by hand stays unswept through the same ticks, long
    after it is due. *)
Lemma failed_call_enqueues_retry_counterexample :
  RetryPolicy (Reference.sqlTool "always_fails" "SELECT raise_error()") = B "exponential"
  /\ Server.retry_queue
       (Server.serve
          (Server.Line 0 1
             (Reference.requestLine "1" "tools/call"
                (Some (Reference.callParams "always_fails")))
           :: (Server.Tick <$> Server.startedLoops))
          Reference.fresh)
     = []
  /\ Server.retry_queue
       (Server.serve (Server.Tick <$> Server.startedLoops)
          (Server.AddRetryJob 100 (B "req-1") (B "always_fails") [] 3 Reference.fresh))
     = Server.retry_queue
         (Server.AddRetryJob 100 (B "req-1") (B "always_fails") [] 3 Reference.fresh)
  /\ length (Server.retry_queue
               (Server.AddRetryJob 100 (B "req-1") (B "always_fails") [] 3 Reference.fresh))
     = 1.
Proof. repeat split; by vm_compute. Qed.

(** The job of the scenario on the concrete server, swept at 102, 106, 114. *)
Lemma exhausted_retry_goes_to_dead_letter_witness :
  length (Server.dead_letter_queue
            (Server.ProcessRetryQueue 114
               (Server.ProcessRetryQueue 106
                  (Server.ProcessRetryQueue 102
                     (Server.AddRetryJob 100 (B "req-1") (B "always_fails") [] 3
                        Reference.fresh)))))
  = 1.
Proof.
  destruct (exhausted_retry_goes_to_dead_letter (rt := Reference.runtime)
              Reference.fresh (Reference.sqlTool "always_fails" "SELECT raise_error()")
              (B "req-1") (B "always_fails") [] 100 102 106 114 200
              eq_refl ltac:(by vm_compute)
              ltac:(intros w; eexists; by vm_compute)
              ltac:(by vm_compute) ltac:(by vm_compute) ltac:(by vm_compute))
    as (_ & e1 & e2 & e3 & _ & _ & _ & _ & _ & D & _).
  rewrite D. reflexivity.
Defined.

(** C4 fails as stated: after the third failed sweep the retry queue is not
    empty. It holds the row of the request, with status exhausted, next to
    the one dead-letter row. *)
Lemma retry_queue_emptied_counterexample :
  rq_status
  <$> Server.retry_queue
        (Server.ProcessRetryQueue 114
           (Server.ProcessRetryQueue 106
              (Server.ProcessRetryQueue 102
                 (Server.AddRetryJob 100 (B "req-1") (B "always_fails") [] 3
                    Reference.fresh))))
  = [B "exhausted"]
  /\ Server.retry_queue
       (Server.ProcessRetryQueue 114
          (Server.ProcessRetryQueue 106
             (Server.ProcessRetryQueue 102
                (Server.AddRetryJob 100 (B "req-1") (B "always_fails") [] 3
                   Reference.fresh))))
     <> []
  /\ length (Server.dead_letter_queue
               (Server.ProcessRetryQueue 114
                  (Server.ProcessRetryQueue 106
                     (Server.ProcessRetryQueue 102
                        (Server.AddRetryJob 100 (B "req-1") (B "always_fails") [] 3
                           Reference.fresh)))))
     = 1.
Proof. repeat split; by vm_compute. Qed.

(** ** Runs for the further properties *)

Section CircuitRuns.

Import Circuit.

Local Open Scope Z_scope.

Lemma consecutive_failures_open_the_breaker_witness :
  state (run (Failure <$> [1; 2; 3; 4; 5]) (defaultBreaker (B "t") 0)) = StateOpen
  /\ state (run ((Failure <$> [1; 2; 3; 4]) ++ Success 5 :: (Failure <$> [6; 7; 8; 9]))
              (defaultBreaker (B "t") 0)) = StateClosed.
Proof.
  destruct (consecutive_failures_open_the_breaker (defaultBreaker (B "t") 0)
              [1; 2; 3; 4; 5] [] 0 eq_refl ltac:(by vm_compute)) as [H _].
  destruct (consecutive_failures_open_the_breaker (defaultBreaker (B "t") 0)
              [1; 2; 3; 4] [6; 7; 8; 9] 5 eq_refl ltac:(by vm_compute)) as [_ H'].
  split; [apply H|apply H'; by vm_compute].
Defined.

Lemma reset_closes_and_rearms_witness :
  state (run (Failure <$> [7; 8; 9; 10])
           (Reset 6 (run (Failure <$> [1; 2; 3; 4; 5]) (defaultBreaker (B "t") 0))))
  = StateClosed.
Proof.
  destruct (reset_closes_and_rearms
              (run (Failure <$> [1; 2; 3; 4; 5]) (defaultBreaker (B "t") 0)) 6 0
              [7; 8; 9; 10] ltac:(by rewrite run_failureThreshold)) as (_ & _ & _ & H).
  exact H.
Defined.

Lemma spent_half_open_breaker_refuses_whatever_the_clock_witness :
  run (Call <$> [1; 1000 * Second; 1000000 * Second])
    (mkBreaker (B "t") StateHalfOpen 5 2 5 3 60 0 3 3)
  = mkBreaker (B "t") StateHalfOpen 5 2 5 3 60 0 3 3.
Proof.
  destruct (spent_half_open_breaker_refuses_whatever_the_clock
              (mkBreaker (B "t") StateHalfOpen 5 2 5 3 60 0 3 3)
              [1; 1000 * Second; 1000000 * Second] eq_refl ltac:(by vm_compute))
    as [H _].
  exact H.
Defined.

End CircuitRuns.

Section ExtraRuns.

Local Open Scope Z_scope.

Lemma template_without_braces_is_left_alone_witness :
  Template.substituteParams (rt := Reference.runtime) (B "SELECT 1 AS v")
    [(B "v", VString (B "x")); (B "w", VInt 3)]
  = B "SELECT 1 AS v".
Proof.
  apply (template_without_braces_is_left_alone (rt := Reference.runtime)). by vm_compute.
Defined.

Lemma call_of_unknown_tool_changes_nothing_witness :
  Server.world
    (Server.handleRequest 0 1
       (Reference.requestLine "1" "tools/call" (Some (Reference.callParams "ping_tool")))
       (Server.set_tools ∅ Reference.fresh))
  = [].
Proof.
  destruct (call_of_unknown_tool_changes_nothing (rt := Reference.runtime) 0 1
              (Reference.requestLine "1" "tools/call"
                 (Some (Reference.callParams "ping_tool")))
              (B "ping_tool") []
              (mkRequest (B "2.0") (VFloat64 (B "1")) (B "tools/call")
                 (Reference.callParams "ping_tool"))
              (Server.set_tools ∅ Reference.fresh)
              ltac:(by vm_compute) ltac:(by vm_compute) ltac:(by vm_compute)
              ltac:(by vm_compute) ltac:(by vm_compute) ltac:(by vm_compute)
              ltac:(by vm_compute))
    as (_ & H & _).
  exact H.
Defined.

Lemma open_breaker_shields_the_tool_witness :
  Server.world
    (Server.handleToolsCall (60 * Circuit.Second) (Reference.callParams "ping_tool") []
       (Server.set_circuits
          {[ B "ping_tool" := Circuit.mkBreaker (B "ping_tool") Circuit.StateOpen 5 0 5 3 60
                                0 3 0 ]}
          Reference.fresh)).2
  = [].
Proof.
  destruct (open_breaker_shields_the_tool (rt := Reference.runtime)
              (60 * Circuit.Second) (Reference.callParams "ping_tool") [] (B "ping_tool") []
              (Reference.sqlTool "ping_tool" "SELECT 1 AS v")
              (Circuit.mkBreaker (B "ping_tool") Circuit.StateOpen 5 0 5 3 60 0 3 0)
              (Server.set_circuits
                 {[ B "ping_tool" := Circuit.mkBreaker (B "ping_tool") Circuit.StateOpen
                                       5 0 5 3 60 0 3 0 ]}
                 Reference.fresh)
              ltac:(by vm_compute) ltac:(by vm_compute) ltac:(by vm_compute)
              ltac:(by vm_compute) ltac:(by vm_compute) ltac:(by vm_compute)
              ltac:(by vm_compute))
    as (_ & H & _).
  exact H.
Defined.

Lemma call_leaves_other_breakers_alone_witness :
  Server.circuits
    (Server.handleToolsCall 0 (Reference.callParams "always_fails") [] Reference.fresh).2
  !! B "ping_tool"
  = None.
Proof.
  apply (call_leaves_other_breakers_alone (rt := Reference.runtime) 0
           (Reference.callParams "always_fails") [] (B "ping_tool") Reference.fresh).
  intros arguments. by vm_compute.
Defined.

Lemma failing_tool_is_cut_off_witness :
  (Server.handleToolsCall (65 * Circuit.Second) (Reference.callParams "always_fails") []
     (fold_left (fun st c => (Server.handleToolsCall c.1.1 c.1.2 c.2 st).2)
        ([(1, Reference.callParams "always_fails", []);
          (2, Reference.callParams "always_fails", []);
          (3, Reference.callParams "always_fails", []);
          (4, Reference.callParams "always_fails", [])]
         ++ [(5 * Circuit.Second, Reference.callParams "always_fails", [])])
        (Server.set_circuits
           {[ B "always_fails" := Circuit.defaultBreaker (B "always_fails") 0 ]}
           Reference.fresh))).1
  = inl (mkRPCError (-32000) (B "Circuit breaker open")
           (VString (B "circuit breaker always_fails is open"))).
Proof.
  destruct (failing_tool_is_cut_off (rt := Reference.runtime)
              (Server.set_circuits
                 {[ B "always_fails" := Circuit.defaultBreaker (B "always_fails") 0 ]}
                 Reference.fresh)
              (B "always_fails") (Reference.sqlTool "always_fails" "SELECT raise_error()")
              (Circuit.defaultBreaker (B "always_fails") 0)
              [(1, Reference.callParams "always_fails", []);
               (2, Reference.callParams "always_fails", []);
               (3, Reference.callParams "always_fails", []);
               (4, Reference.callParams "always_fails", [])]
              (5 * Circuit.Second) (65 * Circuit.Second)
              (Reference.callParams "always_fails") []
              (Reference.callParams "always_fails") [] []
              ltac:(done) ltac:(done) ltac:(by vm_compute) ltac:(by vm_compute)
              ltac:(done) ltac:(done) ltac:(done))
    as [H _].
  - repeat (apply List.Forall_cons || apply List.Forall_nil);
      (exists []; split; [by vm_compute|]; intros w; eexists; by vm_compute).
  - by vm_compute.
  - by vm_compute.
  - exact H.
Defined.

Lemma ping_is_answered_method_not_found_witness :
  Server.requestsFailed
    (Server.handleRequest 1 1 (Reference.requestLine "2" "ping" None)
       (Server.handleRequest 0 1 (Reference.requestLine "1" "ping" None) Reference.fresh))
  = 0 + 1 + 1.
Proof.
  destruct (ping_is_answered_method_not_found (rt := Reference.runtime) 1 1
              (Reference.requestLine "2" "ping" None)
              (mkRequest (B "2.0") (VFloat64 (B "2")) (B "ping") [])
              (Server.handleRequest 0 1 (Reference.requestLine "1" "ping" None)
                 Reference.fresh)
              ltac:(by vm_compute) ltac:(by vm_compute)) as (_ & H & _).
  rewrite H.
  destruct (ping_is_answered_method_not_found (rt := Reference.runtime) 0 1
              (Reference.requestLine "1" "ping" None)
              (mkRequest (B "2.0") (VFloat64 (B "1")) (B "ping") [])
              Reference.fresh
              ltac:(by vm_compute) ltac:(by vm_compute)) as (_ & H' & _).
  by rewrite H'.
Defined.

Lemma only_tools_call_reaches_the_tools_witness :
  Server.world
    (Server.handleRequest 0 1 (Reference.requestLine "1" "tools/list" None) Reference.fresh)
  = [].
Proof.
  destruct (only_tools_call_reaches_the_tools (rt := Reference.runtime) 0 1
              (Reference.requestLine "1" "tools/list" None) Reference.fresh) as [H _].
  - intros req Hreq. vm_compute in Hreq. by injection Hreq as <-.
  - exact H.
Defined.

Lemma only_served_requests_are_marked_witness :
  Database.CheckProcessed
    (Server.hashRequest (B "tools/call") (Reference.callParams "ping_tool"))
    (Server.processed_log Reference.fresh) = true
  \/ exists now latencyMs data req,
       Server.Line now latencyMs data ∈ [Server.Line 0 1 Reference.raceLine]
       /\ unmarshalRequest data = inr req
       /\ Server.hashRequest (B "tools/call") (Reference.callParams "ping_tool")
          = Server.hashRequest (reqMethod req) (reqParams req).
Proof.
  apply (only_served_requests_are_marked (rt := Reference.runtime)
           [Server.Line 0 1 Reference.raceLine] Reference.fresh).
  by vm_compute.
Defined.

Lemma first_failing_step_ends_the_tool_witness :
  Server.executeTool Reference.threeSteps [] []
  = (inl (B "SQL execution failed at step second: no such function: raise_error"),
     [B "SELECT 1 AS v"; B "SELECT raise_error()"]).
Proof.
  apply (first_failing_step_ends_the_tool (rt := Reference.runtime) Reference.threeSteps []
           [mkStep 1 (B "first") (B "sql") (B "SELECT 1 AS v")]
           (mkStep 2 (B "second") (B "sql") (B "SELECT raise_error()"))
           [mkStep 3 (B "third") (B "sql") (B "SELECT 2 AS v")]
           [] [B "SELECT 1 AS v"] [B "SELECT 1 AS v"; B "SELECT raise_error()"]
           (VInt64 1)); by vm_compute.
Defined.

Lemma attach_and_transform_steps_execute_nothing_witness :
  exists r, Server.executeTool Reference.attachOnly [] [] = (inr r, []).
Proof.
  apply (attach_and_transform_steps_execute_nothing (rt := Reference.runtime)
           Reference.attachOnly [] []).
  repeat constructor.
Defined.

Lemma added_attach_path_validates_witness :
  Database.ValidateAttachPath (B "/data/a.db")
    (Database.AddAllowedAttachPath (B "w1") (B "/data/a.db") (B "output")
       [mkAttach (B "w1") (B "/data/a.db") (B "output") 0;
        mkAttach (B "w2") (B "/data/b.db") (B "output") 0])
  = None.
Proof.
  apply added_attach_path_validates.
  intros r Hr Hp Hw.
  apply elem_of_cons in Hr as [->|Hr]; [by destruct Hw|].
  apply elem_of_cons in Hr as [->|Hr]; [by vm_compute in Hp|].
  by apply elem_of_nil in Hr.
Defined.

Lemma new_path_of_a_worker_revokes_the_old_witness :
  Database.ValidateAttachPath (B "/data/a.db")
    (Database.AddAllowedAttachPath (B "w1") (B "/data/new.db") (B "output")
       [mkAttach (B "w1") (B "/data/a.db") (B "output") 1])
  = Some (B "ATTACH forbidden: path not in whitelist: /data/a.db").
Proof.
  destruct (new_path_of_a_worker_revokes_the_old (B "w1") (B "/data/a.db")
              (B "/data/new.db") (B "output")
              [mkAttach (B "w1") (B "/data/a.db") (B "output") 1]) as [H _].
  - by vm_compute.
  - intros r Hr _. apply elem_of_cons in Hr as [->|Hr]; [done|].
    by apply elem_of_nil in Hr.
  - exact H.
Defined.

Lemma retry_that_succeeds_leaves_the_queue_witness :
  Server.retry_queue
    (Server.ProcessRetryQueue 102
       (Server.AddRetryJob 100 (B "req-1") (B "ping_tool") [] 3 Reference.fresh))
  = [].
Proof.
  destruct (retry_that_succeeds_leaves_the_queue (rt := Reference.runtime) 102
              (mkRetry 1 (B "req-1") (B "ping_tool") (B "{}") 1 3 102 2 (B "pending") None)
              (Reference.sqlTool "ping_tool" "SELECT 1 AS v") (VInt64 1)
              [B "SELECT 1 AS v"]
              (Server.AddRetryJob 100 (B "req-1") (B "ping_tool") [] 3 Reference.fresh)
              ltac:(by vm_compute) ltac:(by vm_compute) ltac:(by vm_compute)
              ltac:(by vm_compute) ltac:(by vm_compute)) as [H _].
  exact H.
Defined.

Lemma retry_of_a_missing_tool_is_dropped_witness :
  Server.dead_letter_queue
    (Server.ProcessRetryQueue 102
       (Server.AddRetryJob 100 (B "req-1") (B "ghost") [] 3 Reference.fresh))
  = []
  /\ rq_status
     <$> Server.retry_queue
           (Server.ProcessRetryQueue 102
              (Server.AddRetryJob 100 (B "req-1") (B "ghost") [] 3 Reference.fresh))
     = [B "exhausted"].
Proof.
  destruct (retry_of_a_missing_tool_is_dropped (rt := Reference.runtime) 102 500
              (mkRetry 1 (B "req-1") (B "ghost") (B "{}") 1 3 102 2 (B "pending") None)
              Reference.catalogue
              (Server.AddRetryJob 100 (B "req-1") (B "ghost") [] 3 Reference.fresh)
              ltac:(by vm_compute) ltac:(by vm_compute) ltac:(by vm_compute)
              ltac:(by vm_compute)) as (H1 & H2 & _).
  split; [exact H2|]. by rewrite H1.
Defined.

Lemma sweep_touches_only_the_rows_it_selected_witness :
  mkRetry 2 (B "req-2") (B "ping_tool") (B "{}") 1 3 202 2 (B "pending") None
  ∈ Server.retry_queue
      (Server.ProcessRetryQueue 150
         (Server.AddRetryJob 200 (B "req-2") (B "ping_tool") [] 3
            (Server.AddRetryJob 100 (B "req-1") (B "always_fails") [] 3 Reference.fresh))).
Proof.
  destruct (sweep_touches_only_the_rows_it_selected (rt := Reference.runtime) 150
              (mkRetry 2 (B "req-2") (B "ping_tool") (B "{}") 1 3 202 2 (B "pending") None)
              (Server.AddRetryJob 200 (B "req-2") (B "ping_tool") [] 3
                 (Server.AddRetryJob 100 (B "req-1") (B "always_fails") [] 3
                    Reference.fresh))) as [H _].
  - vm_compute. apply NoDup_cons.
    split; [by intros ?%list_elem_of_singleton|apply NoDup_singleton].
  - vm_compute. apply list_elem_of_further, list_elem_of_here.
  - vm_compute. intros Hin. apply elem_of_cons in Hin as [Hin|Hin]; [done|].
    by apply elem_of_nil in Hin.
  - exact H.
Defined.

Lemma percentiles_are_ordered_samples_witness :
  (Observability.calculatePercentiles [5; 1; 9; 3]).1.1
  <= (Observability.calculatePercentiles [5; 1; 9; 3]).1.2
  /\ (Observability.calculatePercentiles [5; 1; 9; 3]).2 = 9.
Proof.
  destruct (percentiles_are_ordered_samples [5; 1; 9; 3] ltac:(done)) as (H & _).
  split; [exact H|done].
Defined.

Lemma validation_flags_and_issues_witness :
  Validate.Issues (Validate.ValidateDatabases Reference.silentHost (B "/data")) = []
  /\ Validate.AllHealthy (Validate.ValidateDatabases Reference.silentHost (B "/data")) = false
  /\ exists name, name ∈ Validate.dbNames
       /\ exists db,
            Validate.sqlOpen Reference.silentHost
              (Validate.Path (Validate.checkDatabase Reference.silentHost (B "/data") name))
            = inr db
            /\ Validate.applicationId db = None
            /\ Validate.integrityCheck db = inr (B "ok").
Proof.
  split; [by vm_compute|]. split; [by vm_compute|].
  destruct (validation_flags_and_issues Reference.silentHost (B "/data")) as (_ & _ & H).
  apply H; by vm_compute.
Defined.

(** A job queued with backoff 2 ends exhausted with backoff 8; a row
    stored with the backoff [-2^62] ends exhausted with backoff 0, the
    second doubling leaving 64 bits. *)
Lemma retries_back_off_and_end_in_a_dead_letter_witness :
  (exists r' : RetryRow,
     Server.retry_queue
       (Server.sweeps ([102; 106] ++ [114])
          (Server.AddRetryJob 100 (B "req-1") (B "always_fails") [] 3 Reference.fresh))
     = [r']
     /\ rq_status r' = B "exhausted"
     /\ rq_backoff_seconds r' = 2 * 2 ^ 2)
  /\ (exists r' : RetryRow,
        Server.retry_queue
          (Server.sweeps ([0; 0] ++ [0])
             (Server.set_retry_queue
                [mkRetry 1 (B "req-1") (B "always_fails") (B "{}") 1 3 0
                   (-4611686018427387904) (B "pending") None]
                Reference.fresh))
        = [r']
        /\ rq_status r' = B "exhausted"
        /\ rq_backoff_seconds r' = 0).
Proof.
  split.
  - destruct (retries_back_off_and_end_in_a_dead_letter (rt := Reference.runtime)
                (Reference.sqlTool "always_fails" "SELECT raise_error()") [102; 106] 114
                (mkRetry 1 (B "req-1") (B "always_fails") (B "{}") 1 3 102 2 (B "pending")
                   None)
                (Server.AddRetryJob 100 (B "req-1") (B "always_fails") [] 3 Reference.fresh))
      as (r' & err & H1 & _ & H3 & _ & _ & H6 & _).
    + by vm_compute.
    + by vm_compute.
    + by vm_compute.
    + intros w. eexists. by vm_compute.
    + by vm_compute.
    + repeat split; by vm_compute.
    + exists r'. split; [exact H1|]. split; [exact H3|]. apply H6. by vm_compute.
  - destruct (retries_back_off_and_end_in_a_dead_letter (rt := Reference.runtime)
                (Reference.sqlTool "always_fails" "SELECT raise_error()") [0; 0] 0
                (mkRetry 1 (B "req-1") (B "always_fails") (B "{}") 1 3 0
                   (-4611686018427387904) (B "pending") None)
                (Server.set_retry_queue
                   [mkRetry 1 (B "req-1") (B "always_fails") (B "{}") 1 3 0
                      (-4611686018427387904) (B "pending") None]
                   Reference.fresh))
      as (r' & err & H1 & _ & H3 & _ & H5 & _).
    + by vm_compute.
    + by vm_compute.
    + by vm_compute.
    + intros w. eexists. by vm_compute.
    + by vm_compute.
    + repeat split; by vm_compute.
    + exists r'. split; [exact H1|]. split; [exact H3|].
      rewrite H5 by (by vm_compute). by vm_compute.
Defined.


End ExtraRuns.
